(** * Madoop: a shallow embedding of [madoop/mapreduce.py]

    The development follows the Python module function by function.

    Text.  A Python [str] is represented by the list of the bytes of its
    UTF-8 encoding ([str]).  Comparing two Python strings compares their code
    point sequences, which is the same order as the byte order of their UTF-8
    encodings; [key.encode("utf-8")] is the identity on this representation;
    TAB and LF are single bytes that occur in no multi-byte sequence.  The
    input files and the outputs of the executables hold valid text; such a
    file is read in text mode, with universal newlines, as the list of its
    lines, each line keeping its line feed, the last one possibly without
    it.  The executables are files of arbitrary bytes: reading their first
    line decodes them, and can fail.

    Directories.  A directory of the scratch workspace is the list of its
    entries (name and data).  The group stage takes its input directory as
    the operating system enumerates it; that order is a parameter of a run.
    The user-visible file system is a tree of nodes; the entries of a
    directory of the tree are enumerated in the order of the list.

    Subprocesses.  The map and reduce executables are opaque: a run of an
    executable is a function from its path and standard input to its
    standard output and exit status.

    Not modelled: the progress messages printed to standard output, and
    [Path.resolve], which is the identity on the paths of the model. *)

From Stdlib Require Import Ascii String.
From Stdlib Require Import List Arith ZArith NArith Lia Bool.
From Stdlib Require Import Sorted Permutation FinFun.
From Stdlib Require Import DecimalString DecimalNat.
Import ListNotations.

Local Open Scope list_scope.

(** ** Python strings *)

Definition str := list ascii.

Definition py (s : string) : str := list_ascii_of_string s.

Definition TAB : ascii := "009"%char.
Definition LF : ascii := "010"%char.

Definition ord (c : ascii) : N := N_of_ascii c.

(** [a < b] on Python strings: the first position where they differ decides,
    and a proper prefix is smaller. *)
Fixpoint str_ltb (a b : str) : bool :=
  match a, b with
  | _, [] => false
  | [], _ :: _ => true
  | x :: a', y :: b' =>
      if (ord x <? ord y)%N then true
      else if (ord y <? ord x)%N then false
      else str_ltb a' b'
  end.

Definition str_leb (a b : str) : bool := negb (str_ltb b a).

Definition str_le (a b : str) : Prop := str_leb a b = true.

Definition str_eq_dec : forall a b : str, {a = b} + {a <> b} :=
  list_eq_dec ascii_dec.

(** ** Text files: [for line in file] and [file.writelines] *)

(** The lines of a text, each with its terminating line feed; the last line
    has none when the text does not end in one. *)
Fixpoint readlines (data : str) : list str :=
  match data with
  | [] => []
  | c :: rest =>
      if ascii_dec c LF then [c] :: readlines rest
      else match readlines rest with
           | [] => [[c]]
           | line :: lines => (c :: line) :: lines
           end
  end.

Definition writelines (lines : list str) : str := concat lines.

(** ** [sorted]: a stable sort by [<] *)

(** Python's [sorted] is stable: an element stays before the later elements
    equal to it.  [insort x l] puts [x] in front of the first element that is
    not strictly smaller. *)
Fixpoint insort (x : str) (l : list str) : list str :=
  match l with
  | [] => [x]
  | y :: l' => if str_ltb y x then y :: insort x l' else x :: l
  end.

Definition sorted (l : list str) : list str := fold_right insort [] l.

(** ** [line.partition('\t')[0]] *)

Fixpoint partition_tab_head (line : str) : str :=
  match line with
  | [] => []
  | c :: rest => if ascii_dec c TAB then [] else c :: partition_tab_head rest
  end.

(** ** [hashlib.md5] (RFC 1321), on 32-bit words held in [Z] *)

Module MD5.
Local Open Scope Z_scope.

Definition add32 (x y : Z) : Z := (x + y) mod 2 ^ 32.
Definition not32 (x : Z) : Z := Z.lxor x 0xffffffff.
Definition rotl32 (x n : Z) : Z :=
  Z.lor (Z.shiftl x n mod 2 ^ 32) (Z.shiftr x (32 - n)).

Definition S : list Z :=
  [ 7; 12; 17; 22;  7; 12; 17; 22;  7; 12; 17; 22;  7; 12; 17; 22;
    5;  9; 14; 20;  5;  9; 14; 20;  5;  9; 14; 20;  5;  9; 14; 20;
    4; 11; 16; 23;  4; 11; 16; 23;  4; 11; 16; 23;  4; 11; 16; 23;
    6; 10; 15; 21;  6; 10; 15; 21;  6; 10; 15; 21;  6; 10; 15; 21 ].

Definition K : list Z :=
  [ 0xd76aa478; 0xe8c7b756; 0x242070db; 0xc1bdceee;
    0xf57c0faf; 0x4787c62a; 0xa8304613; 0xfd469501;
    0x698098d8; 0x8b44f7af; 0xffff5bb1; 0x895cd7be;
    0x6b901122; 0xfd987193; 0xa679438e; 0x49b40821;
    0xf61e2562; 0xc040b340; 0x265e5a51; 0xe9b6c7aa;
    0xd62f105d; 0x02441453; 0xd8a1e681; 0xe7d3fbc8;
    0x21e1cde6; 0xc33707d6; 0xf4d50d87; 0x455a14ed;
    0xa9e3e905; 0xfcefa3f8; 0x676f02d9; 0x8d2a4c8a;
    0xfffa3942; 0x8771f681; 0x6d9d6122; 0xfde5380c;
    0xa4beea44; 0x4bdecfa9; 0xf6bb4b60; 0xbebfbc70;
    0x289b7ec6; 0xeaa127fa; 0xd4ef3085; 0x04881d05;
    0xd9d4d039; 0xe6db99e5; 0x1fa27cf8; 0xc4ac5665;
    0xf4292244; 0x432aff97; 0xab9423a7; 0xfc93a039;
    0x655b59c3; 0x8f0ccc92; 0xffeff47d; 0x85845dd1;
    0x6fa87e4f; 0xfe2ce6e0; 0xa3014314; 0x4e0811a1;
    0xf7537e82; 0xbd3af235; 0x2ad7d2bb; 0xeb86d391 ].

(** Little-endian bytes of a value, [n] of them. *)
Fixpoint le_bytes (n : nat) (x : Z) : list Z :=
  match n with
  | O => []
  | Datatypes.S n' => x mod 256 :: le_bytes n' (x / 256)
  end.

Fixpoint le_value (bytes : list Z) : Z :=
  match bytes with
  | [] => 0
  | b :: rest => b + 256 * le_value rest
  end.

(** The message, a one bit, zeros up to 56 modulo 64, and the length in bits
    as a 64-bit little-endian value. *)
Definition pad (msg : list Z) : list Z :=
  let len := Z.of_nat (length msg) in
  msg ++ [0x80] ++ repeat 0 (Z.to_nat ((55 - len) mod 64))
      ++ le_bytes 8 ((8 * len) mod 2 ^ 64).

(** The sixteen words of a 64-byte block. *)
Fixpoint words (n : nat) (block : list Z) : list Z :=
  match n with
  | O => []
  | Datatypes.S n' => le_value (firstn 4 block) :: words n' (skipn 4 block)
  end.

Definition state : Type := Z * Z * Z * Z.

Definition round (M : list Z) (st : state) (i : nat) : state :=
  let '(A, B, C, D) := st in
  let iz := Z.of_nat i in
  let '(F, g) :=
    if iz <? 16 then (Z.lor (Z.land B C) (Z.land (not32 B) D), iz)
    else if iz <? 32 then
      (Z.lor (Z.land D B) (Z.land (not32 D) C), (5 * iz + 1) mod 16)
    else if iz <? 48 then (Z.lxor B (Z.lxor C D), (3 * iz + 5) mod 16)
    else (Z.lxor C (Z.lor B (not32 D)), (7 * iz) mod 16) in
  let F := (F + A + nth i K 0 + nth (Z.to_nat g) M 0) mod 2 ^ 32 in
  (D, add32 B (rotl32 F (nth i S 0)), B, C).

Definition process_block (st : state) (block : list Z) : state :=
  let M := words 16 block in
  let '(a0, b0, c0, d0) := st in
  let '(A, B, C, D) := fold_left (round M) (seq 0 64) st in
  (add32 a0 A, add32 b0 B, add32 c0 C, add32 d0 D).

(** The blocks of a padded message; [n] bounds their number. *)
Fixpoint blocks (n : nat) (data : list Z) : list (list Z) :=
  match n, data with
  | O, _ | _, [] => []
  | Datatypes.S n', _ => firstn 64 data :: blocks n' (skipn 64 data)
  end.

Definition init : state := (0x67452301, 0xefcdab89, 0x98badcfe, 0x10325476).

(** The sixteen bytes of the digest. *)
Definition digest (msg : list Z) : list Z :=
  let data := pad msg in
  let '(a, b, c, d) :=
    fold_left process_block (blocks (length data) data) init in
  le_bytes 4 a ++ le_bytes 4 b ++ le_bytes 4 c ++ le_bytes 4 d.

Definition hexdigit (x : Z) : ascii :=
  nth (Z.to_nat x) (py "0123456789abcdef") "0"%char.

Definition hexdigest (msg : list Z) : str :=
  flat_map (fun b => [hexdigit (b / 16); hexdigit (b mod 16)]) (digest msg).

End MD5.

(** [int(s, base=16)] on a string of lower-case hexadecimal digits. *)
Definition hexval (c : ascii) : Z :=
  let n := Z.of_N (ord c) in
  if (n <? 58)%Z then (n - 48)%Z else (n - 87)%Z.

Definition int16 (s : str) : Z :=
  fold_left (fun acc c => (16 * acc + hexval c)%Z) s 0%Z.

Definition encode_utf8 (s : str) : list Z := map (fun c => Z.of_N (ord c)) s.

Definition keyhash (key : str) : Z :=
  let hexdigest := MD5.hexdigest (encode_utf8 key) in
  int16 hexdigest.

(** ** Text mode: universal newlines *)

Definition CR : ascii := "013"%char.

(** Reading in text mode turns CR LF and a lone CR into LF. *)
Fixpoint universal_newlines (data : str) : str :=
  match data with
  | [] => []
  | c :: rest =>
      if ascii_dec c CR then
        match rest with
        | d :: _ => if ascii_dec d LF then universal_newlines rest
                    else LF :: universal_newlines rest
        | [] => [LF]
        end
      else c :: universal_newlines rest
  end.

(** [for line in file]: the lines of a file opened for reading. *)
Definition read_text (data : str) : list str :=
  readlines (universal_newlines data).

(** ** [heapq.merge] *)

(** One step of the merge: the least pending line over all streams, the
    earliest stream winning a tie (the heap orders entries by value, then by
    the position of the iterable), and the streams with that line consumed. *)
Fixpoint pop_least (streams : list (list str))
  : option (str * list (list str)) :=
  match streams with
  | [] => None
  | s :: rest =>
      match s, pop_least rest with
      | [], None => None
      | [], Some (y, rest') => Some (y, [] :: rest')
      | x :: s', None => Some (x, s' :: rest)
      | x :: s', Some (y, rest') =>
          if str_ltb y x then Some (y, s :: rest') else Some (x, s' :: rest)
      end
  end.

Fixpoint merge_steps (n : nat) (streams : list (list str)) : list str :=
  match n with
  | O => []
  | S n' =>
      match pop_least streams with
      | None => []
      | Some (x, streams') => x :: merge_steps n' streams'
      end
  end.

(** [heapq.merge] of the streams; one step per pending line. *)
Definition merge (streams : list (list str)) : list str :=
  merge_steps (length (concat streams)) streams.

(** ** Errors *)

Inductive exn : Type :=
| MadoopError (msg : str)
| AssertionError (msg : str)
| FileNotFoundError
| FileExistsError
| NotADirectoryError
| IsADirectoryError
| UnicodeDecodeError
| ZeroDivisionError
| IndexError.

Inductive result (A : Type) : Type :=
| OK (a : A)
| Raise (e : exn).
Arguments OK {A} a.
Arguments Raise {A} e.

Definition bind {A B : Type} (r : result A) (k : A -> result B) : result B :=
  match r with
  | OK a => k a
  | Raise e => Raise e
  end.

Notation "x <- r ;; k" := (bind r (fun x => k))
  (at level 61, r at next level, right associativity).
Notation "' p <- r ;; k" := (bind r (fun p => k))
  (at level 61, p pattern, r at next level, right associativity).

(** A loop whose body may raise. *)
Fixpoint for_each {A S : Type} (body : S -> A -> result S)
  (items : list A) (s : S) : result S :=
  match items with
  | [] => OK s
  | x :: rest => s' <- body s x ;; for_each body rest s'
  end.

(** ** Directories *)

Definition entries (A : Type) : Type := list (string * A).

Fixpoint entry_find {A : Type} (name : string) (d : entries A) : option A :=
  match d with
  | [] => None
  | (n, a) :: rest => if string_dec n name then Some a else entry_find name rest
  end.

(** Replace the entry of that name, or add one at the end. *)
Fixpoint entry_set {A : Type} (name : string) (a : A) (d : entries A)
  : entries A :=
  match d with
  | [] => [(name, a)]
  | (n, b) :: rest =>
      if string_dec n name then (n, a) :: rest
      else (n, b) :: entry_set name a rest
  end.

(** A directory of the workspace: regular files only. *)
Definition dir : Type := entries str.

(** ** [part_filename] *)

Fixpoint zeros (n : nat) : string :=
  match n with
  | O => EmptyString
  | S n' => String "0" (zeros n')
  end.

(** [f"{num:05d}"] *)
Definition format_05d (num : nat) : string :=
  let digits := NilEmpty.string_of_uint (Nat.to_uint num) in
  String.append (zeros (5 - String.length digits)) digits.

Definition part_filename (num : nat) : string :=
  String.append "part-" (format_05d num).

(** ** The user-visible file system *)

#[warnings="-register-all"]
Inductive node : Type :=
| File (data : str)
| Dir (children : entries node).

Definition path : Type := list string.

(** [str(path)] *)
Definition path_str (p : path) : str :=
  concat (map (fun c => "/"%char :: py c) p).

Fixpoint lookup (p : path) (n : node) : option node :=
  match p with
  | [] => Some n
  | c :: p' =>
      match n with
      | Dir children =>
          match entry_find c children with
          | Some m => lookup p' m
          | None => None
          end
      | File _ => None
      end
  end.

(** Put a node at a path whose parent is an existing directory. *)
Fixpoint put (p : path) (new : node) (n : node) : option node :=
  match p with
  | [] => Some new
  | c :: p' =>
      match n with
      | Dir children =>
          match entry_find c children with
          | Some m =>
              match put p' new m with
              | Some m' => Some (Dir (entry_set c m' children))
              | None => None
              end
          | None =>
              match p' with
              | [] => Some (Dir (entry_set c new children))
              | _ :: _ => None
              end
          end
      | File _ => None
      end
  end.

Definition path_exists (p : path) (fs : node) : bool :=
  match lookup p fs with Some _ => true | None => false end.

Definition is_dir (p : path) (fs : node) : bool :=
  match lookup p fs with Some (Dir _) => true | _ => false end.

(** The error of the operating system for a path that cannot be walked:
    a component that is a regular file is not a directory, a component that
    is not there is not found. *)
Fixpoint missing (p : path) (n : node) : exn :=
  match p with
  | [] => FileNotFoundError
  | c :: p' =>
      match n with
      | Dir children =>
          match entry_find c children with
          | Some m => missing p' m
          | None => FileNotFoundError
          end
      | File _ => NotADirectoryError
      end
  end.

(** [path.mkdir()] *)
Definition mkdir (p : path) (fs : node) : result node :=
  if path_exists p fs then Raise FileExistsError
  else match put p (Dir []) fs with
       | Some fs' => OK fs'
       | None => Raise (missing p fs)
       end.

(** [path.open()] for reading: the bytes of the file, or the error of the
    operating system. *)
Definition read_file (p : path) (fs : node) : result str :=
  match lookup p fs with
  | Some (File data) => OK data
  | Some (Dir _) => Raise IsADirectoryError
  | None => Raise (missing p fs)
  end.

(** [path.open('w')], writing [data], and closing. *)
Definition write_file (p : path) (data : str) (fs : node) : result node :=
  match lookup p fs with
  | Some (Dir _) => Raise IsADirectoryError
  | _ => match put p (File data) fs with
         | Some fs' => OK fs'
         | None => Raise (missing p fs)
         end
  end.

(** [shutil.copy(src, dst)] of a file holding [data] and named [name]: into
    the directory [dst] under the same name, or onto the file [dst]. *)
Definition shutil_copy (name : string) (data : str) (dst : path) (fs : node)
  : result node :=
  if is_dir dst fs then write_file (dst ++ [name]) data fs
  else write_file dst data fs.

(** ** [check_shebang] *)

(** The characters for which [str.isspace] holds, as UTF-8. *)
Definition whitespace : list str :=
  map (map ascii_of_nat)
    [ [9]; [10]; [11]; [12]; [13]; [28]; [29]; [30]; [31]; [32];
      [194; 133]; [194; 160]; [225; 154; 128];
      [226; 128; 128]; [226; 128; 129]; [226; 128; 130]; [226; 128; 131];
      [226; 128; 132]; [226; 128; 133]; [226; 128; 134]; [226; 128; 135];
      [226; 128; 136]; [226; 128; 137]; [226; 128; 138];
      [226; 128; 168]; [226; 128; 169]; [226; 128; 175];
      [226; 129; 159]; [227; 128; 128] ].

Fixpoint starts_with (prefix s : str) : bool :=
  match prefix, s with
  | [], _ => true
  | _ :: _, [] => false
  | x :: prefix', y :: s' =>
      if ascii_dec x y then starts_with prefix' s' else false
  end.

(** The length of the whitespace character at the head of a reversed
    string, if there is one. *)
Definition leading_space_rev (r : str) : option nat :=
  match find (fun w => starts_with (rev w) r) whitespace with
  | Some w => Some (length w)
  | None => None
  end.

Fixpoint lstrip_rev (n : nat) (r : str) : str :=
  match n with
  | O => r
  | S n' =>
      match leading_space_rev r with
      | Some k => lstrip_rev n' (skipn k r)
      | None => r
      end
  end.

(** [s.rstrip()] *)
Definition rstrip (s : str) : str := rev (lstrip_rev (length s) (rev s)).

(** *** Decoding the bytes of the executable

    A file opened with [encoding="utf-8"] is read and decoded by chunks of
    8192 bytes.  The decoder refuses a byte sequence that is not UTF-8 as
    soon as its chunk is decoded; a sequence cut by the end of the chunk is
    kept for the next one. *)

Definition byte (c : ascii) : nat := nat_of_ascii c.

Definition continuation (c : ascii) : bool :=
  (128 <=? byte c) && (byte c <=? 191).

(** The second byte after the lead [b0] of a three-byte sequence: after E0,
    from A0 on. *)
Definition second_of_3 (b0 b1 : ascii) : bool :=
  continuation b1 && negb ((byte b0 =? 224) && (byte b1 <? 160)).

(** The two first bytes of an encoded surrogate; the decoder refuses them
    when the third byte is there. *)
Definition surrogate (b0 b1 : ascii) : bool :=
  (byte b0 =? 237) && (160 <=? byte b1).

(** The second byte after the lead [b0] of a four-byte sequence: after F0,
    from 90 on; after F4, below 90. *)
Definition second_of_4 (b0 b1 : ascii) : bool :=
  continuation b1 && negb ((byte b0 =? 240) && (byte b1 <? 144))
  && negb ((byte b0 =? 244) && (144 <=? byte b1)).

Definition decoded (sequence : str) (rest : option (str * str))
  : option (str * str) :=
  match rest with
  | Some (text, pending) => Some (sequence ++ text, pending)
  | None => None
  end.

(** [decoder.decode(input)] of the incremental UTF-8 decoder: the text, in
    this representation the bytes of the complete sequences, and the bytes
    of a sequence cut by the end of the input; [None] for
    [UnicodeDecodeError]. *)
Fixpoint utf8_decode (input : str) : option (str * str) :=
  match input with
  | [] => Some ([], [])
  | b0 :: r0 =>
      if byte b0 <? 128 then decoded [b0] (utf8_decode r0)
      else if (194 <=? byte b0) && (byte b0 <=? 223) then
        match r0 with
        | [] => Some ([], [b0])
        | b1 :: r1 =>
            if continuation b1 then decoded [b0; b1] (utf8_decode r1)
            else None
        end
      else if (224 <=? byte b0) && (byte b0 <=? 239) then
        match r0 with
        | [] => Some ([], [b0])
        | b1 :: r1 =>
            if second_of_3 b0 b1 then
              match r1 with
              | [] => Some ([], [b0; b1])
              | b2 :: r2 =>
                  if continuation b2 && negb (surrogate b0 b1)
                  then decoded [b0; b1; b2] (utf8_decode r2)
                  else None
              end
            else None
        end
      else if (240 <=? byte b0) && (byte b0 <=? 244) then
        match r0 with
        | [] => Some ([], [b0])
        | b1 :: r1 =>
            if second_of_4 b0 b1 then
              match r1 with
              | [] => Some ([], [b0; b1])
              | b2 :: r2 =>
                  if continuation b2 then
                    match r2 with
                    | [] => Some ([], [b0; b1; b2])
                    | b3 :: r3 =>
                        if continuation b3
                        then decoded [b0; b1; b2; b3] (utf8_decode r3)
                        else None
                    end
                  else None
              end
            else None
        end
      else None
  end.

Definition CHUNK_SIZE : nat := 2 ^ 13.

Definition is_empty (s : str) : bool :=
  match s with [] => true | _ :: _ => false end.

Definition ends_with_cr (s : str) : bool :=
  if ascii_dec (last s LF) CR then true else false.

Definition has_line_feed (s : str) : bool :=
  existsb (fun c => if ascii_dec c LF then true else false) s.

(** The loop of [readline]: read a chunk, decode it, translate its line
    ends, and stop at the first line feed or at the end of the file.  The
    state of the decoders is the cut sequence [pending] and whether a
    carriage return that ended the last chunk is held back ([pendingcr]);
    [remaining] is the text read so far, [rest] the bytes not yet read.
    The empty chunk is the end of the file, where a cut sequence is an
    error. *)
Fixpoint readline_chunks (fuel : nat) (pending : str) (pendingcr : bool)
  (remaining rest : str) : result str :=
  match fuel with
  | O => OK remaining
  | S fuel' =>
      let input_chunk := firstn CHUNK_SIZE rest in
      let final := is_empty input_chunk in
      match utf8_decode (pending ++ input_chunk) with
      | None => Raise UnicodeDecodeError
      | Some (output, pending) =>
          if final && negb (is_empty pending) then Raise UnicodeDecodeError
          else
            let flush := pendingcr && (negb (is_empty output) || final) in
            let output := if flush then CR :: output else output in
            let pendingcr := pendingcr && negb flush in
            let hold := ends_with_cr output && negb final in
            let output := if hold then removelast output else output in
            let pendingcr := pendingcr || hold in
            let line := remaining ++ universal_newlines output in
            if has_line_feed line then OK (hd [] (readlines line))
            else if final then OK line
            else readline_chunks fuel' pending pendingcr line
                   (skipn CHUNK_SIZE rest)
      end
  end.

(** [infile.readline()] on a file just opened with [encoding="utf-8"] that
    holds the bytes [data]; one turn of the loop per chunk, and one for the
    end of the file. *)
Definition readline (data : str) : result str :=
  readline_chunks (S (length data)) [] false [] data.

Definition SHEBANG : str := py "#!/usr/bin/env python3".

Definition check_shebang (exe : path) (fs : node) : result unit :=
  data <- read_file exe fs ;;
  line <- readline data ;;
  let line := rstrip line in
  if str_eq_dec line SHEBANG then OK tt
  else Raise (MadoopError
    (path_str exe ++ py ": invalid shebang on first line '" ++ line
      ++ py "'.  Expected '#!/usr/bin/env python3'")).

(** ** [prepare_input_files] *)

Definition MAX_INPUT_SPLIT_SIZE : Z := 2 ^ 20.

Definition MAX_NUM_REDUCE : nat := 4.

(** The double nearest to a natural number, as an integer: 53 significant
    bits, a tie going to the even significand. *)
Definition nearest_double (n : Z) : Z :=
  let e := (Z.log2 n - 52)%Z in
  if (e <=? 0)%Z then n
  else
    let m := (n / 2 ^ e)%Z in
    let r := (n mod 2 ^ e)%Z in
    let half := (2 ^ (e - 1))%Z in
    if (half <? r)%Z || ((half =? r)%Z && Z.odd m)
    then ((m + 1) * 2 ^ e)%Z
    else (m * 2 ^ e)%Z.

(** [math.ceil(st_size / MAX_INPUT_SPLIT_SIZE)].  The quotient of two
    integers is the double nearest to the exact quotient; the divisor being
    a power of two, that is the double nearest to [st_size], scaled.  The
    ceiling of a double is exact. *)
Definition num_split_of (st_size : Z) : nat :=
  Z.to_nat (- ((- nearest_double st_size) / MAX_INPUT_SPLIT_SIZE)).

(** Open files: the name under which each was opened for writing and what
    has been written to it. *)
Definition handles : Type := list (string * str).

Definition open_w (names : list string) : handles :=
  map (fun name => (name, [])) names.

Fixpoint write_nth (idx : nat) (line : str) (files : handles)
  : option handles :=
  match files, idx with
  | [], _ => None
  | (name, data) :: rest, O => Some ((name, data ++ line) :: rest)
  | f :: rest, S idx' =>
      match write_nth idx' line rest with
      | Some rest' => Some (f :: rest')
      | None => None
      end
  end.

(** Leaving the [ExitStack]: each opened file is in the directory with what
    was written to it.  Opening for writing truncates an existing file. *)
Definition close_all (files : handles) (d : dir) : dir :=
  fold_left (fun d f => entry_set (fst f) (snd f) d) files d.

Fixpoint enumerate_from {A : Type} (i : nat) (l : list A) : list (nat * A) :=
  match l with
  | [] => []
  | x :: rest => (i, x) :: enumerate_from (S i) rest
  end.

Definition enumerate {A : Type} (l : list A) : list (nat * A) :=
  enumerate_from 0 l.

Definition is_file (e : string * node) : bool :=
  match snd e with File _ => true | Dir _ => false end.

Definition file_data (n : node) : str :=
  match n with File data => data | Dir _ => [] end.

(** [out_files[i % num_split].write(line)] *)
Definition write_round_robin (num_split : nat) (out_files : handles)
  (il : nat * str) : result handles :=
  let '(i, line) := il in
  match num_split with
  | O => Raise ZeroDivisionError
  | S _ =>
      match write_nth (i mod num_split) line out_files with
      | Some out_files' => OK out_files'
      | None => Raise IndexError
      end
  end.

(** The body of the loop over the input files: the state is the output
    directory and [part_num]. *)
Definition split_file (st : dir * nat) (data : str) : result (dir * nat) :=
  let '(output_dir, part_num) := st in
  let num_split := num_split_of (Z.of_nat (length data)) in
  let out_filenames :=
    map (fun i => part_filename (part_num + i)) (seq 0 num_split) in
  let part_num := part_num + num_split in
  out_files <-
    for_each (write_round_robin num_split)
      (enumerate (read_text data)) (open_w out_filenames) ;;
  OK (close_all out_files output_dir, part_num).

Definition prepare_input_files (fs : node) (input_dir : path)
  (output_dir : dir) : result (dir * nat) :=
  match lookup input_dir fs with
  | Some (Dir children) =>
      let filenames := filter is_file children in
      for_each split_file (map (fun e => file_data (snd e)) filenames)
        (output_dir, 0)
  | _ => Raise (AssertionError
           (py "Can't find input_dir '" ++ path_str input_dir ++ py "'"))
  end.

(** ** [sort_file], [group_stage] *)

Definition sort_file (data : str) : str :=
  let sorted_lines := sorted (read_text data) in
  writelines sorted_lines.

(** The body of the loop over the merged lines. *)
Definition allocate (outfiles : handles) (line : str) : result handles :=
  let key := partition_tab_head line in
  let reducer_idx := Z.to_nat (keyhash key mod Z.of_nat MAX_NUM_REDUCE) in
  match write_nth reducer_idx line outfiles with
  | Some outfiles' => OK outfiles'
  | None => Raise IndexError
  end.

(** Returns the input directory as the sort leaves it, the output directory
    and the number of reducers. *)
Definition group_stage (input_dir output_dir : dir)
  : result (dir * dir * nat) :=
  let input_dir := map (fun f => (fst f, sort_file (snd f))) input_dir in
  let infiles := map (fun f => read_text (snd f)) input_dir in
  let outfiles := open_w (map part_filename (seq 0 MAX_NUM_REDUCE)) in
  outfiles <- for_each allocate (merge infiles) outfiles ;;
  OK (input_dir, close_all outfiles output_dir, length outfiles).

(** ** [map_stage], [reduce_stage], [mapreduce] *)

(** A started subprocess: the executable and its standard input. *)
Definition spawn : Type := path * str.

Section Pipeline.

(** [subprocess.run(str(exe), stdin=infile, stdout=outfile)]: what the
    executable writes to its standard output, and its exit status. *)
Variable subprocess_run : path -> str -> str * Z.

(** The directory [tempfile.TemporaryDirectory] creates for the run. *)
Variable tmpdir : path.

(** The operating system enumerates a directory in an order of its own:
    here by ascending [dir_order] of the names, any function giving an
    order. *)
Variable dir_order : string -> nat.

Fixpoint enumerate_entry (f : string * str) (d : dir) : dir :=
  match d with
  | [] => [f]
  | g :: d' =>
      if dir_order (fst g) <=? dir_order (fst f)
      then g :: enumerate_entry f d'
      else f :: d
  end.

(** [input_dir.iterdir()] on a directory of the workspace. *)
Definition iterdir (d : dir) : dir := fold_right enumerate_entry [] d.

Definition command_failed (exe input_path output_path : path) : exn :=
  MadoopError (py "Command returned non-zero: " ++ path_str exe ++ py " < "
    ++ path_str input_path ++ py " > " ++ path_str output_path).

(** The loop of a stage over its tasks.  [input_path] and [output_path] are
    the paths of the two directories of the stage, [input_dir] and
    [output_dir] their contents.  The state is the output directory of the
    stage and the subprocesses started so far. *)
Fixpoint run_tasks (exe input_path output_path : path) (input_dir : dir)
  (tasks : list nat) (output_dir : dir) (started : list spawn)
  : dir * list spawn * result unit :=
  match tasks with
  | [] => (output_dir, started, OK tt)
  | i :: rest =>
      match entry_find (part_filename i) input_dir with
      | None => (output_dir, started, Raise FileNotFoundError)
      | Some stdin =>
          let '(stdout, returncode) := subprocess_run exe stdin in
          let output_dir := entry_set (part_filename i) stdout output_dir in
          let started := started ++ [(exe, stdin)] in
          if (returncode =? 0)%Z
          then run_tasks exe input_path output_path input_dir rest
                 output_dir started
          else (output_dir, started,
                Raise (command_failed exe
                         (input_path ++ [part_filename i])
                         (output_path ++ [part_filename i])))
      end
  end.

Definition map_stage (exe input_path output_path : path)
  (input_dir output_dir : dir) (num_map : nat) (started : list spawn) :=
  run_tasks exe input_path output_path input_dir (seq 0 num_map)
    output_dir started.

Definition reduce_stage (exe input_path output_path : path)
  (input_dir output_dir : dir) (num_reduce : nat) (started : list spawn) :=
  run_tasks exe input_path output_path input_dir (seq 0 num_reduce)
    output_dir started.

(** The result of a run: the file system it leaves, the subprocesses it
    started, and whether it returned or raised.  The temporary directory is
    created fresh and removed on every exit, so the contents of its four
    subdirectories are local values.  The group stage gets the mapper
    outputs as the operating system enumerates them.  The order in which
    the last loop copies the reducer outputs does not show in the content
    of the output directory; they are copied by ordinal. *)
Definition mapreduce (fs : node)
  (input_dir output_dir map_exe reduce_exe : path)
  : node * list spawn * result unit :=
  if path_exists output_dir fs then
    (fs, [], Raise (MadoopError
      (py "Output directory already exists: " ++ path_str output_dir)))
  else
  match mkdir output_dir fs with
  | Raise e => (fs, [], Raise e)
  | OK fs =>
  match check_shebang map_exe fs with
  | Raise e => (fs, [], Raise e)
  | OK _ =>
  match check_shebang reduce_exe fs with
  | Raise e => (fs, [], Raise e)
  | OK _ =>
  let map_input_path := tmpdir ++ ["input"%string] in
  let map_output_path := tmpdir ++ ["mapper-output"%string] in
  let group_output_path := tmpdir ++ ["grouper-output"%string] in
  let reduce_output_path := tmpdir ++ ["reducer-output"%string] in
  let map_input_dir : dir := [] in
  let map_output_dir : dir := [] in
  let group_output_dir : dir := [] in
  let reduce_output_dir : dir := [] in
  match prepare_input_files fs input_dir map_input_dir with
  | Raise e => (fs, [], Raise e)
  | OK (map_input_dir, num_map) =>
  match map_stage map_exe map_input_path map_output_path
          map_input_dir map_output_dir num_map [] with
  | (_, started, Raise e) => (fs, started, Raise e)
  | (map_output_dir, started, OK _) =>
  match group_stage (iterdir map_output_dir) group_output_dir with
  | Raise e => (fs, started, Raise e)
  | OK (_, group_output_dir, num_reduce) =>
  match reduce_stage reduce_exe group_output_path reduce_output_path
          group_output_dir reduce_output_dir num_reduce started with
  | (_, started, Raise e) => (fs, started, Raise e)
  | (reduce_output_dir, started, OK _) =>
  match for_each (fun fs f => shutil_copy (fst f) (snd f) output_dir fs)
          reduce_output_dir fs with
  | Raise e => (fs, started, Raise e)
  | OK fs => (fs, started, OK tt)
  end end end end end end end end.

End Pipeline.

(** ** [check_num_keys], [main] *)

(** [check_num_keys(filename)]: counts the lines of the file. *)
Definition check_num_keys (filename : path) (fs : node) : result unit :=
  data <- read_file filename fs ;;
  let key_instances :=
    fold_left (fun key_instances _ => key_instances + 1) (read_text data) 0 in
  if key_instances =? 1 then Raise (MadoopError (py "Single key detected"))
  else OK tt.

(** How [main] ends: it returns, exits through [sys.exit] with a message, or
    lets an exception escape. *)
Inductive ending : Type :=
| Returns
| SysExit (message : str)
| Escapes (e : exn).

(** [main], from the parsed arguments on: [mapreduce] under the handler of
    the program's error. *)
Definition main (subprocess_run : path -> str -> str * Z) (tmpdir : path)
  (dir_order : string -> nat) (fs : node)
  (input output mapper reducer : path) : node * list spawn * ending :=
  match mapreduce subprocess_run tmpdir dir_order fs
          input output mapper reducer with
  | (fs', started, OK _) => (fs', started, Returns)
  | (fs', started, Raise (MadoopError err)) =>
      (fs', started, SysExit (py "Error: " ++ err))
  | (fs', started, Raise e) => (fs', started, Escapes e)
  end.

(** * Vocabulary of the properties, and sample data *)

(** A complete line: no line feed but the one that ends it. *)
Definition is_line (l : str) : Prop :=
  exists body, l = body ++ [LF] /\ ~ In LF body.

(** A line as text mode yields it when the text ends in a line feed. *)
Definition text_line (l : str) : Prop := is_line l /\ ~ In CR l.

(** The text of the file is empty or its last line ends in a line feed. *)
Definition newline_terminated (data : str) : Prop :=
  last (universal_newlines data) LF = LF.

(** The reducer a line goes to. *)
Definition reducer_idx (line : str) : nat :=
  Z.to_nat (keyhash (partition_tab_head line) mod Z.of_nat MAX_NUM_REDUCE).

(** The lines of a stream that go to reducer [i], in the order of the
    stream. *)
Definition bucket (i : nat) (lines : list str) : list str :=
  filter (fun l => reducer_idx l =? i) lines.

(** What the group stage computes: the lines it merges, and its result. *)
Definition merged_lines (input_dir : dir) : list str :=
  merge (map (fun f => read_text (sort_file (snd f))) input_dir).

(** The reducer-input file of ordinal [i] in the output directory of the
    group stage. *)
Definition reducer_input (output_dir : dir) (i : nat) : option str :=
  entry_find (part_filename i) output_dir.

(** The files the group stage writes from the lines it merges. *)
Definition reducer_files (lines : list str) : handles :=
  map (fun i => (part_filename i, concat (bucket i lines)))
    (seq 0 MAX_NUM_REDUCE).

(** Lines that share a key are next to each other. *)
Definition keys_contiguous (lines : list str) : Prop :=
  forall a x b y c,
    lines = a ++ x :: b ++ y :: c ->
    partition_tab_head x = partition_tab_head y ->
    Forall (fun z => partition_tab_head z = partition_tab_head x) b.

(** The records of the mapper-output set: the lines of its files. *)
Definition mapper_lines (input_dir : dir) : list str :=
  concat (map (fun f => read_text (snd f)) input_dir).

(** Every mapper-output file is empty or ends in a line feed. *)
Definition all_terminated (input_dir : dir) : Prop :=
  Forall (fun f => newline_terminated (snd f)) input_dir.

(** The number of records in the reducer-input files [0 .. n-1]. *)
Definition reducer_records (output_dir : dir) (n : nat) : nat :=
  list_sum (map (fun i =>
    match reducer_input output_dir i with
    | Some data => length (read_text data)
    | None => 0
    end) (seq 0 n)).

Fixpoint is_sorted (lines : list str) : bool :=
  match lines with
  | [] => true
  | x :: rest =>
      match rest with
      | [] => true
      | y :: _ => str_leb x y && is_sorted rest
      end
  end.

(** A record [key TAB value LF]. *)
Definition record (key value : string) : str :=
  py key ++ [TAB] ++ py value ++ [LF].

(** The same record without its line feed. *)
Definition open_record (key value : string) : str :=
  py key ++ [TAB] ++ py value.

(** Two mapper-output files of a word count. *)
Definition wc_mapper_output : dir :=
  [ ("part-00000"%string, record "b" "1" ++ record "a" "1");
    ("part-00001"%string, record "a" "1" ++ record "c" "1") ].

(** A mapper-output file whose last line has no line feed. *)
Definition open_ended : str :=
  record "k" "b" ++ record "k" "ba" ++ open_record "k" "b".

(** A newline-terminated file that starts with the line the sort of
    [open_ended] glues together. *)
Definition glued_twin : str :=
  py "k" ++ [TAB] ++ py "bk" ++ [TAB] ++ py "b" ++ [LF] ++ record "k" "z".

(** The number of records in the mapper-output files. *)
Definition mapper_records (input_dir : dir) : nat :=
  list_sum (map (fun f => length (read_text (snd f))) input_dir).

(** Two mapper-output files: the record with key [b] of the first is not
    newline-terminated where it stands. *)
Definition split_key_output : dir :=
  [ ("part-00000"%string, record "b" "2" ++ open_record "a" "1");
    ("part-00001"%string, record "b" "3") ].

Definition parse_part (name : string) : option nat :=
  match name with
  | String _ (String _ (String _ (String _ (String _ digits)))) =>
      option_map Nat.of_uint (NilEmpty.uint_of_string digits)
  | _ => None
  end.

(** The lines of a file whose index is [j] modulo [N], in file order. *)
Definition round_robin (N j : nat) (lines : list str) : list str :=
  map snd (filter (fun il => fst il mod N =? j) (enumerate lines)).

(** The lines at the positions [i] of a file, counted from 0, with [i]
    equal to [j] modulo [N], by increasing position. *)
Definition every_nth (N j : nat) (lines : list str) : list str :=
  map (fun i => nth i lines [])
    (filter (fun i => i mod N =? j) (seq 0 (length lines))).

(** The number of partitions of a file. *)
Definition splits (data : str) : nat := num_split_of (Z.of_nat (length data)).

(** The number of partitions of a list of files. *)
Definition total_splits (files : list str) : nat :=
  list_sum (map splits files).

(** The partitions of one input file, opened from ordinal [p]. *)
Definition parts (p : nat) (data : str) : handles :=
  map (fun j => (part_filename (p + j),
                 concat (round_robin (splits data) j (read_text data))))
    (seq 0 (splits data)).

Fixpoint split_all (files : list str) (d : dir) (p : nat) : dir * nat :=
  match files with
  | [] => (d, p)
  | data :: rest => split_all rest (close_all (parts p data) d) (p + splits
      data)
  end.

(** The data of the regular files of a directory, in enumeration order. *)
Definition regular_files (children : entries node) : list str :=
  map (fun e => file_data (snd e)) (filter is_file children).

(** An input directory with an empty file. *)
Definition fs_empty_file : node :=
  Dir [("input"%string, Dir [("empty.txt"%string, File [])])].

(** An input directory with two files and a subdirectory. *)
Definition fs_two_files : node :=
  Dir [("input"%string,
        Dir [("a.txt"%string, File (py "x y" ++ [LF] ++ py "z" ++ [LF]));
             ("sub"%string, Dir []);
             ("b.txt"%string, File (py "u" ++ [LF] ++ py "v"))])].

(** A file of 2^17 + 1 lines of eight bytes, one line more than the split
    size holds, alone in its directory. *)
Definition big_file : str :=
  concat (repeat (py "aaaaaaa" ++ [LF]) (2 ^ 17 + 1)).

Definition fs_big_file : node :=
  Dir [("input"%string, Dir [("big.txt"%string, File big_file)])].

(** Two nodes of the same kind, files with the same data. *)
Definition same_entry (a b : option node) : Prop :=
  match a, b with
  | Some (File x), Some (File y) => x = y
  | Some (Dir _), Some (Dir _) => True
  | None, None => True
  | _, _ => False
  end.

Definition all_files (children : entries node) : Prop :=
  Forall (fun e => is_file e = true) children.

(** An executable that copies its standard input and exits with 0. *)
Definition cat : path -> str -> str * Z := fun _ stdin => (stdin, 0%Z).

Definition script : str := SHEBANG ++ [LF] ++ py "import sys" ++ [LF].

(** A job: an input directory with one file, and two valid executables. *)
Definition fs_job : node :=
  Dir [("input"%string,
        Dir [("a.txt"%string, File (record "b" "1" ++ record "a" "1"))]);
       ("map.py"%string, File script);
       ("reduce.py"%string, File script)].


(** A job whose map tasks, run with [cat], leave a mapper output without a
    final line feed. *)
Definition fs_open_ended : node :=
  Dir [("input"%string,
        Dir [("a.txt"%string, File open_ended);
             ("b.txt"%string, File glued_twin)]);
       ("map.py"%string, File script);
       ("reduce.py"%string, File script)].

Definition reducer_names : list string :=
  ["part-00000"; "part-00001"; "part-00002"; "part-00003"]%string.

(** The error [check_shebang] raises. *)
Definition invalid_shebang (exe : path) (line : str) : exn :=
  MadoopError (path_str exe ++ py ": invalid shebang on first line '" ++ line
    ++ py "'.  Expected '#!/usr/bin/env python3'").

(** The error of the assertion in [prepare_input_files]. *)
Definition input_dir_not_found (input_dir : path) : exn :=
  AssertionError (py "Can't find input_dir '" ++ path_str input_dir ++ py "'").

(** A file system without the input directory. *)
Definition fs_no_input : node :=
  Dir [("map.py"%string, File script); ("reduce.py"%string, File script)].

(** The same with the empty output directory the run creates. *)
Definition fs_no_input_out : node :=
  Dir [("map.py"%string, File script); ("reduce.py"%string, File script);
       ("output"%string, Dir [])].

(** An executable whose first line is the directive followed by a space. *)
Definition script_trailing_space : str :=
  SHEBANG ++ py " " ++ [LF] ++ py "import sys" ++ [LF].

(** An executable with another interpreter. *)
Definition script_python2 : str :=
  py "#!/usr/bin/env python2" ++ [LF] ++ py "import sys" ++ [LF].

Definition fs_trailing_space : node :=
  Dir [("input"%string,
        Dir [("a.txt"%string, File (record "b" "1" ++ record "a" "1"))]);
       ("map.py"%string, File script_trailing_space);
       ("reduce.py"%string, File script)].

Definition fs_python2 : node :=
  Dir [("input"%string,
        Dir [("a.txt"%string, File (record "b" "1" ++ record "a" "1"))]);
       ("map.py"%string, File script);
       ("reduce.py"%string, File script_python2)].

Definition fs_python2_out : node :=
  Dir [("input"%string,
        Dir [("a.txt"%string, File (record "b" "1" ++ record "a" "1"))]);
       ("map.py"%string, File script);
       ("reduce.py"%string, File script_python2);
       ("output"%string, Dir [])].

(** An executable longer than a chunk, and the same followed by bytes that
    are not text. *)
Definition long_script : str := script ++ repeat "#"%char CHUNK_SIZE.

Definition binary_tail : str := long_script ++ map ascii_of_nat [255; 254].

Definition fs_long_script : node := Dir [("map.py"%string, File long_script)].

Definition fs_binary_tail : node := Dir [("map.py"%string, File binary_tail)].

(** The first bytes of an ELF binary. *)
Definition elf_header : str :=
  map ascii_of_nat
    [127; 69; 76; 70; 2; 1; 1; 0; 0; 0; 0; 0; 0; 0; 0; 0; 3; 0; 62; 0;
     1; 0; 0; 0; 128; 16; 0; 0].

(** A job whose map executable is a binary, before and after the run. *)
Definition fs_binary : node :=
  Dir [("input"%string, Dir [("a.txt"%string, File (record "a" "1"))]);
       ("map"%string, File elf_header);
       ("reduce.py"%string, File script)].

Definition fs_binary_out : node :=
  Dir [("input"%string, Dir [("a.txt"%string, File (record "a" "1"))]);
       ("map"%string, File elf_header);
       ("reduce.py"%string, File script);
       ("output"%string, Dir [])].

(** The standard input of task [i]: the partition of that ordinal. *)
Definition stdin_of (input_dir : dir) (i : nat) : str :=
  match entry_find (part_filename i) input_dir with
  | Some data => data
  | None => []
  end.

(** Task [i] has its input partition and its subprocess exits with 0. *)
Definition task_ok (subprocess_run : path -> str -> str * Z) (exe : path)
  (input_dir : dir) (i : nat) : bool :=
  match entry_find (part_filename i) input_dir with
  | Some stdin => (snd (subprocess_run exe stdin) =? 0)%Z
  | None => false
  end.

(** The output files of tasks: the standard output of each. *)
Definition task_outputs (subprocess_run : path -> str -> str * Z) (exe : path)
  (input_dir : dir) (tasks : list nat) : dir :=
  map (fun i => (part_filename i,
                 fst (subprocess_run exe (stdin_of input_dir i)))) tasks.

(** The subprocesses of tasks. *)
Definition task_spawns (exe : path) (input_dir : dir) (tasks : list nat)
  : list spawn :=
  map (fun i => (exe, stdin_of input_dir i)) tasks.

(** The output directory after tasks that all succeed. *)
Definition tasks_done (subprocess_run : path -> str -> str * Z) (exe : path)
  (input_dir : dir) (tasks : list nat) (output_dir : dir) : dir :=
  fold_left (fun d i =>
      entry_set (part_filename i)
        (fst (subprocess_run exe (stdin_of input_dir i))) d)
    tasks output_dir.

(** A temporary directory. *)
Definition tmp_madoop : path := ["tmp"; "madoop-k3v9x2aa"]%string.

(** Enumeration of a directory by ordinal, and with the newest first. *)
Definition by_ordinal (name : string) : nat :=
  match parse_part name with Some n => n | None => 0 end.

Definition newest_first (name : string) : nat := 1000 - by_ordinal name.

(** An executable that fails on an empty standard input. *)
Definition picky : path -> str -> str * Z :=
  fun _ stdin => match stdin with [] => ([], 1%Z) | _ => (stdin, 0%Z) end.

(** Three partitions, the second one empty. *)
Definition three_parts : dir :=
  [ ("part-00000"%string, record "a" "1");
    ("part-00001"%string, []);
    ("part-00002"%string, record "b" "1") ].

(** [q] is [p] or a path below it. *)
Definition under (p q : path) : Prop := exists rest, q = p ++ rest.

(** The files of a workspace directory as nodes of the file system. *)
Definition as_files (d : dir) : entries node :=
  map (fun f => (fst f, File (snd f))) d.

(** The reducer-input files a run derives from its map partitions. *)
Definition reduce_inputs (subprocess_run : path -> str -> str * Z)
  (dir_order : string -> nat) (map_exe : path) (map_in : dir) (num_map : nat)
  : dir :=
  reducer_files
    (merged_lines
       (iterdir dir_order
          (task_outputs subprocess_run map_exe map_in (seq 0 num_map)))).

(** A job whose input directory is empty. *)
Definition fs_empty_input : node :=
  Dir [("input"%string, Dir []);
       ("map.py"%string, File script);
       ("reduce.py"%string, File script)].

(** The same after the run created its output directory. *)
Definition fs_empty_input_out : node :=
  Dir [("input"%string, Dir []);
       ("map.py"%string, File script);
       ("reduce.py"%string, File script);
       ("output"%string, Dir [])].

(** The value of a list of bytes read as a big-endian number. *)
Definition be_value (bytes : list Z) : Z :=
  fold_left (fun acc b => (256 * acc + b)%Z) bytes 0%Z.

Definition is_byte (b : Z) : Prop := (0 <= b < 256)%Z.

(** A mapper output of two records with the same key. *)
Definition fs_one_key : node :=
  Dir [("part-00000"%string, File (record "k" "1" ++ record "k" "2"))].

(** * Properties *)


(** ** The model on known values *)

Example md5_empty :
  MD5.hexdigest (encode_utf8 (py "")) = py "d41d8cd98f00b204e9800998ecf8427e".
Proof. vm_compute. reflexivity. Qed.

Example md5_abc :
  MD5.hexdigest (encode_utf8 (py "abc")) = py
      "900150983cd24fb0d6963f7d28e17f72".
Proof. vm_compute. reflexivity. Qed.

Example md5_two_blocks :
  MD5.hexdigest (encode_utf8 (py
    "12345678901234567890123456789012345678901234567890123456789012345678901234567890"))
  = py "57edf4a22be3c955ac49da2e2107b67a".
Proof. vm_compute. reflexivity. Qed.

Example keyhash_a : (keyhash (py "a") mod 4 = 1)%Z.
Proof. vm_compute. reflexivity. Qed.

Example keyhash_b : (keyhash (py "b") mod 4 = 3)%Z.
Proof. vm_compute. reflexivity. Qed.

(** [int(float(n))] at sizes that are not doubles. *)
Example nearest_double_rounds :
  nearest_double (2 ^ 53 + 1) = (2 ^ 53)%Z /\
  nearest_double (2 ^ 53 + 2) = (2 ^ 53 + 2)%Z /\
  nearest_double (2 ^ 53 + 3) = (2 ^ 53 + 4)%Z /\
  nearest_double (2 ^ 54 + 2) = (2 ^ 54)%Z /\
  nearest_double (2 ^ 54 + 6) = (2 ^ 54 + 8)%Z /\
  nearest_double (3 * 2 ^ 52 + 1) = 13510798882111488%Z /\
  nearest_double (2 ^ 60 + 12345678901) = 1152921516952525824%Z.
Proof. vm_compute. repeat split. Qed.

Definition bytes_of (l : list nat) : str := map ascii_of_nat l.

(** The incremental decoder on sequences cut short and on sequences that
    are not UTF-8. *)
Example utf8_decode_cut :
  utf8_decode (bytes_of [97; 195]) = Some (bytes_of [97], bytes_of [195]) /\
  utf8_decode (bytes_of [224; 160]) = Some ([], bytes_of [224; 160]) /\
  utf8_decode (bytes_of [237; 160]) = Some ([], bytes_of [237; 160]) /\
  utf8_decode (bytes_of [240; 144; 128]) =
    Some ([], bytes_of [240; 144; 128]) /\
  utf8_decode (bytes_of [244; 143]) = Some ([], bytes_of [244; 143]) /\
  utf8_decode (bytes_of [195; 169; 226; 130; 172; 240; 159; 152; 128]) =
    Some (bytes_of [195; 169; 226; 130; 172; 240; 159; 152; 128], []).
Proof. vm_compute. repeat split. Qed.

Example utf8_decode_refuses :
  map utf8_decode
    (map bytes_of
       [ [128]; [192]; [193]; [245]; [255]; [194; 65]; [225; 65];
         [224; 128]; [237; 160; 128]; [240; 143]; [244; 144];
         [240; 144; 65]; [241; 128; 192]; [233; 98] ])
  = repeat None 14.
Proof. vm_compute. reflexivity. Qed.

(** [readline] on short files. *)
Example readline_known :
  map readline
    [ [];
      SHEBANG ++ [CR; LF] ++ py "foo";
      py "abc" ++ [CR];
      py "abc" ++ bytes_of [195];
      py "abc" ++ [LF] ++ bytes_of [195];
      SHEBANG ++ [LF] ++ py "x=" ++ bytes_of [233; 10];
      bytes_of [127; 69; 76; 70; 2; 1; 1; 0; 3; 0; 62; 0; 128; 144] ]
  = [ OK [];
      OK (SHEBANG ++ [LF]);
      OK (py "abc" ++ [LF]);
      Raise UnicodeDecodeError;
      OK (py "abc" ++ [LF]);
      Raise UnicodeDecodeError;
      Raise UnicodeDecodeError ].
Proof. vm_compute. reflexivity. Qed.

(** [readline] at the boundary of the first chunk: behind a first line of
    one line feed, a byte that is not UTF-8 is refused up to the last byte
    of the chunk, and a lead byte at the end of the chunk is not; a carriage
    return or a cut sequence at the end of the chunk has the next chunk
    read. *)
Example readline_chunk_boundary :
  let a n := repeat "a"%char n in
  let chunk := 2 ^ 13 in
  map readline
    [ [LF] ++ a (chunk - 3) ++ bytes_of [233] ++ py "bb";
      [LF] ++ a (chunk - 2) ++ bytes_of [233] ++ py "bb";
      [LF] ++ a (chunk - 2) ++ bytes_of [255] ++ py "bb";
      [LF] ++ a (chunk - 1) ++ bytes_of [255] ++ py "bb";
      a (chunk - 1) ++ [CR] ++ bytes_of [233];
      a (chunk - 1) ++ [LF] ++ bytes_of [233];
      a (chunk - 1) ++ bytes_of [195; 122; 10];
      a (chunk + 808) ++ bytes_of [233; 10] ]
  = [ Raise UnicodeDecodeError;
      OK [LF];
      Raise UnicodeDecodeError;
      OK [LF];
      Raise UnicodeDecodeError;
      OK (a (chunk - 1) ++ [LF]);
      Raise UnicodeDecodeError;
      Raise UnicodeDecodeError ].
Proof. vm_compute. reflexivity. Qed.

Example readline_across_chunks :
  let a n := repeat "a"%char n in
  let chunk := 2 ^ 13 in
  map readline
    [ a (chunk - 1) ++ [CR] ++ py "zz";
      a (chunk - 1) ++ bytes_of [195; 169; 10] ++ py "zz" ]
  = [ OK (a (chunk - 1) ++ [LF]);
      OK (a (chunk - 1) ++ bytes_of [195; 169; 10]) ].
Proof. vm_compute. reflexivity. Qed.

Example part_filename_3 : part_filename 3 = "part-00003"%string.
Proof. reflexivity. Qed.

Example part_filename_42 : part_filename 42 = "part-00042"%string.
Proof. reflexivity. Qed.

(** ** The order on strings *)

Lemma ord_inj (x y : ascii) : ord x = ord y -> x = y.
Proof.
  unfold ord. intros H.
  rewrite <- (ascii_N_embedding x), <- (ascii_N_embedding y).
  now rewrite H.
Qed.

Ltac ord_cases :=
  repeat match goal with
  | |- context [(?a <? ?b)%N] => destruct (N.ltb_spec a b)
  | H : context [(?a <? ?b)%N] |- _ => destruct (N.ltb_spec a b)
  end; try discriminate; try lia.

Lemma str_ltb_irrefl (a : str) : str_ltb a a = false.
Proof. induction a as [|x a IH]; simpl; [reflexivity | ord_cases; exact IH].
    Qed.

Lemma str_ltb_trans (a b c : str) :
  str_ltb a b = true -> str_ltb b c = true -> str_ltb a c = true.
Proof.
  revert b c. induction a as [|x a IH]; intros [|y b] [|z c]; simpl;
    try discriminate; try reflexivity.
  intros Hab Hbc. ord_cases; try reflexivity.
  eapply IH; eassumption.
Qed.

Lemma str_ltb_connected (a b : str) :
  str_ltb a b = false -> str_ltb b a = false -> a = b.
Proof.
  revert b. induction a as [|x a IH]; intros [|y b]; simpl;
    try discriminate; try reflexivity.
  intros Hab Hba. ord_cases.
  assert (x = y) by (apply ord_inj; lia). subst y.
  f_equal. apply IH; assumption.
Qed.

Lemma str_ltb_asym (a b : str) : str_ltb a b = true -> str_ltb b a = false.
Proof.
  intros H. destruct (str_ltb b a) eqn:E; [|reflexivity].
  pose proof (str_ltb_trans _ _ _ H E) as C.
  rewrite str_ltb_irrefl in C. discriminate.
Qed.

Lemma str_le_refl (a : str) : str_le a a.
Proof. unfold str_le, str_leb. now rewrite str_ltb_irrefl. Qed.

Lemma str_le_antisym (a b : str) : str_le a b -> str_le b a -> a = b.
Proof.
  unfold str_le, str_leb. intros H1 H2.
  apply negb_true_iff in H1, H2. now apply str_ltb_connected.
Qed.

Lemma str_le_total (a b : str) : str_le a b \/ str_le b a.
Proof.
  unfold str_le, str_leb. destruct (str_ltb b a) eqn:E.
  - right. now rewrite (str_ltb_asym _ _ E).
  - now left.
Qed.

Lemma str_lt_le (a b : str) : str_ltb a b = true -> str_le a b.
Proof.
  intros H. unfold str_le, str_leb. now rewrite (str_ltb_asym _ _ H).
Qed.

Lemma str_le_trans (a b c : str) : str_le a b -> str_le b c -> str_le a c.
Proof.
  unfold str_le, str_leb. intros H1 H2.
  apply negb_true_iff in H1, H2. apply negb_true_iff.
  destruct (str_ltb c a) eqn:E; [|reflexivity].
  destruct (str_ltb a b) eqn:Eab.
  - pose proof (str_ltb_trans _ _ _ E Eab). congruence.
  - assert (a = b) by (now apply str_ltb_connected). subst. congruence.
Qed.

Lemma str_le_not_lt (a b : str) : str_ltb a b = false -> str_le b a.
Proof. intros H. unfold str_le, str_leb. now rewrite H. Qed.

(** ** [sorted] sorts *)

Lemma insort_perm (x : str) (l : list str) : Permutation (insort x l) (x :: l).
Proof.
  induction l as [|y l IH]; simpl; [reflexivity|].
  destruct (str_ltb y x); [|reflexivity].
  rewrite IH. apply perm_swap.
Qed.

Lemma sorted_perm (l : list str) : Permutation (sorted l) l.
Proof.
  induction l as [|x l IH]; simpl; [reflexivity|].
  rewrite insort_perm. now constructor.
Qed.

Lemma insort_sorted (x : str) (l : list str) :
  StronglySorted str_le l -> StronglySorted str_le (insort x l).
Proof.
  induction 1 as [|y l Hs IH Hall]; simpl.
  - repeat constructor.
  - destruct (str_ltb y x) eqn:E.
    + constructor; [exact IH|].
      eapply Permutation_Forall; [symmetry; apply insort_perm|].
      constructor; [now apply str_lt_le | exact Hall].
    + pose proof (str_le_not_lt _ _ E) as Hxy.
      constructor; [now constructor|].
      constructor; [exact Hxy|].
      eapply Forall_impl; [|exact Hall].
      intros z Hz. eapply str_le_trans; eassumption.
Qed.

Lemma sorted_sorted (l : list str) : StronglySorted str_le (sorted l).
Proof.
  induction l as [|x l IH]; simpl; [constructor | now apply insort_sorted].
Qed.

(** A list has one sorted arrangement. *)
Lemma sorted_unique (l1 l2 : list str) :
  StronglySorted str_le l1 -> StronglySorted str_le l2 ->
  Permutation l1 l2 -> l1 = l2.
Proof.
  intros H1. revert l2. induction H1 as [|a l1 Hs1 IH Ha]; intros l2 H2 P.
  - apply Permutation_nil in P. now subst.
  - destruct H2 as [|b l2 Hs2 Hb].
    + apply Permutation_sym, Permutation_nil in P. discriminate.
    + assert (a = b) as ->.
      { assert (In a (b :: l2)) as Ia
          by (eapply Permutation_in; [exact P | now left]).
        assert (In b (a :: l1)) as Ib
          by (eapply Permutation_in; [symmetry; exact P | now left]).
        rewrite Forall_forall in Ha, Hb.
        destruct Ia as [->|Ia]; [reflexivity|].
        destruct Ib as [->|Ib]; [reflexivity|].
        apply str_le_antisym; auto. }
      f_equal. apply IH; [exact Hs2|].
      eapply Permutation_cons_inv; exact P.
Qed.

(** ** Lines *)

Lemma readlines_concat (s : str) : concat (readlines s) = s.
Proof.
  induction s as [|c s IH]; simpl; [reflexivity|].
  destruct (ascii_dec c LF) as [->|Hc]; simpl; [now rewrite IH|].
  destruct (readlines s) as [|line lines]; simpl in *.
  - now rewrite <- IH.
  - now rewrite <- IH.
Qed.

Lemma readlines_nil (s : str) : readlines s = [] -> s = [].
Proof. intros H. rewrite <- (readlines_concat s), H. reflexivity. Qed.

Lemma is_line_cons (c : ascii) (l : str) :
  c <> LF -> is_line l -> is_line (c :: l).
Proof.
  intros Hc (body & -> & Hb). exists (c :: body). split; [reflexivity|].
  intros [E|I]; [now apply Hc | now apply Hb].
Qed.

Lemma readlines_is_line (s : str) :
  last s LF = LF -> Forall is_line (readlines s).
Proof.
  induction s as [|c s IH]; simpl; [constructor|].
  intros Hl.
  assert (c = LF \/ (c <> LF /\ s <> [])) as [->|[Hc Hs]].
  { destruct (ascii_dec c LF); [now left|right]. split; [assumption|].
    intros ->. simpl in Hl. contradiction. }
  - destruct (ascii_dec LF LF) as [_|N]; [|contradiction].
    constructor.
    + exists []. split; [reflexivity | intros []].
    + apply IH. destruct s; [reflexivity | exact Hl].
  - destruct (ascii_dec c LF) as [E|_]; [contradiction|].
    assert (Forall is_line (readlines s)) as Hall.
    { apply IH. destruct s; [contradiction | exact Hl]. }
    destruct (readlines s) as [|line lines] eqn:E.
    + apply readlines_nil in E. contradiction.
    + inversion Hall; subst. constructor; [now apply is_line_cons | assumption].
Qed.

Lemma readlines_line_app (body rest : str) :
  ~ In LF body ->
  readlines (body ++ LF :: rest) = (body ++ [LF]) :: readlines rest.
Proof.
  induction body as [|c body IH]; simpl; intros Hb.
  - destruct (ascii_dec LF LF); [reflexivity | contradiction].
  - destruct (ascii_dec c LF) as [->|_]; [exfalso; apply Hb; now left|].
    rewrite IH; [reflexivity|]. intros I. apply Hb. now right.
Qed.

Lemma readlines_of_lines (ls : list str) :
  Forall is_line ls -> readlines (concat ls) = ls.
Proof.
  induction 1 as [|l ls (body & -> & Hb) _ IH]; simpl; [reflexivity|].
  rewrite <- app_assoc. simpl. rewrite readlines_line_app by assumption.
  now rewrite IH.
Qed.

Lemma universal_newlines_no_CR (s : str) : ~ In CR (universal_newlines s).
Proof.
  induction s as [|c s IH]; simpl; [intros []|].
  destruct (ascii_dec c CR) as [->|Hc].
  - destruct s as [|d s']; [intros [E|[]]; discriminate|].
    destruct (ascii_dec d LF); [exact IH|].
    intros [E|I]; [discriminate | now apply IH].
  - intros [E|I]; [now apply Hc | now apply IH].
Qed.

Lemma universal_newlines_id (s : str) :
  ~ In CR s -> universal_newlines s = s.
Proof.
  induction s as [|c s IH]; simpl; [reflexivity|]. intros H.
  destruct (ascii_dec c CR) as [->|_]; [exfalso; apply H; now left|].
  rewrite IH; [reflexivity|]. intros I. apply H. now right.
Qed.

Lemma in_concat_line (c : ascii) (ls : list str) :
  In c (concat ls) <-> exists l, In l ls /\ In c l.
Proof.
  rewrite in_concat. split; intros (l & A & B); exists l; tauto.
Qed.

Lemma read_text_lines (data : str) :
  newline_terminated data -> Forall text_line (read_text data).
Proof.
  intros H. unfold read_text.
  pose proof (readlines_is_line _ H) as Hl.
  rewrite Forall_forall in *. intros l Hin. split; [now apply Hl|].
  intros I. apply (universal_newlines_no_CR data).
  rewrite <- (readlines_concat (universal_newlines data)).
  apply in_concat_line. now exists l.
Qed.

Lemma read_text_of_lines (ls : list str) :
  Forall text_line ls -> read_text (writelines ls) = ls.
Proof.
  intros H. unfold read_text, writelines.
  rewrite universal_newlines_id.
  - apply readlines_of_lines. eapply Forall_impl; [|exact H].
    now intros l [Hl _].
  - rewrite in_concat_line. intros (l & Hin & Hc).
    rewrite Forall_forall in H. now apply (H l Hin).
Qed.

Lemma read_text_sort_file (data : str) :
  newline_terminated data ->
  read_text (sort_file data) = sorted (read_text data).
Proof.
  intros H. unfold sort_file. apply read_text_of_lines.
  eapply Permutation_Forall; [symmetry; apply sorted_perm|].
  now apply read_text_lines.
Qed.

(** ** [heapq.merge] merges *)

Lemma pop_least_none (ss : list (list str)) :
  pop_least ss = None -> concat ss = [].
Proof.
  induction ss as [|s ss IH]; simpl; [reflexivity|].
  destruct s as [|x s'], (pop_least ss) as [[y rest']|];
    try discriminate; try (destruct (str_ltb y x); discriminate).
  intros _. now apply IH.
Qed.

Lemma pop_least_perm (ss ss' : list (list str)) (x : str) :
  pop_least ss = Some (x, ss') -> Permutation (concat ss) (x :: concat ss').
Proof.
  revert ss' x. induction ss as [|s ss IH]; simpl; [discriminate|].
  intros ss' x.
  destruct s as [|a s'], (pop_least ss) as [[y rest']|] eqn:E.
  - intros [= <- <-]. simpl. now apply IH.
  - discriminate.
  - destruct (str_ltb y a); intros [= <- <-]; simpl; [|reflexivity].
    rewrite (IH _ _ eq_refl).
    change (Permutation ((a :: s') ++ y :: concat rest')
                        (y :: (a :: s') ++ concat rest')).
    symmetry. apply Permutation_middle.
  - intros [= <- <-]. reflexivity.
Qed.

Lemma pop_least_sorted (ss ss' : list (list str)) (x : str) :
  Forall (StronglySorted str_le) ss ->
  pop_least ss = Some (x, ss') ->
  Forall (str_le x) (concat ss') /\ Forall (StronglySorted str_le) ss'.
Proof.
  intros Hall. revert ss' x.
  induction Hall as [|s ss Hs Hall IH]; simpl; [discriminate|].
  intros ss' x.
  destruct s as [|a s'], (pop_least ss) as [[y rest']|] eqn:E.
  - intros [= <- <-]. destruct (IH _ _ eq_refl) as [A B].
    split; [exact A | now constructor].
  - discriminate.
  - destruct (IH _ _ eq_refl) as [A B].
    inversion Hs as [|? ? Hs' Ha]; subst.
    destruct (str_ltb y a) eqn:L; intros [= <- <-]; simpl.
    + split; [|now constructor].
      apply str_lt_le in L.
      constructor; [exact L|]. apply Forall_app. split; [|exact A].
      eapply Forall_impl; [|exact Ha].
      intros z Hz. eapply str_le_trans; eassumption.
    + split; [|now constructor].
      apply str_le_not_lt in L.
      apply Forall_app. split; [exact Ha|].
      eapply Permutation_Forall;
        [symmetry; apply pop_least_perm; exact E|].
      constructor; [exact L|].
      eapply Forall_impl; [|exact A].
      intros z Hz. eapply str_le_trans; eassumption.
  - inversion Hs as [|? ? Hs' Ha]; subst.
    intros [= <- <-]. simpl. rewrite (pop_least_none _ E), app_nil_r.
    split; [exact Ha | now constructor].
Qed.

Lemma merge_steps_perm (n : nat) (ss : list (list str)) :
  n = length (concat ss) -> Permutation (merge_steps n ss) (concat ss).
Proof.
  revert ss. induction n as [|n IH]; intros ss Hn; simpl.
  - symmetry in Hn. apply length_zero_iff_nil in Hn. now rewrite Hn.
  - destruct (pop_least ss) as [[x ss']|] eqn:E.
    + pose proof (pop_least_perm _ _ _ E) as P.
      rewrite P. constructor. apply IH.
      apply Permutation_length in P. simpl in P. lia.
    + rewrite (pop_least_none _ E) in Hn. discriminate.
Qed.

(** The merge consumes every line of every stream. *)
Lemma merge_perm (ss : list (list str)) : Permutation (merge ss) (concat ss).
Proof. now apply merge_steps_perm. Qed.

Lemma merge_steps_sorted (n : nat) (ss : list (list str)) :
  n = length (concat ss) ->
  Forall (StronglySorted str_le) ss ->
  StronglySorted str_le (merge_steps n ss).
Proof.
  revert ss. induction n as [|n IH]; intros ss Hn Hall; simpl; [constructor|].
  destruct (pop_least ss) as [[x ss']|] eqn:E; [|constructor].
  destruct (pop_least_sorted _ _ _ Hall E) as [A B].
  pose proof (pop_least_perm _ _ _ E) as P.
  assert (n = length (concat ss')) as Hn'
    by (apply Permutation_length in P; simpl in P; lia).
  constructor; [now apply IH|].
  eapply Permutation_Forall; [symmetry; now apply merge_steps_perm|].
  exact A.
Qed.

Lemma merge_sorted (ss : list (list str)) :
  Forall (StronglySorted str_le) ss -> StronglySorted str_le (merge ss).
Proof. now apply merge_steps_sorted. Qed.

(** Sorted streams merge into the sorted list of all their lines. *)
Lemma merge_sorted_eq (ss : list (list str)) :
  Forall (StronglySorted str_le) ss -> merge ss = sorted (concat ss).
Proof.
  intros H. apply sorted_unique.
  - now apply merge_sorted.
  - apply sorted_sorted.
  - rewrite merge_perm. symmetry. apply sorted_perm.
Qed.

(** ** Hash partitioning *)

Lemma reducer_idx_lt (line : str) : reducer_idx line < MAX_NUM_REDUCE.
Proof.
  unfold reducer_idx.
  pose proof (Z.mod_pos_bound (keyhash (partition_tab_head line))
                (Z.of_nat MAX_NUM_REDUCE)) as B.
  unfold MAX_NUM_REDUCE in *. lia.
Qed.

Lemma allocate_eq (outfiles : handles) (line : str) :
  allocate outfiles line =
  match write_nth (reducer_idx line) line outfiles with
  | Some outfiles' => OK outfiles'
  | None => Raise IndexError
  end.
Proof. reflexivity. Qed.

Lemma bucket_cons (i : nat) (l : str) (lines : list str) :
  bucket i (l :: lines) =
  if reducer_idx l =? i then l :: bucket i lines else bucket i lines.
Proof. reflexivity. Qed.

(** The loop over the merged lines appends to each of the four files the
    lines of its bucket. *)
Lemma allocate_all (lines : list str) :
  forall n0 n1 n2 n3 b0 b1 b2 b3,
  for_each allocate lines [(n0, b0); (n1, b1); (n2, b2); (n3, b3)] =
  OK [(n0, b0 ++ concat (bucket 0 lines));
      (n1, b1 ++ concat (bucket 1 lines));
      (n2, b2 ++ concat (bucket 2 lines));
      (n3, b3 ++ concat (bucket 3 lines))].
Proof.
  induction lines as [|l lines IH]; intros; simpl for_each.
  - unfold bucket. simpl. now rewrite !app_nil_r.
  - rewrite allocate_eq, !bucket_cons.
    pose proof (reducer_idx_lt l) as B. unfold MAX_NUM_REDUCE in B.
    destruct (reducer_idx l) as [|[|[|[|k]]]]; try lia;
      simpl; rewrite IH; simpl; now rewrite <- !app_assoc.
Qed.

Lemma close_all_parts (b0 b1 b2 b3 : str) :
  close_all [(part_filename 0, b0); (part_filename 1, b1);
             (part_filename 2, b2); (part_filename 3, b3)] [] =
  [(part_filename 0, b0); (part_filename 1, b1);
   (part_filename 2, b2); (part_filename 3, b3)].
Proof. reflexivity. Qed.

(** ** Directory entries *)

Lemma entry_find_set_same {A : Type} (name : string) (a : A) (d : entries A) :
  entry_find name (entry_set name a d) = Some a.
Proof.
  induction d as [|[n b] d IH]; simpl.
  - destruct (string_dec name name); [reflexivity | contradiction].
  - destruct (string_dec n name) as [E|N]; simpl.
    + destruct (string_dec n name); [reflexivity | contradiction].
    + destruct (string_dec n name); [contradiction | exact IH].
Qed.

Lemma entry_find_set_other {A : Type} (name other : string) (a : A)
  (d : entries A) :
  name <> other -> entry_find name (entry_set other a d) = entry_find name d.
Proof.
  intros Hne. induction d as [|[n b] d IH]; simpl.
  - destruct (string_dec other name); [congruence | reflexivity].
  - destruct (string_dec n other) as [E|N]; simpl.
    + subst n. destruct (string_dec other name); [congruence | reflexivity].
    + destruct (string_dec n name); [reflexivity | exact IH].
Qed.

Lemma part_filename_small_inj (i j : nat) :
  i < MAX_NUM_REDUCE -> j < MAX_NUM_REDUCE ->
  part_filename i = part_filename j -> i = j.
Proof.
  unfold MAX_NUM_REDUCE. intros Hi Hj.
  destruct i as [|[|[|[|i]]]]; try lia;
    destruct j as [|[|[|[|j]]]]; try lia;
    try reflexivity; intros H; vm_compute in H; discriminate.
Qed.

Lemma close_all_find (output_dir : dir) (b0 b1 b2 b3 : str) (i : nat) :
  i < MAX_NUM_REDUCE ->
  reducer_input
    (close_all [(part_filename 0, b0); (part_filename 1, b1);
                (part_filename 2, b2); (part_filename 3, b3)] output_dir) i
  = nth_error [b0; b1; b2; b3] i.
Proof.
  unfold MAX_NUM_REDUCE, reducer_input, close_all. intros Hi.
  cbn [fold_left fst snd].
  assert (forall j k, j < 4 -> k < 4 -> j <> k ->
                      part_filename j <> part_filename k) as Hne.
  { intros j k Hj Hk N E. apply N.
    now apply part_filename_small_inj. }
  destruct i as [|[|[|[|i]]]]; try lia; cbn [nth_error].
  - rewrite !entry_find_set_other by (apply Hne; lia).
    apply entry_find_set_same.
  - rewrite !entry_find_set_other by (apply Hne; lia).
    apply entry_find_set_same.
  - rewrite !entry_find_set_other by (apply Hne; lia).
    apply entry_find_set_same.
  - apply entry_find_set_same.
Qed.

(** The group stage never raises: it writes four reducer-input files, file
    [i] holding bucket [i] of the merged lines. *)
Lemma group_stage_eq (input_dir output_dir : dir) :
  group_stage input_dir output_dir =
  OK (map (fun f => (fst f, sort_file (snd f))) input_dir,
      close_all (reducer_files (merged_lines input_dir)) output_dir,
      MAX_NUM_REDUCE).
Proof.
  unfold group_stage, merged_lines, open_w, reducer_files, MAX_NUM_REDUCE.
  rewrite map_map. cbn [seq map fst snd].
  rewrite allocate_all. reflexivity.
Qed.

Lemma reducer_input_close (lines : list str) (output_dir : dir) (i : nat) :
  i < MAX_NUM_REDUCE ->
  reducer_input (close_all (reducer_files lines) output_dir) i
  = Some (concat (bucket i lines)).
Proof.
  intros Hi. unfold reducer_files. unfold MAX_NUM_REDUCE at 1.
  cbn [seq map]. rewrite close_all_find by assumption.
  unfold MAX_NUM_REDUCE in Hi.
  destruct i as [|[|[|[|i]]]]; try lia; reflexivity.
Qed.

Lemma close_all_fresh (lines : list str) :
  close_all (reducer_files lines) [] = reducer_files lines.
Proof.
  unfold reducer_files, MAX_NUM_REDUCE. cbn [seq map].
  apply close_all_parts.
Qed.

(** ** Keys of sorted lines *)

Lemma partition_tab_head_no_tab (l : str) : ~ In TAB (partition_tab_head l).
Proof.
  induction l as [|c l IH]; simpl; [intros []|].
  destruct (ascii_dec c TAB); [intros []|].
  intros [E|I]; [congruence | now apply IH].
Qed.

Lemma partition_tab_head_split (l : str) :
  (exists r, l = partition_tab_head l ++ TAB :: r) \/ partition_tab_head l = l.
Proof.
  induction l as [|c l IH]; simpl; [now right|].
  destruct (ascii_dec c TAB) as [->|N].
  - left. now exists l.
  - destruct IH as [[r E]|E].
    + left. exists r. simpl. now rewrite <- E.
    + right. now rewrite E.
Qed.

Lemma partition_tab_head_prefix (k r : str) :
  ~ In TAB k -> partition_tab_head (k ++ TAB :: r) = k.
Proof.
  induction k as [|c k IH]; simpl; intros H.
  - destruct (ascii_dec TAB TAB); [reflexivity | contradiction].
  - destruct (ascii_dec c TAB) as [->|_]; [exfalso; apply H; now left|].
    rewrite IH; [reflexivity|]. intros I. apply H. now right.
Qed.

Lemma str_le_nil_r (a : str) : str_le a [] -> a = [].
Proof. destruct a; [reflexivity | discriminate]. Qed.

Lemma str_le_cons_inv (p c : ascii) (a b : str) :
  str_le (p :: a) (c :: b) ->
  (ord p < ord c)%N \/ (p = c /\ str_le a b).
Proof.
  unfold str_le, str_leb. simpl. intros H. apply negb_true_iff in H.
  ord_cases.
  right. split; [apply ord_inj; lia | now rewrite H].
Qed.

(** A string between two strings that start alike starts like them. *)
Lemma prefix_between (p a b z : str) :
  str_le (p ++ a) z -> str_le z (p ++ b) -> exists r, z = p ++ r.
Proof.
  revert z. induction p as [|c p IH]; intros z H1 H2; simpl in *.
  - now exists z.
  - destruct z as [|d z]; [apply str_le_nil_r in H1; discriminate|].
    apply str_le_cons_inv in H1, H2.
    destruct H1 as [L1|[-> L1]], H2 as [L2|[E L2]]; try lia.
    + subst. lia.
    + destruct (IH z L1 L2) as [r ->]. now exists r.
Qed.

Lemma is_line_LF_last (l pre post : str) :
  is_line l -> l = pre ++ LF :: post -> post = [].
Proof.
  intros (body & -> & Hb) E.
  destruct post as [|c post]; [reflexivity|]. exfalso. apply Hb.
  assert (In LF (removelast (body ++ [LF]))) as I.
  { rewrite E. change (pre ++ LF :: c :: post) with (pre ++ [LF] ++ c :: post).
    rewrite app_assoc, removelast_app by discriminate.
    apply in_or_app. left. apply in_or_app. right. now left. }
  now rewrite removelast_last in I.
Qed.

Lemma key_between (x z y : str) :
  is_line x -> is_line y ->
  str_le x z -> str_le z y ->
  partition_tab_head x = partition_tab_head y ->
  partition_tab_head z = partition_tab_head x.
Proof.
  intros Lx Ly Hxz Hzy K.
  pose proof (partition_tab_head_no_tab x) as NT.
  destruct (partition_tab_head_split x) as [[rx Ex]|Ex],
           (partition_tab_head_split y) as [[ry Ey]|Ey].
  - rewrite <- K in Ey.
    set (k := partition_tab_head x) in *.
    assert (exists r, z = (k ++ [TAB]) ++ r) as [r ->].
    { apply (prefix_between (k ++ [TAB]) rx ry).
      - rewrite <- app_assoc. simpl. now rewrite <- Ex.
      - rewrite <- app_assoc. simpl. now rewrite <- Ey. }
    rewrite <- app_assoc. simpl. now apply partition_tab_head_prefix.
  - (* [y] is its own key, and [x] continues it after a tab *)
    exfalso. rewrite <- K in Ey.
    destruct Ly as (body & Ey' & _).
    assert (x = body ++ LF :: TAB :: rx) as Ex2.
    { rewrite Ex at 1. rewrite Ey, Ey', <- app_assoc. reflexivity. }
    pose proof (is_line_LF_last x body (TAB :: rx) Lx Ex2). discriminate.
  - exfalso. rewrite K in Ex.
    destruct Lx as (body & Ex' & _).
    assert (y = body ++ LF :: TAB :: ry) as Ey2.
    { rewrite Ey at 1. rewrite Ex, Ex', <- app_assoc. reflexivity. }
    pose proof (is_line_LF_last y body (TAB :: ry) Ly Ey2). discriminate.
  - assert (x = y) by congruence. subst y.
    assert (z = x) by (now apply str_le_antisym). now subst.
Qed.

Lemma StronglySorted_app_r (a b : list str) :
  StronglySorted str_le (a ++ b) -> StronglySorted str_le b.
Proof.
  induction a as [|x a IH]; simpl; [trivial|].
  intros H. inversion H; subst. now apply IH.
Qed.

Lemma StronglySorted_before (b c : list str) (y : str) :
  StronglySorted str_le (b ++ y :: c) -> Forall (fun z => str_le z y) b.
Proof.
  induction b as [|z b IH]; simpl; intros H; [constructor|].
  inversion H as [|? ? Hs Hall]; subst. constructor; [|now apply IH].
  rewrite Forall_forall in Hall. apply Hall.
  apply in_or_app. right. now left.
Qed.

Lemma sorted_keys_contiguous (lines : list str) :
  Forall is_line lines -> StronglySorted str_le lines ->
  keys_contiguous lines.
Proof.
  intros Hl Hs a x b y c -> K.
  apply StronglySorted_app_r in Hs.
  inversion Hs as [|? ? Hs' Hx]; subst.
  pose proof (StronglySorted_before _ _ _ Hs') as Hy.
  rewrite Forall_forall in *.
  intros z Hz. apply (key_between x z y).
  - apply Hl. apply in_or_app. right. now left.
  - apply Hl. apply in_or_app. right. right. apply in_or_app. right. now left.
  - apply Hx. apply in_or_app. now left.
  - now apply Hy.
  - exact K.
Qed.

(** ** The group stage on newline-terminated files *)

Lemma Sorted_is_sorted (lines : list str) :
  Sorted str_le lines -> is_sorted lines = true.
Proof.
  induction 1 as [|x l Hs IH Hd]; [reflexivity|].
  destruct l as [|y l]; [reflexivity|].
  inversion Hd; subst. simpl in *. rewrite IH. now rewrite H0.
Qed.

Lemma mapper_lines_text (input_dir : dir) :
  all_terminated input_dir -> Forall text_line (mapper_lines input_dir).
Proof.
  unfold mapper_lines. induction 1 as [|f d Hf _ IH]; simpl; [constructor|].
  apply Forall_app. split; [now apply read_text_lines | exact IH].
Qed.

Lemma merged_lines_sorted (input_dir : dir) :
  all_terminated input_dir ->
  merged_lines input_dir = sorted (mapper_lines input_dir).
Proof.
  intros H. unfold merged_lines.
  rewrite merge_sorted_eq.
  - apply sorted_unique; try apply sorted_sorted.
    rewrite !sorted_perm. unfold mapper_lines.
    induction H as [|f d Hf _ IH]; simpl; [reflexivity|].
    rewrite (read_text_sort_file _ Hf), sorted_perm.
    now apply Permutation_app_head.
  - induction H as [|f d Hf _ IH]; simpl; constructor; [|exact IH].
    rewrite (read_text_sort_file _ Hf). apply sorted_sorted.
Qed.

Lemma merged_lines_text (input_dir : dir) :
  all_terminated input_dir -> Forall text_line (merged_lines input_dir).
Proof.
  intros H. rewrite merged_lines_sorted by assumption.
  eapply Permutation_Forall; [symmetry; apply sorted_perm|].
  now apply mapper_lines_text.
Qed.

Lemma bucket_incl (i : nat) (lines : list str) (P : str -> Prop) :
  Forall P lines -> Forall P (bucket i lines).
Proof.
  intros H. rewrite Forall_forall in *. intros l Hl.
  apply filter_In in Hl. now apply H.
Qed.

Lemma bucket_sorted (i : nat) (lines : list str) :
  StronglySorted str_le lines -> StronglySorted str_le (bucket i lines).
Proof.
  induction 1 as [|x l Hs IH Hx]; [constructor|].
  rewrite bucket_cons. destruct (reducer_idx x =? i); [|exact IH].
  constructor; [exact IH | now apply bucket_incl].
Qed.

(** Reading back reducer-input file [i]. *)
Lemma read_reducer_input (input_dir : dir) (i : nat) :
  all_terminated input_dir ->
  read_text (concat (bucket i (merged_lines input_dir)))
  = bucket i (merged_lines input_dir).
Proof.
  intros H. apply read_text_of_lines.
  apply bucket_incl. now apply merged_lines_text.
Qed.

Lemma buckets_length (lines : list str) :
  list_sum (map (fun i => length (bucket i lines)) (seq 0 MAX_NUM_REDUCE))
  = length lines.
Proof.
  unfold MAX_NUM_REDUCE. cbn [seq map list_sum].
  induction lines as [|l lines IH]; [reflexivity|].
  rewrite !bucket_cons.
  pose proof (reducer_idx_lt l) as B. unfold MAX_NUM_REDUCE in B.
  destruct (reducer_idx l) as [|[|[|[|k]]]]; try lia; simpl in *; lia.
Qed.

Lemma bucket_count (i : nat) (lines : list str) (l : str) :
  count_occ str_eq_dec (bucket i lines) l =
  if reducer_idx l =? i then count_occ str_eq_dec lines l else 0.
Proof.
  induction lines as [|x lines IH].
  - simpl. now destruct (reducer_idx l =? i).
  - rewrite bucket_cons. simpl count_occ at 2.
    destruct (str_eq_dec x l) as [->|N].
    + destruct (reducer_idx l =? i); [|exact IH].
      rewrite count_occ_cons_eq by reflexivity. now rewrite IH.
    + destruct (reducer_idx x =? i); [|exact IH].
      rewrite count_occ_cons_neq by assumption. exact IH.
Qed.

(** ** The claims on the group stage

    [sort_file] writes the sorted lines back with [writelines], which adds
    no line feed: when the last line of a mapper-output file has none, the
    line that [sorted] puts behind it is glued to it, and the file that is
    supposed to be sorted is not.  C1, C2, C3 and C5 hold on mapper-output
    files that end in a line feed (X25 to X28) and fail, for that one
    reason, on the others. *)

(** What [sort_file] makes of a file whose last line has no line feed: its
    two lines become one, and its three lines two, out of order. *)
Example sort_file_glues_lines :
  sort_file (py "b" ++ [LF] ++ py "a") = py "ab" ++ [LF] /\
  read_text (sort_file open_ended)
    = [open_record "k" "b" ++ record "k" "b"; record "k" "ba"] /\
  is_sorted (read_text (sort_file open_ended)) = false.
Proof. vm_compute. repeat split. Qed.

(** X25.  When every mapper-output file is empty or ends in a line feed,
    the group stage succeeds and each reducer-input file [i] it writes has
    its lines in non-decreasing whole-line order, so lines that share a key
    are contiguous. *)
Theorem group_stage_order_within_partition
  (input_dir output_dir : dir) (i : nat) :
  all_terminated input_dir -> i < MAX_NUM_REDUCE ->
  exists in' out' data,
    group_stage input_dir output_dir = OK (in', out', MAX_NUM_REDUCE) /\
    reducer_input out' i = Some data /\
    Sorted str_le (read_text data) /\
    keys_contiguous (read_text data).
Proof.
  intros Ht Hi. rewrite group_stage_eq. do 3 eexists.
  split; [reflexivity|]. split; [now apply reducer_input_close|].
  rewrite read_reducer_input by assumption.
  assert (StronglySorted str_le (bucket i (merged_lines input_dir))) as Hs.
  { apply bucket_sorted. rewrite merged_lines_sorted by assumption.
    apply sorted_sorted. }
  split; [now apply StronglySorted_Sorted|].
  apply sorted_keys_contiguous; [|exact Hs].
  apply bucket_incl.
  eapply Forall_impl; [|now apply merged_lines_text]. now intros l [Hl _].
Qed.

Lemma group_stage_order_within_partition_witness :
  all_terminated wc_mapper_output /\ 1 < MAX_NUM_REDUCE /\
  exists in' out' data,
    group_stage wc_mapper_output [] = OK (in', out', MAX_NUM_REDUCE) /\
    reducer_input out' 1 = Some data /\
    Sorted str_le (read_text data) /\
    keys_contiguous (read_text data).
Proof.
  assert (all_terminated wc_mapper_output) as Ht
    by (repeat constructor).
  assert (1 < MAX_NUM_REDUCE) as Hi by (unfold MAX_NUM_REDUCE; lia).
  split; [exact Ht|]. split; [exact Hi|].
  exact (group_stage_order_within_partition wc_mapper_output [] 1 Ht Hi).
Defined.

(** C1.  The group stage on one mapper-output file of three records with
    the same key, the last one without a line feed: the sort leaves the
    file with that record run into the next one, out of order, and the
    reducer-input file of the key has its lines in decreasing order. *)
Theorem group_stage_order_unterminated :
  exists in' out' data,
    group_stage [("part-00000"%string, open_ended)] []
      = OK (in', out', MAX_NUM_REDUCE) /\
    reducer_input out' 3 = Some data /\
    ~ Sorted str_le (read_text data).
Proof.
  do 3 eexists. split; [vm_compute; reflexivity|].
  split; [vm_compute; reflexivity|].
  intros H. apply Sorted_is_sorted in H. vm_compute in H. discriminate.
Qed.

(** X26.  When every mapper-output file is empty or ends in a line feed, a
    record with key [K] is, with all its occurrences, in the reducer-input
    file numbered by the MD5 digest of [K] modulo the ceiling, and occurs in
    no other reducer-input file. *)
Theorem group_stage_key_locality
  (input_dir output_dir : dir) (K line : str) (i : nat) :
  all_terminated input_dir ->
  In line (mapper_lines input_dir) ->
  partition_tab_head line = K ->
  i < MAX_NUM_REDUCE ->
  exists in' out' data,
    group_stage input_dir output_dir = OK (in', out', MAX_NUM_REDUCE) /\
    reducer_input out' i = Some data /\
    count_occ str_eq_dec (read_text data) line =
      if Z.to_nat (keyhash K mod Z.of_nat MAX_NUM_REDUCE) =? i
      then count_occ str_eq_dec (mapper_lines input_dir) line
      else 0.
Proof.
  intros Ht _ HK Hi. rewrite group_stage_eq. do 3 eexists.
  split; [reflexivity|]. split; [now apply reducer_input_close|].
  rewrite read_reducer_input by assumption.
  rewrite bucket_count. unfold reducer_idx. rewrite HK.
  destruct (_ =? i); [|reflexivity].
  apply Permutation_count_occ.
  rewrite merged_lines_sorted by assumption. apply sorted_perm.
Qed.

Lemma group_stage_key_locality_witness :
  all_terminated wc_mapper_output /\
  In (record "a" "1") (mapper_lines wc_mapper_output) /\
  partition_tab_head (record "a" "1") = py "a" /\
  1 < MAX_NUM_REDUCE /\
  exists in' out' data,
    group_stage wc_mapper_output [] = OK (in', out', MAX_NUM_REDUCE) /\
    reducer_input out' 1 = Some data /\
    count_occ str_eq_dec (read_text data) (record "a" "1") =
      if Z.to_nat (keyhash (py "a") mod Z.of_nat MAX_NUM_REDUCE) =? 1
      then count_occ str_eq_dec (mapper_lines wc_mapper_output)
             (record "a" "1")
      else 0.
Proof.
  assert (all_terminated wc_mapper_output) as Ht by (repeat constructor).
  assert (In (record "a" "1") (mapper_lines wc_mapper_output)) as Hin
    by (vm_compute; tauto).
  assert (partition_tab_head (record "a" "1") = py "a") as HK
    by reflexivity.
  assert (1 < MAX_NUM_REDUCE) as Hi by (unfold MAX_NUM_REDUCE; lia).
  repeat (split; [assumption|]).
  exact (group_stage_key_locality wc_mapper_output [] (py "a")
           (record "a" "1") 1 Ht Hin HK Hi).
Defined.

(** C2.  The group stage on two mapper-output files, the first ending in a
    record without a line feed: the record [b TAB 2] is among the mapper
    output and its key hashes to reducer 3, yet it is not a record of
    reducer-input file 3: the sort glued it behind [a TAB 1], and the glued
    line went to reducer 1, while the other record with key [b] is in
    file 3. *)
Theorem group_stage_key_locality_unterminated :
  In (record "b" "2") (mapper_lines split_key_output) /\
  partition_tab_head (record "b" "2") = py "b" /\
  Z.to_nat (keyhash (py "b") mod Z.of_nat MAX_NUM_REDUCE) = 3 /\
  exists in' out',
    group_stage split_key_output [] = OK (in', out', MAX_NUM_REDUCE) /\
    reducer_input out' 3 = Some (record "b" "3") /\
    reducer_input out' 1 = Some (open_record "a" "1" ++ record "b" "2").
Proof.
  split; [vm_compute; tauto|]. split; [reflexivity|].
  split; [vm_compute; reflexivity|].
  do 2 eexists. split; [vm_compute; reflexivity|].
  split; vm_compute; reflexivity.
Qed.

(** X27.  When every mapper-output file is empty or ends in a line feed,
    the reducer-input files hold together as many records as the
    mapper-output files. *)
Theorem group_stage_conservation (input_dir output_dir : dir) :
  all_terminated input_dir ->
  exists in' out',
    group_stage input_dir output_dir = OK (in', out', MAX_NUM_REDUCE) /\
    reducer_records out' MAX_NUM_REDUCE = mapper_records input_dir.
Proof.
  intros Ht. rewrite group_stage_eq. do 2 eexists. split; [reflexivity|].
  unfold reducer_records.
  transitivity (list_sum (map (fun i =>
      length (bucket i (merged_lines input_dir))) (seq 0 MAX_NUM_REDUCE))).
  - f_equal. apply map_ext_in. intros i Hi. apply in_seq in Hi.
    rewrite reducer_input_close by lia.
    now rewrite read_reducer_input.
  - rewrite buckets_length, merged_lines_sorted by assumption.
    rewrite (Permutation_length (sorted_perm _)).
    unfold mapper_lines, mapper_records.
    rewrite length_concat, map_map. reflexivity.
Qed.

Lemma group_stage_conservation_witness :
  all_terminated wc_mapper_output /\
  exists in' out',
    group_stage wc_mapper_output [] = OK (in', out', MAX_NUM_REDUCE) /\
    reducer_records out' MAX_NUM_REDUCE = mapper_records wc_mapper_output.
Proof.
  assert (all_terminated wc_mapper_output) as Ht by (repeat constructor).
  split; [exact Ht|].
  exact (group_stage_conservation wc_mapper_output [] Ht).
Defined.

(** C3.  The group stage on one mapper-output file of two records, the
    second without a line feed: two records go in and one comes out. *)
Theorem group_stage_conservation_unterminated :
  exists in' out',
    group_stage [("part-00000"%string, py "b" ++ [LF] ++ py "a")] []
      = OK (in', out', MAX_NUM_REDUCE) /\
    mapper_records [("part-00000"%string, py "b" ++ [LF] ++ py "a")] = 2 /\
    reducer_records out' MAX_NUM_REDUCE = 1.
Proof.
  do 2 eexists. split; [vm_compute; reflexivity|].
  split; vm_compute; reflexivity.
Qed.


(** X28.  When every mapper-output file is empty or ends in a line feed,
    the reducer-input files do not depend on the order in which the
    mapper-output files are enumerated. *)
Theorem group_stage_deterministic (dir1 dir2 output_dir : dir) :
  Permutation dir1 dir2 ->
  all_terminated dir1 ->
  exists in1 in2 out',
    group_stage dir1 output_dir = OK (in1, out', MAX_NUM_REDUCE) /\
    group_stage dir2 output_dir = OK (in2, out', MAX_NUM_REDUCE).
Proof.
  intros P Ht.
  assert (all_terminated dir2) as Ht2
    by (eapply Permutation_Forall; eassumption).
  rewrite !group_stage_eq. do 3 eexists. split; [reflexivity|].
  replace (merged_lines dir2) with (merged_lines dir1); [reflexivity|].
  rewrite !merged_lines_sorted by assumption.
  apply sorted_unique; try apply sorted_sorted.
  rewrite !sorted_perm. unfold mapper_lines.
  rewrite <- !flat_map_concat_map. now apply Permutation_flat_map.
Qed.

Lemma group_stage_deterministic_witness :
  Permutation wc_mapper_output (rev wc_mapper_output) /\
  all_terminated wc_mapper_output /\
  exists in1 in2 out',
    group_stage wc_mapper_output [] = OK (in1, out', MAX_NUM_REDUCE) /\
    group_stage (rev wc_mapper_output) [] = OK (in2, out', MAX_NUM_REDUCE).
Proof.
  assert (Permutation wc_mapper_output (rev wc_mapper_output)) as P
    by apply Permutation_rev.
  assert (all_terminated wc_mapper_output) as Ht by (repeat constructor).
  split; [exact P|]. split; [exact Ht|].
  exact (group_stage_deterministic wc_mapper_output (rev wc_mapper_output)
           [] P Ht).
Defined.

(** C5.  The group stage on two mapper-output files, one with a last line
    without a line feed, enumerated in the two possible orders: the sorted
    file is no longer in order, the merge breaks the tie between two equal
    first lines by the position of the file, and the two orders give
    different bytes in reducer-input file 3. *)
Theorem group_stage_order_of_files_unterminated :
  let dir1 := [("part-00000", open_ended); ("part-00001", glued_twin)]%string in
  let dir2 := [("part-00001", glued_twin); ("part-00000", open_ended)]%string in
  Permutation dir1 dir2 /\
  exists in1 out1 in2 out2,
    group_stage dir1 [] = OK (in1, out1, MAX_NUM_REDUCE) /\
    group_stage dir2 [] = OK (in2, out2, MAX_NUM_REDUCE) /\
    reducer_input out1 3 <> reducer_input out2 3.
Proof.
  split; [apply perm_swap|].
  do 4 eexists. split; [vm_compute; reflexivity|].
  split; [vm_compute; reflexivity|].
  vm_compute. discriminate.
Qed.

(** ** [part_filename] is injective *)

Lemma uint_of_zeros (k : nat) (s : string) (d : Decimal.uint) :
  NilEmpty.uint_of_string s = Some d ->
  exists d', NilEmpty.uint_of_string (String.append (zeros k) s) = Some d'
             /\ Nat.of_uint d' = Nat.of_uint d.
Proof.
  intros H. induction k as [|k (d' & E & V)]; simpl.
  - now exists d.
  - rewrite E. exists (Decimal.D0 d'). split; [reflexivity|].
    rewrite <- V. reflexivity.
Qed.

Lemma parse_part_prefix (s : string) :
  parse_part (String.append "part-" s)
  = option_map Nat.of_uint (NilEmpty.uint_of_string s).
Proof. reflexivity. Qed.

Lemma parse_part_filename (n : nat) : parse_part (part_filename n) = Some n.
Proof.
  unfold part_filename, format_05d. rewrite parse_part_prefix.
  destruct (uint_of_zeros
              (5 - String.length (NilEmpty.string_of_uint (Nat.to_uint n)))
              _ _ (NilEmpty.usu (Nat.to_uint n))) as (d' & E & V).
  rewrite E. simpl. rewrite V. f_equal. apply DecimalNat.Unsigned.of_to.
Qed.

Lemma part_filename_inj (m n : nat) :
  part_filename m = part_filename n -> m = n.
Proof.
  intros H. pose proof (parse_part_filename m) as Hm.
  rewrite H, parse_part_filename in Hm. congruence.
Qed.

(** ** Round-robin splitting *)

Lemma num_split_of_0 : num_split_of 0 = 0.
Proof. reflexivity. Qed.

Lemma nearest_double_small (n : Z) :
  (0 <= n < 2 ^ 53)%Z -> nearest_double n = n.
Proof.
  intros [H0 H]. unfold nearest_double.
  destruct (Z.eq_dec n 0) as [->|Hn]; [reflexivity|].
  assert (Z.log2 n < 53)%Z as L by (apply Z.log2_lt_pow2; lia).
  destruct (Z.leb_spec (Z.log2 n - 52) 0); [reflexivity|lia].
Qed.

Lemma nearest_double_large (n : Z) :
  (2 ^ 53 <= n)%Z -> (2 ^ 53 <= nearest_double n)%Z.
Proof.
  intros H. unfold nearest_double.
  assert (53 <= Z.log2 n)%Z as L by (apply Z.log2_le_pow2; lia).
  destruct (Z.leb_spec (Z.log2 n - 52) 0) as [|_]; [lia|].
  set (e := (Z.log2 n - 52)%Z).
  assert (1 <= e)%Z as He by (unfold e; lia).
  assert (2 ^ 1 <= 2 ^ e)%Z as P by (apply Z.pow_le_mono_r; lia).
  assert (2 ^ 52 * 2 ^ e <= n)%Z as Q.
  { rewrite <- Z.pow_add_r by lia.
    replace (52 + e)%Z with (Z.log2 n) by (unfold e; lia).
    apply Z.log2_spec. lia. }
  assert (2 ^ 52 <= n / 2 ^ e)%Z as M
    by (apply Z.div_le_lower_bound; lia).
  change (2 ^ 1)%Z with 2%Z in P. change (2 ^ 53)%Z with (2 ^ 52 * 2)%Z.
  destruct ((2 ^ (e - 1) <? n mod 2 ^ e)%Z
            || ((2 ^ (e - 1) =? n mod 2 ^ e)%Z && Z.odd (n / 2 ^ e))); nia.
Qed.

Lemma num_split_of_small (size : Z) :
  (0 < size <= MAX_INPUT_SPLIT_SIZE)%Z -> num_split_of size = 1.
Proof.
  unfold num_split_of, MAX_INPUT_SPLIT_SIZE. intros H.
  rewrite nearest_double_small by lia.
  assert (- size / 2 ^ 20 = -1)%Z as ->; [|reflexivity].
  symmetry. apply (Z.div_unique_pos _ _ _ (2 ^ 20 - size)); lia.
Qed.

Lemma num_split_of_large (size : Z) :
  (MAX_INPUT_SPLIT_SIZE < size)%Z -> 2 <= num_split_of size.
Proof.
  unfold num_split_of, MAX_INPUT_SPLIT_SIZE. intros H.
  assert (2 ^ 20 < nearest_double size)%Z as F.
  { destruct (Z_lt_le_dec size (2 ^ 53)) as [S|S].
    - rewrite nearest_double_small by lia. exact H.
    - pose proof (nearest_double_large size S). lia. }
  assert (- nearest_double size / 2 ^ 20 < -1)%Z; [|lia].
  apply Z.div_lt_upper_bound; lia.
Qed.

Lemma splits_0 (data : str) : splits data = 0 -> data = [].
Proof.
  unfold splits. destruct data as [|c data]; [reflexivity|].
  intros H. exfalso.
  destruct (Z_le_gt_dec (Z.of_nat (length (c :: data))) MAX_INPUT_SPLIT_SIZE).
  - rewrite num_split_of_small in H; [discriminate|].
    simpl length in *. lia.
  - pose proof (num_split_of_large (Z.of_nat (length (c :: data)))). lia.
Qed.

Lemma write_nth_named (name : nat -> string) (line : str) (N : nat) :
  forall (buf : nat -> str) (s idx : nat),
  idx < N ->
  write_nth idx line (map (fun j => (name j, buf j)) (seq s N)) =
  Some (map (fun j => (name j, if j =? s + idx then buf j ++ line else buf j))
          (seq s N)).
Proof.
  induction N as [|N IH]; intros buf s idx Hi; [lia|].
  cbn [seq map]. destruct idx as [|idx]; cbn [write_nth].
  - rewrite Nat.add_0_r, Nat.eqb_refl. do 2 f_equal.
    apply map_ext_in. intros j Hj. apply in_seq in Hj.
    destruct (Nat.eqb_spec j s); [lia | reflexivity].
  - rewrite (IH buf (S s) idx) by lia.
    destruct (Nat.eqb_spec s (s + S idx)); [lia|]. do 2 f_equal.
    apply map_ext_in. intros j Hj.
    now replace (S s + idx) with (s + S idx) by lia.
Qed.

Lemma write_loop (name : nat -> string) (N : nat) (lines : list str) :
  0 < N ->
  forall (buf : nat -> str) (k : nat),
  for_each (write_round_robin N) (enumerate_from k lines)
    (map (fun j => (name j, buf j)) (seq 0 N)) =
  OK (map (fun j => (name j,
        buf j ++ concat (map snd (filter (fun il => fst il mod N =? j)
                                    (enumerate_from k lines)))))
        (seq 0 N)).
Proof.
  intros HN. induction lines as [|l lines IH]; intros buf k;
    cbn [enumerate_from for_each].
  - f_equal. apply map_ext. intros j. cbn. now rewrite app_nil_r.
  - unfold write_round_robin at 1.
    destruct N as [|N']; [lia|]. set (N := S N') in *.
    rewrite write_nth_named by (apply Nat.mod_upper_bound; lia).
    cbn [bind]. rewrite IH. f_equal. apply map_ext. intros j.
    f_equal. cbn [filter fst]. rewrite Nat.add_0_l.
    destruct (Nat.eqb_spec j (k mod N)) as [->|Hne].
    + rewrite Nat.eqb_refl. cbn [map snd concat]. now rewrite <- app_assoc.
    + destruct (Nat.eqb_spec (k mod N) j); [congruence | reflexivity].
Qed.

(** One input file: its partitions are opened under the next ordinals and
    receive its lines in round robin. *)
Lemma split_file_spec (output_dir : dir) (part_num : nat) (data : str) :
  split_file (output_dir, part_num) data =
  OK (close_all
        (map (fun j => (part_filename (part_num + j),
                        concat (round_robin (splits data) j (read_text data))))
           (seq 0 (splits data)))
        output_dir,
      part_num + splits data).
Proof.
  unfold split_file. cbv zeta. fold (splits data).
  destruct (splits data) as [|N'] eqn:E.
  - apply splits_0 in E. subst data. reflexivity.
  - unfold open_w, enumerate. rewrite map_map.
    pose proof (write_loop (fun j => part_filename (part_num + j)) (S N')
                  (read_text data) (Nat.lt_0_succ N') (fun _ => []) 0) as W.
    refine (eq_trans (f_equal (fun r => bind r (fun out_files =>
      OK (close_all out_files output_dir, part_num + S N'))) W) _).
    reflexivity.
Qed.

(** ** Closing files into a directory *)

Lemma close_all_cons (f : string * str) (files : handles) (d : dir) :
  close_all (f :: files) d = close_all files (entry_set (fst f) (snd f) d).
Proof. reflexivity. Qed.

Lemma close_all_find_other (files : handles) (name : string) :
  forall d : dir,
  ~ In name (map fst files) ->
  entry_find name (close_all files d) = entry_find name d.
Proof.
  induction files as [|[n c] files IH]; intros d Hn; [reflexivity|].
  rewrite close_all_cons, IH.
  - apply entry_find_set_other. intros E. apply Hn. now left.
  - intros I. apply Hn. now right.
Qed.

Lemma close_all_find_in (files : handles) (name : string) (data : str) :
  forall d : dir,
  NoDup (map fst files) -> In (name, data) files ->
  entry_find name (close_all files d) = Some data.
Proof.
  induction files as [|[n c] files IH]; intros d Hnd Hin; [destruct Hin|].
  inversion Hnd as [|? ? Hn Hnd']; subst. rewrite close_all_cons.
  destruct Hin as [[= -> ->]|Hin].
  - rewrite close_all_find_other by assumption. apply entry_find_set_same.
  - now apply IH.
Qed.

Lemma entry_set_fresh {A : Type} (name : string) (a : A) (d : entries A) :
  ~ In name (map fst d) -> map fst (entry_set name a d) = map fst d ++ [name].
Proof.
  induction d as [|[n b] d IH]; simpl; intros H; [reflexivity|].
  destruct (string_dec n name) as [E|_]; [exfalso; apply H; now left|].
  simpl. rewrite IH; [reflexivity|]. intros I. apply H. now right.
Qed.

Lemma close_all_names (files : handles) :
  forall d : dir,
  NoDup (map fst d ++ map fst files) ->
  map fst (close_all files d) = map fst d ++ map fst files.
Proof.
  induction files as [|[n c] files IH]; intros d Hnd.
  - simpl. now rewrite app_nil_r.
  - change (close_all ((n, c) :: files) d)
      with (close_all files (entry_set n c d)).
    change (map fst ((n, c) :: files)) with (n :: map fst files) in *.
    assert (~ In n (map fst d)) as Hn.
    { intros I. apply NoDup_remove_2 in Hnd. apply Hnd.
      apply in_or_app. now left. }
    rewrite IH; rewrite (entry_set_fresh n c d Hn), <- app_assoc;
      [reflexivity | exact Hnd].
Qed.

(** ** The loop over the input files *)

Lemma for_each_split_file (files : list str) :
  forall (d : dir) (p : nat),
  for_each split_file files (d, p) = OK (split_all files d p).
Proof.
  induction files as [|data files IH]; intros d p; [reflexivity|].
  cbn [for_each]. rewrite split_file_spec. cbn [bind]. now rewrite IH.
Qed.

Lemma split_all_count (files : list str) :
  forall (d : dir) (p : nat),
  snd (split_all files d p) = p + total_splits files.
Proof.
  unfold total_splits.
  induction files as [|data files IH]; intros d p; simpl; [lia|].
  rewrite IH. lia.
Qed.

Lemma seq_from (n : nat) :
  forall p, map (fun j => p + j) (seq 0 n) = seq p n.
Proof.
  induction n as [|n IH]; intros p; [reflexivity|].
  cbn [seq map]. rewrite Nat.add_0_r. f_equal.
  rewrite <- seq_shift, map_map, <- (IH (S p)).
  apply map_ext. intros j. lia.
Qed.

Lemma parts_names (p : nat) (data : str) :
  map fst (parts p data) = map part_filename (seq p (splits data)).
Proof.
  unfold parts. rewrite map_map. cbn [fst].
  rewrite <- (seq_from (splits data) p), map_map. reflexivity.
Qed.

Lemma part_names_NoDup (p n : nat) : NoDup (map part_filename (seq p n)).
Proof.
  apply Injective_map_NoDup; [|apply seq_NoDup].
  intros a b. apply part_filename_inj.
Qed.

Lemma part_name_in (m p n : nat) :
  In (part_filename m) (map part_filename (seq p n)) -> p <= m < p + n.
Proof.
  intros I. apply in_map_iff in I. destruct I as (k & E & Hk).
  apply part_filename_inj in E. subst. now apply in_seq in Hk.
Qed.

Lemma split_all_preserves (files : list str) (m : nat) :
  forall (d : dir) (p : nat),
  m < p ->
  entry_find (part_filename m) (fst (split_all files d p))
  = entry_find (part_filename m) d.
Proof.
  induction files as [|data files IH]; intros d p Hm; [reflexivity|].
  cbn [split_all]. rewrite IH by lia.
  apply close_all_find_other. rewrite parts_names.
  intros I. apply part_name_in in I. lia.
Qed.

Lemma split_all_names (files : list str) :
  forall (d : dir) (p : nat),
  map fst d = map part_filename (seq 0 p) ->
  map fst (fst (split_all files d p))
  = map part_filename (seq 0 (p + total_splits files)).
Proof.
  unfold total_splits.
  induction files as [|data files IH]; intros d p Hd; simpl.
  - now rewrite Nat.add_0_r.
  - rewrite IH.
    + f_equal. f_equal. lia.
    + rewrite close_all_names; rewrite Hd, parts_names, <- map_app, <- seq_app.
      * reflexivity.
      * apply part_names_NoDup.
Qed.

Lemma split_all_found (pre : list str) (data : str) (post : list str)
  (j : nat) :
  j < splits data ->
  forall (d : dir) (p : nat),
  entry_find (part_filename (p + total_splits pre + j))
    (fst (split_all (pre ++ data :: post) d p))
  = Some (concat (round_robin (splits data) j (read_text data))).
Proof.
  intros Hj. unfold total_splits.
  induction pre as [|x pre IH]; intros d p; simpl.
  - rewrite split_all_preserves by lia.
    apply close_all_find_in.
    + rewrite parts_names. apply part_names_NoDup.
    + unfold parts. apply in_map_iff. exists j.
      split; [f_equal; f_equal; lia | apply in_seq; lia].
  - rewrite <- (IH (close_all (parts p x) d) (p + splits x)).
    f_equal. f_equal. lia.
Qed.

(** ** The claims on the input preparer *)

Lemma prepare_input_files_spec (fs : node) (input_dir : path)
  (children : entries node) :
  lookup input_dir fs = Some (Dir children) ->
  prepare_input_files fs input_dir [] =
  OK (fst (split_all (regular_files children) [] 0),
      total_splits (regular_files children)).
Proof.
  intros H. unfold prepare_input_files. rewrite H.
  fold (regular_files children). rewrite for_each_split_file.
  rewrite (surjective_pairing (split_all _ _ _)) at 1.
  now rewrite split_all_count.
Qed.

(** C6, at the failing input: an empty input file, whose size is under the
    split threshold, gets no partition at all; the claim (and the docstring
    of [prepare_input_files]) gives it one.  A file of exactly the threshold
    gets one partition, a file one byte larger two. *)
Theorem prepare_input_files_empty_file :
  num_split_of 0 = 0 /\
  prepare_input_files fs_empty_file ["input"%string] [] = OK ([], 0) /\
  num_split_of MAX_INPUT_SPLIT_SIZE = 1 /\
  num_split_of (MAX_INPUT_SPLIT_SIZE + 1) = 2.
Proof. repeat split; reflexivity. Qed.

Lemma round_robin_from (N j : nat) (lines : list str) :
  forall k,
  map snd (filter (fun il => fst il mod N =? j) (enumerate_from k lines))
  = map (fun i => nth (i - k) lines [])
      (filter (fun i => i mod N =? j) (seq k (length lines))).
Proof.
  induction lines as [|x lines IH]; intros k; [reflexivity|].
  cbn [enumerate_from length seq filter fst].
  assert (map (fun i => nth (i - S k) lines [])
            (filter (fun i => i mod N =? j) (seq (S k) (length lines)))
          = map (fun i => nth (i - k) (x :: lines) [])
              (filter (fun i => i mod N =? j) (seq (S k) (length lines))))
    as Tail.
  { apply map_ext_in. intros i Hi. apply filter_In in Hi.
    destruct Hi as [Hi _]. apply in_seq in Hi.
    replace (i - k) with (S (i - S k)) by lia. reflexivity. }
  destruct (k mod N =? j); cbn [map snd]; rewrite IH, Tail;
    [now rewrite Nat.sub_diag | reflexivity].
Qed.

(** The round robin of the code sends the line at position [i] to the
    partition [i mod N]. *)
Lemma round_robin_every_nth (N j : nat) (lines : list str) :
  round_robin N j lines = every_nth N j lines.
Proof.
  unfold round_robin, enumerate, every_nth. rewrite round_robin_from.
  apply map_ext. intros i. now rewrite Nat.sub_0_r.
Qed.

(** C7.  Partition [j] of a source file split into [N] partitions holds the
    lines of that file, and only those, whose position in the file, counted
    from 0, is [j] modulo [N], in the order of the file; its ordinal is [j]
    past the number of partitions of the files before it; the ordinals of
    all partitions are 0, 1, ... without a gap, and their number is
    returned. *)
Theorem prepare_input_files_round_robin
  (fs : node) (input_dir : path) (children : entries node)
  (pre : list str) (data : str) (post : list str) (j : nat) :
  lookup input_dir fs = Some (Dir children) ->
  regular_files children = pre ++ data :: post ->
  j < splits data ->
  exists out,
    prepare_input_files fs input_dir [] =
      OK (out, total_splits (pre ++ data :: post)) /\
    map fst out =
      map part_filename (seq 0 (total_splits (pre ++ data :: post))) /\
    entry_find (part_filename (total_splits pre + j)) out =
      Some (concat
        (map (fun i => nth i (read_text data) [])
           (filter (fun i => i mod splits data =? j)
              (seq 0 (length (read_text data)))))).
Proof.
  intros Hd Hf Hj. rewrite (prepare_input_files_spec _ _ _ Hd), Hf.
  eexists. split; [reflexivity|]. split.
  - now rewrite split_all_names.
  - fold (every_nth (splits data) j (read_text data)).
    rewrite <- round_robin_every_nth.
    now rewrite <- (split_all_found pre data post j Hj [] 0).
Qed.

Lemma prepare_input_files_round_robin_witness :
  let children := [("big.txt"%string, File big_file)] in
  lookup ["input"%string] fs_big_file = Some (Dir children) /\
  regular_files children = [] ++ big_file :: [] /\
  1 < splits big_file /\
  exists out,
    prepare_input_files fs_big_file ["input"%string] [] =
      OK (out, total_splits ([] ++ big_file :: [])) /\
    map fst out =
      map part_filename (seq 0 (total_splits ([] ++ big_file :: []))) /\
    entry_find (part_filename (total_splits [] + 1)) out =
      Some (concat
        (map (fun i => nth i (read_text big_file) [])
           (filter (fun i => i mod splits big_file =? 1)
              (seq 0 (length (read_text big_file)))))).
Proof.
  intros children.
  assert (lookup ["input"%string] fs_big_file = Some (Dir children)) as Hd
    by reflexivity.
  assert (regular_files children = [] ++ big_file :: []) as Hf by reflexivity.
  assert (1 < splits big_file) as Hj by (vm_compute; lia).
  split; [exact Hd|]. split; [exact Hf|]. split; [exact Hj|].
  exact (prepare_input_files_round_robin fs_big_file ["input"%string]
           children [] big_file [] 1 Hd Hf Hj).
Defined.

(** Two partitions, three lines: the first and the third line go to the
    first partition, the second line to the second. *)
Example write_round_robin_three_lines :
  for_each (write_round_robin 2)
    (enumerate [py "one" ++ [LF]; py "two" ++ [LF]; py "three" ++ [LF]])
    (open_w [part_filename 0; part_filename 1])
  = OK [ (part_filename 0, py "one" ++ [LF] ++ py "three" ++ [LF]);
         (part_filename 1, py "two" ++ [LF]) ].
Proof. reflexivity. Qed.

Example prepare_input_files_two_files :
  prepare_input_files fs_two_files ["input"%string] [] =
  OK ([("part-00000"%string, py "x y" ++ [LF] ++ py "z" ++ [LF]);
       ("part-00001"%string, py "u" ++ [LF] ++ py "v")], 2).
Proof. reflexivity. Qed.

(** ** The file system tree *)

Lemma lookup_app (p q : path) :
  forall fs : node,
  lookup (p ++ q) fs =
  match lookup p fs with Some n => lookup q n | None => None end.
Proof.
  induction p as [|c p IH]; intros fs; [reflexivity|].
  simpl. destruct fs as [data|children]; [reflexivity|].
  destruct (entry_find c children); [apply IH | reflexivity].
Qed.

Lemma put_lookup_same (p : path) (new : node) :
  forall fs fs' : node, put p new fs = Some fs' -> lookup p fs' = Some new.
Proof.
  induction p as [|c p IH]; intros fs fs'; simpl.
  - now intros [= ->].
  - destruct fs as [data|children]; [discriminate|].
    destruct (entry_find c children) as [m|] eqn:E.
    + destruct (put p new m) as [m'|] eqn:P; [|discriminate].
      intros [= <-]. simpl. rewrite entry_find_set_same. now apply (IH m).
    + destruct p; [|discriminate].
      intros [= <-]. simpl. now rewrite entry_find_set_same.
Qed.

(** Adding a child to an existing directory. *)
Lemma put_child (p : path) (name : string) (new : node) :
  forall (fs : node) (children : entries node),
  lookup p fs = Some (Dir children) ->
  exists fs',
    put (p ++ [name]) new fs = Some fs' /\
    lookup p fs' = Some (Dir (entry_set name new children)).
Proof.
  induction p as [|c p IH]; intros fs children; simpl.
  - intros [= ->]. destruct (entry_find name children); eauto.
  - destruct fs as [data|ch]; [discriminate|].
    destruct (entry_find c ch) as [m|] eqn:E; [|discriminate].
    intros H. destruct (IH m children H) as (m' & P & L).
    rewrite P. eexists. split; [reflexivity|].
    simpl. now rewrite entry_find_set_same.
Qed.

Lemma same_entry_refl (a : option node) : same_entry a a.
Proof. destruct a as [[x|ch]|]; simpl; trivial. Qed.

(** Creating a directory where there was nothing changes no other path. *)
Lemma put_fresh_lookup (p : path) :
  forall (fs fs' : node) (q : path),
  lookup p fs = None -> put p (Dir []) fs = Some fs' -> q <> p ->
  same_entry (lookup q fs) (lookup q fs').
Proof.
  induction p as [|c p IH]; intros fs fs' q; simpl; [discriminate|].
  destruct fs as [data|ch]; [discriminate|].
  destruct (entry_find c ch) as [m|] eqn:E.
  - intros Hn. destruct (put p (Dir []) m) as [m'|] eqn:P; [|discriminate].
    intros [= <-] Hq. destruct q as [|d q]; simpl; [trivial|].
    destruct (string_dec d c) as [->|Hd].
    + rewrite E, entry_find_set_same. apply (IH m m' q Hn P). congruence.
    + rewrite entry_find_set_other by assumption. apply same_entry_refl.
  - intros _. destruct p; [|discriminate].
    intros [= <-] Hq. destruct q as [|d q]; simpl; [trivial|].
    destruct (string_dec d c) as [->|Hd].
    + rewrite E, entry_find_set_same.
      destruct q as [|e q]; [congruence|]. simpl. trivial.
    + rewrite entry_find_set_other by assumption. apply same_entry_refl.
Qed.

Lemma mkdir_inv (p : path) (fs fs' : node) :
  mkdir p fs = OK fs' ->
  lookup p fs = None /\ put p (Dir []) fs = Some fs' /\
  lookup p fs' = Some (Dir []).
Proof.
  unfold mkdir, path_exists. destruct (lookup p fs) eqn:L; [discriminate|].
  destruct (put p (Dir []) fs) as [fs1|] eqn:P; [|discriminate].
  intros [= <-]. repeat split; trivial. now apply (put_lookup_same p _ fs).
Qed.

Lemma mkdir_read_file (p q : path) (fs fs' : node) (data : str) :
  mkdir p fs = OK fs' -> read_file q fs = OK data -> read_file q fs' = OK data.
Proof.
  intros M R. destruct (mkdir_inv _ _ _ M) as (L & P & _).
  unfold read_file in *.
  assert (q <> p) as Hq by (intros ->; rewrite L in R; discriminate).
  pose proof (put_fresh_lookup p fs fs' q L P Hq) as S.
  destruct (lookup q fs) as [[x|ch]|]; try discriminate.
  destruct (lookup q fs') as [[y|ch']|]; simpl in S; try contradiction.
  congruence.
Qed.

Lemma mkdir_is_dir (p q : path) (fs fs' : node) :
  mkdir p fs = OK fs' -> q <> p -> is_dir q fs' = is_dir q fs.
Proof.
  intros M Hq. destruct (mkdir_inv _ _ _ M) as (L & P & _).
  pose proof (put_fresh_lookup p fs fs' q L P Hq) as S.
  unfold is_dir.
  destruct (lookup q fs) as [[x|ch]|], (lookup q fs') as [[y|ch']|];
    simpl in S; try contradiction; reflexivity.
Qed.

(** ** Tasks and the final copy *)

Lemma entry_find_in {A : Type} (name : string) (a : A) (d : entries A) :
  entry_find name d = Some a -> In (name, a) d.
Proof.
  induction d as [|[n b] d IH]; simpl; [discriminate|].
  destruct (string_dec n name) as [->|_].
  - intros [= ->]. now left.
  - intros H. right. now apply IH.
Qed.

Lemma entry_set_Forall {A : Type} (P : string * A -> Prop) (name : string)
  (a : A) (d : entries A) :
  (forall n, P (n, a)) -> Forall P d -> Forall P (entry_set name a d).
Proof.
  intros Pa. induction 1 as [|[n b] d Hb Hd IH]; simpl.
  - constructor; [apply Pa | constructor].
  - destruct (string_dec n name); constructor; auto.
Qed.

Lemma entry_set_all_names {A B : Type} (g : B -> A)
  (items : list (string * B)) :
  forall d : entries A,
  NoDup (map fst d ++ map fst items) ->
  map fst (fold_left (fun d f => entry_set (fst f) (g (snd f)) d) items d)
  = map fst d ++ map fst items.
Proof.
  induction items as [|[n c] items IH]; intros d Hnd.
  - simpl. now rewrite app_nil_r.
  - cbn [fold_left fst snd].
    change (map fst ((n, c) :: items)) with (n :: map fst items) in *.
    assert (~ In n (map fst d)) as Hn.
    { intros I. apply NoDup_remove_2 in Hnd. apply Hnd.
      apply in_or_app. now left. }
    rewrite IH; rewrite (entry_set_fresh n (g c) d Hn), <- app_assoc;
      [reflexivity | exact Hnd].
Qed.

(** Enumerating a directory yields its entries, each once. *)
Lemma enumerate_entry_perm (dir_order : string -> nat) (f : string * str)
  (d : dir) :
  Permutation (enumerate_entry dir_order f d) (f :: d).
Proof.
  induction d as [|g d IH]; simpl; [reflexivity|].
  destruct (dir_order (fst g) <=? dir_order (fst f)); [|reflexivity].
  rewrite IH. apply perm_swap.
Qed.

Lemma iterdir_perm (dir_order : string -> nat) (d : dir) :
  Permutation (iterdir dir_order d) d.
Proof.
  induction d as [|f d IH]; simpl; [reflexivity|].
  rewrite enumerate_entry_perm. now constructor.
Qed.

Example iterdir_orders :
  iterdir by_ordinal wc_mapper_output = wc_mapper_output /\
  iterdir newest_first wc_mapper_output = rev wc_mapper_output.
Proof. split; reflexivity. Qed.

Section Tasks.

Variable subprocess_run : path -> str -> str * Z.
Variables input_path output_path : path.

(** A stage that returns has written one output file per task. *)
Lemma run_tasks_names (exe : path) (input_dir : dir) (tasks : list nat) :
  forall (output_dir : dir) (started : list spawn)
         (output_dir' : dir) (started' : list spawn),
  run_tasks subprocess_run exe input_path output_path input_dir
    tasks output_dir started
    = (output_dir', started', OK tt) ->
  NoDup (map fst output_dir ++ map part_filename tasks) ->
  map fst output_dir' = map fst output_dir ++ map part_filename tasks.
Proof.
  induction tasks as [|i tasks IH]; intros out started out' started'; simpl.
  - intros [= <- _] _. now rewrite app_nil_r.
  - destruct (entry_find (part_filename i) input_dir) as [stdin|];
      [|discriminate].
    destruct (subprocess_run exe stdin) as [stdout returncode].
    destruct (returncode =? 0)%Z; [|discriminate].
    intros H Hnd.
    assert (~ In (part_filename i) (map fst out)) as Hn.
    { intros I. apply NoDup_remove_2 in Hnd. apply Hnd.
      apply in_or_app. now left. }
    rewrite (IH _ _ _ _ H);
      rewrite (entry_set_fresh _ stdout out Hn), <- app_assoc;
      [reflexivity | exact Hnd].
Qed.

(** A stage starts subprocesses only; those started before stay. *)
Lemma run_tasks_started (exe : path) (input_dir : dir) (tasks : list nat) :
  forall (output_dir : dir) (started : list spawn),
  exists more,
    snd (fst (run_tasks subprocess_run exe input_path output_path input_dir
        tasks output_dir started))
    = started ++ more.
Proof.
  induction tasks as [|i tasks IH]; intros out started; simpl.
  - exists []. now rewrite app_nil_r.
  - destruct (entry_find (part_filename i) input_dir) as [stdin|].
    + destruct (subprocess_run exe stdin) as [stdout returncode].
      destruct (returncode =? 0)%Z.
      * destruct (IH (entry_set (part_filename i) stdout out)
                    (started ++ [(exe, stdin)])) as [more E].
        rewrite E. exists ((exe, stdin) :: more). now rewrite <- app_assoc.
      * now exists [(exe, stdin)].
    + exists []. now rewrite app_nil_r.
Qed.

End Tasks.

(** Copying the files of a directory into an existing directory that holds
    only files. *)
Lemma copy_loop (output_dir : path) (files : dir) :
  forall (fs : node) (children : entries node),
  lookup output_dir fs = Some (Dir children) ->
  all_files children ->
  exists fs' children',
    for_each (fun fs f => shutil_copy (fst f) (snd f) output_dir fs) files fs
      = OK fs' /\
    lookup output_dir fs' = Some (Dir children') /\
    all_files children' /\
    children' =
      fold_left (fun d f => entry_set (fst f) (File (snd f)) d) files children.
Proof.
  induction files as [|[name data] files IH]; intros fs children L F.
  - exists fs, children. simpl. auto.
  - cbn [for_each fst snd fold_left].
    unfold shutil_copy, is_dir. rewrite L. unfold write_file.
    rewrite lookup_app, L.
    assert (match lookup [name] (Dir children) with
            | Some (Dir _) => False | _ => True end) as NotDir.
    { simpl. destruct (entry_find name children) as [m|] eqn:E; [|trivial].
      apply entry_find_in in E. unfold all_files in F.
      rewrite Forall_forall in F. specialize (F _ E).
      destruct m; [trivial | discriminate]. }
    destruct (put_child output_dir name (File data) fs children L)
      as (fs1 & P & L1).
    destruct (lookup [name] (Dir children)) as [[x|ch]|];
      try contradiction; rewrite P; cbn [bind];
      apply IH; try exact L1;
      apply entry_set_Forall; try exact F; reflexivity.
Qed.

(** ** The claims on the orchestrator *)

(** C10.  After a run that returns, the output directory holds exactly the
    four files [part-00000] to [part-00003]. *)
Theorem mapreduce_output_files
  (subprocess_run : path -> str -> str * Z) (tmpdir : path)
  (dir_order : string -> nat)
  (fs : node) (input_dir output_dir map_exe reduce_exe : path)
  (fs' : node) (started : list spawn) :
  mapreduce subprocess_run tmpdir dir_order fs
    input_dir output_dir map_exe reduce_exe
    = (fs', started, OK tt) ->
  exists children,
    lookup output_dir fs' = Some (Dir children) /\
    map fst children = reducer_names /\
    all_files children.
Proof.
  unfold mapreduce.
  destruct (path_exists output_dir fs); [discriminate|].
  destruct (mkdir output_dir fs) as [fs1|e] eqn:M; [|discriminate].
  destruct (check_shebang map_exe fs1) as [[]|e]; [|discriminate].
  destruct (check_shebang reduce_exe fs1) as [[]|e]; [|discriminate].
  destruct (prepare_input_files fs1 input_dir []) as [[map_in num_map]|e];
    [|discriminate].
  destruct (map_stage subprocess_run map_exe _ _ map_in [] num_map [])
    as [[map_out started1] [[]|e]]; [|discriminate].
  rewrite group_stage_eq, close_all_fresh.
  destruct (reduce_stage subprocess_run reduce_exe _ _
              (reducer_files (merged_lines (iterdir dir_order map_out))) []
              MAX_NUM_REDUCE started1)
    as [[reduce_out started2] [[]|e]] eqn:R; [|discriminate].
  destruct (mkdir_inv _ _ _ M) as (_ & _ & L1).
  destruct (copy_loop output_dir reduce_out fs1 [] L1 (Forall_nil _))
    as (fs2 & children & C & L2 & F & E).
  rewrite C. intros [= <- _].
  exists children. split; [exact L2|]. split; [|exact F].
  unfold reduce_stage in R.
  apply run_tasks_names in R; [|apply (part_names_NoDup 0)].
  rewrite E, (entry_set_all_names File reduce_out []); rewrite R;
    [reflexivity | apply (part_names_NoDup 0)].
Qed.

Lemma mapreduce_output_files_witness :
  exists fs' started,
    mapreduce cat tmp_madoop by_ordinal fs_job ["input"%string]
        ["output"%string]
      ["map.py"%string] ["reduce.py"%string] = (fs', started, OK tt) /\
    exists children,
      lookup ["output"%string] fs' = Some (Dir children) /\
      map fst children = reducer_names /\
      all_files children.
Proof.
  eexists. eexists.
  assert (mapreduce cat tmp_madoop by_ordinal fs_job ["input"%string]
      ["output"%string]
            ["map.py"%string] ["reduce.py"%string]
          = (_, _, OK tt)) as H by (vm_compute; reflexivity).
  split; [exact H|].
  exact (mapreduce_output_files cat tmp_madoop by_ordinal fs_job
      ["input"%string]
           ["output"%string] ["map.py"%string] ["reduce.py"%string] _ _ H).
Defined.

Lemma check_shebang_eq (exe : path) (fs : node) (data line : str) :
  read_file exe fs = OK data ->
  readline data = OK line ->
  check_shebang exe fs =
  if str_eq_dec (rstrip line) SHEBANG then OK tt
  else Raise (invalid_shebang exe (rstrip line)).
Proof. intros H L. unfold check_shebang. rewrite H. simpl. now rewrite L. Qed.

Lemma check_shebang_readable (exe : path) (fs : node) :
  check_shebang exe fs = OK tt -> exists data, read_file exe fs = OK data.
Proof.
  unfold check_shebang. destruct (read_file exe fs) as [data|e];
    [eauto | discriminate].
Qed.

(** The validation depends on the bytes of the executable only. *)
Lemma check_shebang_same_file (exe : path) (fs fs' : node) (data : str) :
  read_file exe fs = OK data -> read_file exe fs' = OK data ->
  check_shebang exe fs' = check_shebang exe fs.
Proof. intros H H'. unfold check_shebang. now rewrite H, H'. Qed.

Lemma check_shebang_mkdir (p exe : path) (fs fs1 : node) :
  mkdir p fs = OK fs1 ->
  check_shebang exe fs = OK tt -> check_shebang exe fs1 = OK tt.
Proof.
  intros M H. destruct (check_shebang_readable _ _ H) as [data R].
  now rewrite (check_shebang_same_file _ _ _ _ R
                 (mkdir_read_file _ _ _ _ _ M R)).
Qed.

Lemma mkdir_fresh (p : path) (fs fs1 : node) :
  mkdir p fs = OK fs1 -> path_exists p fs = false.
Proof.
  intros M. destruct (mkdir_inv _ _ _ M) as (L & _). unfold path_exists.
  now rewrite L.
Qed.

(** C8 (as amended).  When the input location is not a directory, and the
    earlier steps pass (the output directory is created, both executables
    are valid), the run fails in the input preparer: no subprocess has been
    started and no partition written, but the output directory has been
    created and stays, empty. *)
Theorem mapreduce_missing_input
  (subprocess_run : path -> str -> str * Z) (tmpdir : path)
  (dir_order : string -> nat)
  (fs : node) (input_dir output_dir map_exe reduce_exe : path) (fs1 : node) :
  is_dir input_dir fs = false ->
  input_dir <> output_dir ->
  mkdir output_dir fs = OK fs1 ->
  check_shebang map_exe fs = OK tt ->
  check_shebang reduce_exe fs = OK tt ->
  mapreduce subprocess_run tmpdir dir_order fs
    input_dir output_dir map_exe reduce_exe
    = (fs1, [], Raise (input_dir_not_found input_dir)) /\
  lookup output_dir fs = None /\
  lookup output_dir fs1 = Some (Dir []).
Proof.
  intros Hin Hne M Hm Hr.
  destruct (mkdir_inv _ _ _ M) as (L & _ & L1).
  split; [|split; assumption].
  unfold mapreduce. rewrite (mkdir_fresh _ _ _ M), M.
  rewrite (check_shebang_mkdir _ _ _ _ M Hm).
  rewrite (check_shebang_mkdir _ _ _ _ M Hr).
  unfold prepare_input_files.
  pose proof (mkdir_is_dir _ input_dir _ _ M Hne) as D.
  rewrite Hin in D. unfold is_dir in D.
  destruct (lookup input_dir fs1) as [[x|ch]|]; try discriminate;
    reflexivity.
Qed.

Lemma mapreduce_missing_input_witness :
  is_dir ["input"%string] fs_no_input = false /\
  ["input"%string] <> ["output"%string] /\
  mkdir ["output"%string] fs_no_input = OK fs_no_input_out /\
  check_shebang ["map.py"%string] fs_no_input = OK tt /\
  check_shebang ["reduce.py"%string] fs_no_input = OK tt /\
  mapreduce cat tmp_madoop by_ordinal fs_no_input ["input"%string]
      ["output"%string]
    ["map.py"%string] ["reduce.py"%string]
    = (fs_no_input_out, [], Raise (input_dir_not_found ["input"%string])) /\
  lookup ["output"%string] fs_no_input = None /\
  lookup ["output"%string] fs_no_input_out = Some (Dir []).
Proof.
  assert (is_dir ["input"%string] fs_no_input = false) as Hin by reflexivity.
  assert (["input"%string] <> ["output"%string]) as Hne by discriminate.
  assert (mkdir ["output"%string] fs_no_input = OK fs_no_input_out) as M
    by reflexivity.
  assert (check_shebang ["map.py"%string] fs_no_input = OK tt) as Hm
    by (vm_compute; reflexivity).
  assert (check_shebang ["reduce.py"%string] fs_no_input = OK tt) as Hr
    by (vm_compute; reflexivity).
  split; [exact Hin|]. split; [exact Hne|].
  split; [exact M|]. split; [exact Hm|]. split; [exact Hr|].
  exact (mapreduce_missing_input cat tmp_madoop by_ordinal fs_no_input
      ["input"%string]
           ["output"%string] ["map.py"%string] ["reduce.py"%string]
           fs_no_input_out Hin Hne M Hm Hr).
Defined.

(** C8 as stated fails: the input location does not exist, the run raises
    an assertion error, which is not the program's error type, and by then
    the output directory, absent before the run, has been created. *)
Lemma mapreduce_missing_input_counterexample :
  path_exists ["input"%string] fs_no_input = false /\
  path_exists ["output"%string] fs_no_input = false /\
  exists fs' msg,
    mapreduce cat tmp_madoop by_ordinal fs_no_input ["input"%string]
        ["output"%string]
      ["map.py"%string] ["reduce.py"%string]
      = (fs', [], Raise (AssertionError msg)) /\
    (forall m, AssertionError msg <> MadoopError m) /\
    path_exists ["output"%string] fs' = true.
Proof.
  split; [reflexivity|]. split; [reflexivity|].
  do 2 eexists. split; [vm_compute; reflexivity|].
  split; [discriminate | reflexivity].
Qed.

(** C9 (as amended).  The first line of an executable is read by decoding
    its bytes as UTF-8, and compared with the directive after its trailing
    whitespace is removed.  When the first line of the map executable, or of
    the reduce executable behind a valid map executable, can be read and
    fails the comparison, a run that got to create its output directory
    raises the program's error, whose message starts with the path of the
    executable and ends with the expected directive; no subprocess has been
    started, and the output directory is empty.  An executable whose first
    line passes the comparison passes validation; one whose bytes cannot be
    decoded fails it with the decoding error. *)
Theorem mapreduce_invalid_shebang
  (subprocess_run : path -> str -> str * Z) (tmpdir : path)
  (dir_order : string -> nat)
  (fs : node) (input_dir output_dir map_exe reduce_exe : path) (fs1 : node)
  (exe : path) (data line : str) :
  mkdir output_dir fs = OK fs1 ->
  read_file exe fs = OK data ->
  readline data = OK line ->
  rstrip line <> SHEBANG ->
  exe = map_exe \/ (exe = reduce_exe /\ check_shebang map_exe fs = OK tt) ->
  mapreduce subprocess_run tmpdir dir_order fs
    input_dir output_dir map_exe reduce_exe
    = (fs1, [], Raise (invalid_shebang exe (rstrip line))) /\
  lookup output_dir fs1 = Some (Dir []) /\
  (forall exe' data' line',
     read_file exe' fs = OK data' ->
     readline data' = OK line' ->
     rstrip line' = SHEBANG ->
     check_shebang exe' fs = OK tt) /\
  (forall exe' data',
     read_file exe' fs = OK data' ->
     readline data' = Raise UnicodeDecodeError ->
     check_shebang exe' fs = Raise UnicodeDecodeError).
Proof.
  intros M R Hl Hbad Hexe.
  destruct (mkdir_inv _ _ _ M) as (_ & _ & L1).
  assert (check_shebang exe fs1
          = Raise (invalid_shebang exe (rstrip line))) as Bad.
  { rewrite (check_shebang_eq _ _ _ _ (mkdir_read_file _ _ _ _ _ M R) Hl).
    destruct (str_eq_dec _ SHEBANG); [contradiction | reflexivity]. }
  split; [|split; [exact L1|split]].
  - unfold mapreduce. rewrite (mkdir_fresh _ _ _ M), M.
    destruct Hexe as [<-|[<- Hm]].
    + now rewrite Bad.
    + rewrite (check_shebang_mkdir _ _ _ _ M Hm). now rewrite Bad.
  - intros exe' data' line' R' Hl' Hok.
    rewrite (check_shebang_eq _ _ _ _ R' Hl').
    destruct (str_eq_dec _ SHEBANG); [reflexivity | contradiction].
  - intros exe' data' R' Hl'. unfold check_shebang. rewrite R'. simpl.
    now rewrite Hl'.
Qed.

Lemma mapreduce_invalid_shebang_witness :
  let line := py "#!/usr/bin/env python2" ++ [LF] in
  mkdir ["output"%string] fs_python2 = OK fs_python2_out /\
  read_file ["reduce.py"%string] fs_python2 = OK script_python2 /\
  readline script_python2 = OK line /\
  rstrip line <> SHEBANG /\
  (["reduce.py"%string] = ["map.py"%string] \/
   (["reduce.py"%string] = ["reduce.py"%string] /\
    check_shebang ["map.py"%string] fs_python2 = OK tt)) /\
  mapreduce cat tmp_madoop by_ordinal fs_python2 ["input"%string]
      ["output"%string]
    ["map.py"%string] ["reduce.py"%string]
    = (fs_python2_out, [],
       Raise (invalid_shebang ["reduce.py"%string] (rstrip line))) /\
  lookup ["output"%string] fs_python2_out = Some (Dir []) /\
  (forall exe' data' line',
     read_file exe' fs_python2 = OK data' ->
     readline data' = OK line' ->
     rstrip line' = SHEBANG ->
     check_shebang exe' fs_python2 = OK tt) /\
  (forall exe' data',
     read_file exe' fs_python2 = OK data' ->
     readline data' = Raise UnicodeDecodeError ->
     check_shebang exe' fs_python2 = Raise UnicodeDecodeError).
Proof.
  intros line.
  assert (mkdir ["output"%string] fs_python2 = OK fs_python2_out) as M
    by reflexivity.
  assert (read_file ["reduce.py"%string] fs_python2 = OK script_python2) as R
    by reflexivity.
  assert (readline script_python2 = OK line) as Hl
    by (vm_compute; reflexivity).
  assert (rstrip line <> SHEBANG) as Hbad
    by (vm_compute; discriminate).
  assert (["reduce.py"%string] = ["map.py"%string] \/
          (["reduce.py"%string] = ["reduce.py"%string] /\
           check_shebang ["map.py"%string] fs_python2 = OK tt)) as Hexe
    by (right; split; [reflexivity | vm_compute; reflexivity]).
  split; [exact M|]. split; [exact R|]. split; [exact Hl|].
  split; [exact Hbad|]. split; [exact Hexe|].
  exact (mapreduce_invalid_shebang cat tmp_madoop by_ordinal fs_python2
           ["input"%string] ["output"%string] ["map.py"%string]
           ["reduce.py"%string] fs_python2_out ["reduce.py"%string]
           script_python2 line M R Hl Hbad Hexe).
Defined.

(** C9 as stated fails: the first line of the map executable is the
    directive followed by a space, so it is not exactly the directive, and
    yet the executable passes validation and the run goes on to start its
    subprocesses and returns. *)
Lemma mapreduce_invalid_shebang_counterexample :
  read_file ["map.py"%string] fs_trailing_space = OK script_trailing_space /\
  readline script_trailing_space = OK (SHEBANG ++ py " " ++ [LF]) /\
  SHEBANG ++ py " " ++ [LF] <> SHEBANG ++ [LF] /\
  check_shebang ["map.py"%string] fs_trailing_space = OK tt /\
  exists fs' first rest,
    mapreduce cat tmp_madoop by_ordinal fs_trailing_space
      ["input"%string] ["output"%string]
      ["map.py"%string] ["reduce.py"%string] = (fs', first :: rest, OK tt).
Proof.
  split; [reflexivity|]. split; [vm_compute; reflexivity|].
  split; [vm_compute; discriminate|]. split; [vm_compute; reflexivity|].
  do 3 eexists. vm_compute. reflexivity.
Qed.

(** * Further properties of the module *)

(** ** [part_filename] *)

(** X1.  Distinct ordinals have distinct file names, also past the five
    digits of the padding. *)
Theorem part_filename_injective (m n : nat) :
  part_filename m = part_filename n -> m = n.
Proof.
  intros H. assert (parse_part (part_filename m) = Some n) as P
    by (rewrite H; apply parse_part_filename).
  rewrite parse_part_filename in P. congruence.
Qed.

Lemma part_filename_injective_witness :
  part_filename 7 = part_filename 7 /\ 7 = 7.
Proof.
  assert (part_filename 7 = part_filename 7) as H by reflexivity.
  split; [exact H|]. exact (part_filename_injective 7 7 H).
Defined.

(** ** [sort_file] *)

Lemma concat_perm (l1 l2 : list str) :
  Permutation l1 l2 -> Permutation (concat l1) (concat l2).
Proof.
  induction 1 as [|x l l' _ IH|x y l|l l' l'' _ IH1 _ IH2]; simpl.
  - reflexivity.
  - now apply Permutation_app_head.
  - rewrite !app_assoc. apply Permutation_app_tail, Permutation_app_comm.
  - now transitivity (concat l').
Qed.

Lemma sorted_idempotent (l : list str) : sorted (sorted l) = sorted l.
Proof.
  apply sorted_unique; try apply sorted_sorted. apply sorted_perm.
Qed.

Lemma sort_file_no_CR (data : str) : ~ In CR (sort_file data).
Proof.
  unfold sort_file, writelines, read_text. intros I.
  apply (universal_newlines_no_CR data).
  rewrite <- (readlines_concat (universal_newlines data)).
  eapply Permutation_in; [|exact I].
  apply concat_perm, sorted_perm.
Qed.

(** X2.  Sorting a file that is empty or ends in a line feed leaves a file
    with the same lines, in non-decreasing order; sorting it again changes
    nothing. *)
Theorem sort_file_sorts (data : str) :
  newline_terminated data ->
  Sorted str_le (read_text (sort_file data)) /\
  Permutation (read_text (sort_file data)) (read_text data) /\
  sort_file (sort_file data) = sort_file data.
Proof.
  intros H. rewrite (read_text_sort_file _ H).
  split; [apply StronglySorted_Sorted, sorted_sorted|].
  split; [apply sorted_perm|].
  unfold sort_file at 1. rewrite (read_text_sort_file _ H).
  now rewrite sorted_idempotent.
Qed.

Lemma sort_file_sorts_witness :
  newline_terminated (record "b" "1" ++ record "a" "1") /\
  Sorted str_le (read_text (sort_file (record "b" "1" ++ record "a" "1"))) /\
  Permutation (read_text (sort_file (record "b" "1" ++ record "a" "1")))
    (read_text (record "b" "1" ++ record "a" "1")) /\
  sort_file (sort_file (record "b" "1" ++ record "a" "1"))
    = sort_file (record "b" "1" ++ record "a" "1").
Proof.
  assert (newline_terminated (record "b" "1" ++ record "a" "1")) as H
    by reflexivity.
  split; [exact H|].
  exact (sort_file_sorts (record "b" "1" ++ record "a" "1") H).
Defined.

Lemma sort_file_perm (data : str) :
  Permutation (sort_file data) (universal_newlines data).
Proof.
  unfold sort_file, writelines, read_text.
  rewrite <- (readlines_concat (universal_newlines data)) at 2.
  apply concat_perm, sorted_perm.
Qed.

(** X3.  Whatever the file, sorting it loses and adds no character: the
    sorted file is a rearrangement of the text read, and holds no carriage
    return. *)
Theorem sort_file_keeps_characters (data : str) :
  Permutation (sort_file data) (universal_newlines data) /\
  length (sort_file data) = length (universal_newlines data) /\
  ~ In CR (sort_file data).
Proof.
  pose proof (sort_file_perm data) as P.
  split; [exact P|]. split; [now apply Permutation_length|].
  apply sort_file_no_CR.
Qed.

(** ** [group_stage] *)

Lemma perm_move (X l Y : str) : Permutation (X ++ l ++ Y) (l ++ X ++ Y).
Proof.
  rewrite !app_assoc. apply Permutation_app_tail, Permutation_app_comm.
Qed.

Lemma buckets_concat_perm (lines : list str) :
  Permutation
    (concat (bucket 0 lines) ++ concat (bucket 1 lines)
       ++ concat (bucket 2 lines) ++ concat (bucket 3 lines))
    (concat lines).
Proof.
  induction lines as [|l lines IH]; [reflexivity|].
  rewrite !bucket_cons.
  pose proof (reducer_idx_lt l) as B. unfold MAX_NUM_REDUCE in B.
  set (b0 := concat (bucket 0 lines)) in *.
  set (b1 := concat (bucket 1 lines)) in *.
  set (b2 := concat (bucket 2 lines)) in *.
  set (b3 := concat (bucket 3 lines)) in *.
  destruct (reducer_idx l) as [|[|[|[|k]]]]; try lia;
    cbn [Nat.eqb concat]; fold b0 b1 b2 b3; rewrite <- ?app_assoc.
  - now apply Permutation_app_head.
  - rewrite perm_move. now apply Permutation_app_head.
  - rewrite (app_assoc b0 b1), perm_move, <- app_assoc.
    now apply Permutation_app_head.
  - rewrite (app_assoc b1 b2), (app_assoc b0), perm_move, <- !app_assoc.
    now apply Permutation_app_head.
Qed.

Lemma merged_lines_concat (input_dir : dir) :
  Permutation (concat (merged_lines input_dir))
    (concat (map (fun f => universal_newlines (snd f)) input_dir)).
Proof.
  unfold merged_lines. rewrite (concat_perm _ _ (merge_perm _)).
  induction input_dir as [|f d IH]; [reflexivity|].
  cbn [map concat]. rewrite concat_app.
  apply Permutation_app; [|exact IH].
  unfold read_text. rewrite readlines_concat.
  rewrite (universal_newlines_id _ (sort_file_no_CR _)).
  apply sort_file_perm.
Qed.

(** X4.  Whatever the mapper-output files, the four reducer-input files
    hold together exactly the characters of the text of the mapper-output
    files: the group stage loses and adds none. *)
Theorem group_stage_keeps_characters (input_dir output_dir : dir) :
  exists in' out' d0 d1 d2 d3,
    group_stage input_dir output_dir = OK (in', out', MAX_NUM_REDUCE) /\
    map (reducer_input out') [0; 1; 2; 3]
      = [Some d0; Some d1; Some d2; Some d3] /\
    Permutation (d0 ++ d1 ++ d2 ++ d3)
      (concat (map (fun f => universal_newlines (snd f)) input_dir)).
Proof.
  rewrite group_stage_eq. do 6 eexists. split; [reflexivity|].
  cbn [map]. rewrite !reducer_input_close by (unfold MAX_NUM_REDUCE; lia).
  split; [reflexivity|].
  rewrite buckets_concat_perm. apply merged_lines_concat.
Qed.

(** X5.  On mapper-output files that are empty or end in a line feed, the
    sort, merge and allocation of the group stage amount to what its
    docstring says: reducer-input file [i] is the sorted list of all
    mapper-output lines, cut down to the lines whose key hashes to [i]. *)
Theorem group_stage_sorts_then_partitions
  (input_dir output_dir : dir) (i : nat) :
  all_terminated input_dir -> i < MAX_NUM_REDUCE ->
  exists in' out',
    group_stage input_dir output_dir = OK (in', out', MAX_NUM_REDUCE) /\
    reducer_input out' i =
      Some (writelines
        (filter (fun line =>
           Z.to_nat (keyhash (partition_tab_head line)
                       mod Z.of_nat MAX_NUM_REDUCE) =? i)
           (sorted (mapper_lines input_dir)))).
Proof.
  intros Ht Hi. rewrite group_stage_eq. do 2 eexists.
  split; [reflexivity|]. rewrite reducer_input_close by assumption.
  now rewrite merged_lines_sorted.
Qed.

Lemma group_stage_sorts_then_partitions_witness :
  all_terminated wc_mapper_output /\ 2 < MAX_NUM_REDUCE /\
  exists in' out',
    group_stage wc_mapper_output [] = OK (in', out', MAX_NUM_REDUCE) /\
    reducer_input out' 2 =
      Some (writelines
        (filter (fun line =>
           Z.to_nat (keyhash (partition_tab_head line)
                       mod Z.of_nat MAX_NUM_REDUCE) =? 2)
           (sorted (mapper_lines wc_mapper_output)))).
Proof.
  assert (all_terminated wc_mapper_output) as Ht by (repeat constructor).
  assert (2 < MAX_NUM_REDUCE) as Hi by (unfold MAX_NUM_REDUCE; lia).
  split; [exact Ht|]. split; [exact Hi|].
  exact (group_stage_sorts_then_partitions wc_mapper_output [] 2 Ht Hi).
Defined.

(** ** [prepare_input_files] *)



Lemma round_robin_one_from (lines : list str) :
  forall k,
  map snd (filter (fun il => fst il mod 1 =? 0) (enumerate_from k lines))
  = lines.
Proof.
  induction lines as [|l lines IH]; intros k; [reflexivity|].
  cbn [enumerate_from filter fst]. rewrite Nat.mod_1_r. cbn [Nat.eqb map snd].
  now rewrite IH.
Qed.

Lemma round_robin_one (lines : list str) : round_robin 1 0 lines = lines.
Proof. apply round_robin_one_from. Qed.

(** X7.  A non-empty input file of at most the split size is copied: it has
    one partition, at the ordinal that follows the partitions of the files
    before it, which holds the text of the file and nothing else. *)
Theorem prepare_input_files_copies_small_file
  (fs : node) (input_dir : path) (children : entries node)
  (pre : list str) (data : str) (post : list str) :
  lookup input_dir fs = Some (Dir children) ->
  regular_files children = pre ++ data :: post ->
  data <> [] ->
  (Z.of_nat (length data) <= MAX_INPUT_SPLIT_SIZE)%Z ->
  exists out n,
    prepare_input_files fs input_dir [] = OK (out, n) /\
    splits data = 1 /\
    entry_find (part_filename (total_splits pre)) out
      = Some (universal_newlines data).
Proof.
  intros Hd Hf Hne Hsz.
  assert (splits data = 1) as S1.
  { unfold splits. apply num_split_of_small. split; [|exact Hsz].
    destruct data; [contradiction | simpl length; lia]. }
  assert (0 < splits data) as Hj by lia.
  pose proof (split_all_found pre data post 0 Hj [] 0) as F.
  rewrite (prepare_input_files_spec _ _ _ Hd), Hf.
  do 2 eexists. split; [reflexivity|]. split; [exact S1|].
  cbn [Nat.add] in F. rewrite Nat.add_0_r, S1, round_robin_one in F.
  unfold read_text in F. now rewrite readlines_concat in F.
Qed.

Lemma prepare_input_files_copies_small_file_witness :
  let a := py "x y" ++ [LF] ++ py "z" ++ [LF] in
  let b := py "u" ++ [LF] ++ py "v" in
  let children :=
    [("a.txt"%string, File a); ("sub"%string, Dir []);
     ("b.txt"%string, File b)] in
  lookup ["input"%string] fs_two_files = Some (Dir children) /\
  regular_files children = [a] ++ b :: [] /\
  b <> [] /\
  (Z.of_nat (length b) <= MAX_INPUT_SPLIT_SIZE)%Z /\
  exists out n,
    prepare_input_files fs_two_files ["input"%string] [] = OK (out, n) /\
    splits b = 1 /\
    entry_find (part_filename (total_splits [a])) out
      = Some (universal_newlines b).
Proof.
  intros a b children.
  assert (lookup ["input"%string] fs_two_files = Some (Dir children)) as Hd
    by reflexivity.
  assert (regular_files children = [a] ++ b :: []) as Hf by reflexivity.
  assert (b <> []) as Hne by discriminate.
  assert (Z.of_nat (length b) <= MAX_INPUT_SPLIT_SIZE)%Z as Hsz
    by (vm_compute; discriminate).
  split; [exact Hd|]. split; [exact Hf|]. split; [exact Hne|].
  split; [exact Hsz|].
  exact (prepare_input_files_copies_small_file fs_two_files
           ["input"%string] children [a] b [] Hd Hf Hne Hsz).
Defined.

(** X8.  For a file of fewer than 2^53 bytes, the number of partitions is
    the least [N] with [N * 2^20 >= size]: none for an empty file, one up to
    the split size, one more for every further 2^20 bytes begun.  (From 2^53
    bytes on the quotient is rounded before its ceiling is taken.) *)
Theorem num_split_is_ceiling (size : Z) :
  (0 <= size < 2 ^ 53)%Z ->
  ((Z.of_nat (num_split_of size) - 1) * MAX_INPUT_SPLIT_SIZE < size
   <= Z.of_nat (num_split_of size) * MAX_INPUT_SPLIT_SIZE)%Z.
Proof.
  unfold num_split_of, MAX_INPUT_SPLIT_SIZE. intros H.
  rewrite nearest_double_small by exact H.
  pose proof (Z.div_mod (- size) (2 ^ 20) ltac:(lia)) as D.
  pose proof (Z.mod_pos_bound (- size) (2 ^ 20) ltac:(lia)) as B.
  assert (- size / 2 ^ 20 <= 0)%Z as Q
    by (apply Z.div_le_upper_bound; lia).
  rewrite Z2Nat.id by lia. lia.
Qed.

Lemma num_split_is_ceiling_witness :
  (0 <= 2 ^ 20 + 1 < 2 ^ 53)%Z /\
  ((Z.of_nat (num_split_of (2 ^ 20 + 1)) - 1) * MAX_INPUT_SPLIT_SIZE
   < 2 ^ 20 + 1
   <= Z.of_nat (num_split_of (2 ^ 20 + 1)) * MAX_INPUT_SPLIT_SIZE)%Z.
Proof.
  assert (0 <= 2 ^ 20 + 1 < 2 ^ 53)%Z as H by lia.
  split; [exact H|]. exact (num_split_is_ceiling (2 ^ 20 + 1) H).
Defined.

Lemma insert_in_bucket (r : nat) (l : str) (T : nat -> str) (n : nat) :
  forall s, s <= r < s + n ->
  Permutation
    (concat (map (fun j => if r =? j then l ++ T j else T j) (seq s n)))
    (l ++ concat (map T (seq s n))).
Proof.
  induction n as [|n IH]; intros s Hr; [lia|].
  cbn [seq map concat]. destruct (Nat.eqb_spec r s) as [->|Hne].
  - rewrite <- app_assoc. do 2 apply Permutation_app_head.
    erewrite map_ext_in; [reflexivity|].
    intros j Hj. apply in_seq in Hj.
    destruct (Nat.eqb_spec s j); [lia | reflexivity].
  - rewrite (IH (S s)) by lia. apply perm_move.
Qed.

Lemma round_robin_perm (N : nat) (L : list (nat * str)) :
  0 < N ->
  Permutation
    (concat (map (fun j =>
       concat (map snd (filter (fun il => fst il mod N =? j) L))) (seq 0 N)))
    (concat (map snd L)).
Proof.
  intros HN. induction L as [|[i l] L IH]; cbn [map snd concat].
  - induction (seq 0 N) as [|j js IHj]; [reflexivity | exact IHj].
  - rewrite <- IH.
    rewrite <- (insert_in_bucket (i mod N) l
      (fun j => concat (map snd (filter (fun il => fst il mod N =? j) L)))
      N 0) by (pose proof (Nat.mod_upper_bound i N); lia).
    erewrite map_ext; [reflexivity|].
    intros j. cbn [filter fst].
    destruct (i mod N =? j); reflexivity.
Qed.

(** X9.  The partitions of an input file hold together exactly the
    characters of its text: splitting loses and adds none, and mixes in no
    other file. *)
Theorem prepare_input_files_keeps_characters
  (fs : node) (input_dir : path) (children : entries node)
  (pre : list str) (data : str) (post : list str) :
  lookup input_dir fs = Some (Dir children) ->
  regular_files children = pre ++ data :: post ->
  exists out n contents,
    prepare_input_files fs input_dir [] = OK (out, n) /\
    map (fun j => entry_find (part_filename (total_splits pre + j)) out)
      (seq 0 (splits data)) = map Some contents /\
    Permutation (concat contents) (universal_newlines data).
Proof.
  intros Hd Hf. rewrite (prepare_input_files_spec _ _ _ Hd), Hf.
  do 2 eexists.
  exists (map (fun j => concat (round_robin (splits data) j (read_text data)))
            (seq 0 (splits data))).
  split; [reflexivity|]. split.
  - rewrite map_map. apply map_ext_in. intros j Hj. apply in_seq in Hj.
    assert (j < splits data) as Hj' by lia.
    exact (split_all_found pre data post j Hj' [] 0).
  - destruct (splits data) as [|N'] eqn:E.
    + apply splits_0 in E. subst. reflexivity.
    + unfold round_robin.
      rewrite round_robin_perm by lia.
      pose proof (readlines_concat (universal_newlines data)) as RC.
      unfold enumerate, read_text.
      set (ls := readlines (universal_newlines data)) in *.
      rewrite <- RC. clear RC. clearbody ls. generalize 0 as k.
      induction ls as [|l ls IH]; intros k; [reflexivity|].
      cbn [enumerate_from map snd concat].
      apply Permutation_app_head, IH.
Qed.

Lemma prepare_input_files_keeps_characters_witness :
  let a := py "x y" ++ [LF] ++ py "z" ++ [LF] in
  let b := py "u" ++ [LF] ++ py "v" in
  let children :=
    [("a.txt"%string, File a); ("sub"%string, Dir []);
     ("b.txt"%string, File b)] in
  lookup ["input"%string] fs_two_files = Some (Dir children) /\
  regular_files children = [a] ++ b :: [] /\
  exists out n contents,
    prepare_input_files fs_two_files ["input"%string] [] = OK (out, n) /\
    map (fun j => entry_find (part_filename (total_splits [a] + j)) out)
      (seq 0 (splits b)) = map Some contents /\
    Permutation (concat contents) (universal_newlines b).
Proof.
  intros a b children.
  assert (lookup ["input"%string] fs_two_files = Some (Dir children)) as Hd
    by reflexivity.
  assert (regular_files children = [a] ++ b :: []) as Hf by reflexivity.
  split; [exact Hd|]. split; [exact Hf|].
  exact (prepare_input_files_keeps_characters fs_two_files ["input"%string]
           children [a] b [] Hd Hf).
Defined.

(** ** [map_stage] and [reduce_stage] *)

Lemma entry_set_fresh_eq {A : Type} (name : string) (a : A) (d : entries A) :
  ~ In name (map fst d) -> entry_set name a d = d ++ [(name, a)].
Proof.
  induction d as [|[n b] d IH]; simpl; intros H; [reflexivity|].
  destruct (string_dec n name) as [E|_]; [exfalso; apply H; now left|].
  rewrite IH; [reflexivity|]. intros I. apply H. now right.
Qed.

Lemma entry_set_all_fresh {A B : Type} (g : B -> A)
  (items : list (string * B)) :
  forall d : entries A,
  NoDup (map fst d ++ map fst items) ->
  fold_left (fun d f => entry_set (fst f) (g (snd f)) d) items d
  = d ++ map (fun f => (fst f, g (snd f))) items.
Proof.
  induction items as [|[n c] items IH]; intros d Hnd.
  - simpl. now rewrite app_nil_r.
  - cbn [fold_left fst snd map].
    change (map fst ((n, c) :: items)) with (n :: map fst items) in Hnd.
    assert (~ In n (map fst d)) as Hn.
    { intros I. apply NoDup_remove_2 in Hnd. apply Hnd.
      apply in_or_app. now left. }
    rewrite (entry_set_fresh_eq n (g c) d Hn), IH.
    + now rewrite <- app_assoc.
    + rewrite map_app, <- app_assoc. exact Hnd.
Qed.

Section Stages.

Variable subprocess_run : path -> str -> str * Z.
Variables exe input_path output_path : path.
Variable input_dir : dir.

Lemma run_tasks_prefix (done rest : list nat) :
  forallb (task_ok subprocess_run exe input_dir) done = true ->
  forall (output_dir : dir) (started : list spawn),
  run_tasks subprocess_run exe input_path output_path input_dir
    (done ++ rest) output_dir started
  = run_tasks subprocess_run exe input_path output_path input_dir rest
      (tasks_done subprocess_run exe input_dir done output_dir)
      (started ++ task_spawns exe input_dir done).
Proof.
  induction done as [|i done IH]; intros Hok out started.
  - simpl. now rewrite app_nil_r.
  - cbn [forallb] in Hok. apply andb_true_iff in Hok. destruct Hok as [Hi Hok].
    unfold task_ok in Hi. cbn [app run_tasks].
    unfold tasks_done, task_spawns, stdin_of. cbn [fold_left map].
    destruct (entry_find (part_filename i) input_dir) as [stdin|];
      [|discriminate].
    destruct (subprocess_run exe stdin) as [stdout returncode] eqn:R.
    cbn [snd] in Hi. rewrite Hi. rewrite (IH Hok). cbn [fst].
    unfold tasks_done, task_spawns, stdin_of.
    now rewrite <- app_assoc.
Qed.

Lemma after_tasks_eq (tasks : list nat) :
  forall output_dir : dir,
  NoDup (map fst output_dir ++ map part_filename tasks) ->
  tasks_done subprocess_run exe input_dir tasks output_dir
  = output_dir ++ task_outputs subprocess_run exe input_dir tasks.
Proof.
  unfold tasks_done, task_outputs.
  induction tasks as [|i tasks IH]; intros d Hnd.
  - simpl. now rewrite app_nil_r.
  - cbn [fold_left map] in *.
    assert (~ In (part_filename i) (map fst d)) as Hn.
    { intros I. apply NoDup_remove_2 in Hnd. apply Hnd.
      apply in_or_app. now left. }
    rewrite (entry_set_fresh_eq _ _ d Hn), IH.
    + now rewrite <- app_assoc.
    + rewrite map_app, <- app_assoc. exact Hnd.
Qed.

Lemma after_tasks_fresh (n : nat) :
  tasks_done subprocess_run exe input_dir (seq 0 n) []
  = task_outputs subprocess_run exe input_dir (seq 0 n).
Proof. apply (after_tasks_eq (seq 0 n) []), (part_names_NoDup 0). Qed.

End Stages.

(** X10.  When every task has its input partition and its subprocess exits
    with 0, a stage returns, having started one subprocess per ordinal, in
    order, each on the partition of its ordinal, and its output directory
    holds for each ordinal the standard output of that subprocess. *)
Theorem stage_runs_every_task
  (subprocess_run : path -> str -> str * Z) (exe input_path output_path : path)
  (input_dir : dir) (n : nat) (started : list spawn) :
  forallb (task_ok subprocess_run exe input_dir) (seq 0 n) = true ->
  map_stage subprocess_run exe input_path output_path input_dir [] n started
    = (task_outputs subprocess_run exe input_dir (seq 0 n),
       started ++ task_spawns exe input_dir (seq 0 n), OK tt) /\
  reduce_stage subprocess_run exe input_path output_path input_dir [] n started
    = (task_outputs subprocess_run exe input_dir (seq 0 n),
       started ++ task_spawns exe input_dir (seq 0 n), OK tt).
Proof.
  intros H. unfold map_stage, reduce_stage.
  rewrite <- (app_nil_r (seq 0 n)) at 1 4.
  rewrite (run_tasks_prefix subprocess_run exe _ _ input_dir _ [] H).
  cbn [run_tasks]. rewrite after_tasks_fresh. now split.
Qed.

Lemma stage_runs_every_task_witness :
  forallb (task_ok cat ["map.py"%string] three_parts) (seq 0 3) = true /\
  map_stage cat ["map.py"%string] (tmp_madoop ++ ["input"%string])
    (tmp_madoop ++ ["mapper-output"%string]) three_parts [] 3 []
    = (task_outputs cat ["map.py"%string] three_parts (seq 0 3),
       [] ++ task_spawns ["map.py"%string] three_parts (seq 0 3), OK tt) /\
  reduce_stage cat ["map.py"%string] (tmp_madoop ++ ["input"%string])
    (tmp_madoop ++ ["mapper-output"%string]) three_parts [] 3 []
    = (task_outputs cat ["map.py"%string] three_parts (seq 0 3),
       [] ++ task_spawns ["map.py"%string] three_parts (seq 0 3), OK tt).
Proof.
  assert (forallb (task_ok cat ["map.py"%string] three_parts) (seq 0 3)
          = true) as H by reflexivity.
  split; [exact H|].
  exact (stage_runs_every_task cat ["map.py"%string]
           (tmp_madoop ++ ["input"%string])
           (tmp_madoop ++ ["mapper-output"%string]) three_parts 3 [] H).
Defined.

(** X11.  A stage stops at the first task whose subprocess exits with a
    status other than 0: it raises the program's error, whose message gives
    the executable and the paths of the input and output files of that
    task; the output of the failing subprocess is in its output file, and
    no later task is started. *)
Theorem stage_stops_at_first_failure
  (subprocess_run : path -> str -> str * Z) (exe input_path output_path : path)
  (input_dir : dir) (n k : nat) (stdin : str) (started : list spawn) :
  k < n ->
  forallb (task_ok subprocess_run exe input_dir) (seq 0 k) = true ->
  entry_find (part_filename k) input_dir = Some stdin ->
  snd (subprocess_run exe stdin) <> 0%Z ->
  let failure :=
    MadoopError (py "Command returned non-zero: " ++ path_str exe
      ++ py " < " ++ path_str (input_path ++ [part_filename k])
      ++ py " > " ++ path_str (output_path ++ [part_filename k])) in
  map_stage subprocess_run exe input_path output_path input_dir [] n started
    = (task_outputs subprocess_run exe input_dir (seq 0 (S k)),
       started ++ task_spawns exe input_dir (seq 0 (S k)),
       Raise failure) /\
  reduce_stage subprocess_run exe input_path output_path input_dir [] n started
    = (task_outputs subprocess_run exe input_dir (seq 0 (S k)),
       started ++ task_spawns exe input_dir (seq 0 (S k)),
       Raise failure).
Proof.
  intros Hk Hok Hin Hrc failure.
  assert (run_tasks subprocess_run exe input_path output_path input_dir
            (seq 0 n) [] started
          = (task_outputs subprocess_run exe input_dir (seq 0 (S k)),
             started ++ task_spawns exe input_dir (seq 0 (S k)),
             Raise failure)) as E; [|now split].
  rewrite (seq_S k 0). unfold task_outputs, task_spawns.
  rewrite !map_app. cbn [map Nat.add]. unfold stdin_of at 2 4. rewrite Hin.
  replace n with (k + S (n - S k)) by lia.
  rewrite seq_app, (run_tasks_prefix subprocess_run exe _ _ input_dir _ _ Hok).
  cbn [seq Nat.add run_tasks]. rewrite Hin.
  destruct (subprocess_run exe stdin) as [stdout returncode] eqn:R.
  cbn [snd fst] in *. apply Z.eqb_neq in Hrc. rewrite Hrc.
  rewrite after_tasks_fresh, <- app_assoc. f_equal. f_equal.
  apply entry_set_fresh_eq. unfold task_outputs.
  rewrite map_map. cbn [fst]. intros I. apply part_name_in in I. lia.
Qed.

Lemma stage_stops_at_first_failure_witness :
  1 < 3 /\
  forallb (task_ok picky ["map.py"%string] three_parts) (seq 0 1) = true /\
  entry_find (part_filename 1) three_parts = Some [] /\
  snd (picky ["map.py"%string] []) <> 0%Z /\
  let failure :=
    MadoopError (py "Command returned non-zero: " ++ path_str ["map.py"%string]
      ++ py " < "
      ++ path_str ((tmp_madoop ++ ["input"%string]) ++ [part_filename 1])
      ++ py " > "
      ++ path_str ((tmp_madoop ++ ["mapper-output"%string])
                     ++ [part_filename 1])) in
  map_stage picky ["map.py"%string] (tmp_madoop ++ ["input"%string])
    (tmp_madoop ++ ["mapper-output"%string]) three_parts [] 3 []
    = (task_outputs picky ["map.py"%string] three_parts (seq 0 2),
       [] ++ task_spawns ["map.py"%string] three_parts (seq 0 2),
       Raise failure) /\
  reduce_stage picky ["map.py"%string] (tmp_madoop ++ ["input"%string])
    (tmp_madoop ++ ["mapper-output"%string]) three_parts [] 3 []
    = (task_outputs picky ["map.py"%string] three_parts (seq 0 2),
       [] ++ task_spawns ["map.py"%string] three_parts (seq 0 2),
       Raise failure).
Proof.
  assert (1 < 3) as Hk by lia.
  assert (forallb (task_ok picky ["map.py"%string] three_parts) (seq 0 1)
          = true) as Hok by reflexivity.
  assert (entry_find (part_filename 1) three_parts = Some []) as Hin
    by reflexivity.
  assert (snd (picky ["map.py"%string] []) <> 0%Z) as Hrc
    by (vm_compute; discriminate).
  split; [exact Hk|]. split; [exact Hok|]. split; [exact Hin|].
  split; [exact Hrc|].
  exact (stage_stops_at_first_failure picky ["map.py"%string]
           (tmp_madoop ++ ["input"%string])
           (tmp_madoop ++ ["mapper-output"%string]) three_parts
           3 1 [] [] Hk Hok Hin Hrc).
Defined.

Example command_failed_message :
  command_failed ["map.py"%string]
    (tmp_madoop ++ ["input"; part_filename 1]%string)
    (tmp_madoop ++ ["mapper-output"; part_filename 1]%string)
  = MadoopError (py
      "Command returned non-zero: /map.py < /tmp/madoop-k3v9x2aa/input/part-00001 > /tmp/madoop-k3v9x2aa/mapper-output/part-00001").
Proof. reflexivity. Qed.

(** ** [mapreduce] *)

Lemma same_entry_trans (a b c : option node) :
  same_entry a b -> same_entry b c -> same_entry a c.
Proof.
  destruct a as [[x|ch]|], b as [[y|ch']|], c as [[z|ch'']|]; simpl;
    try tauto; congruence.
Qed.

(** Putting a node at a path changes nothing but that path and the paths
    below it. *)
Lemma put_outside (p : path) (new : node) :
  forall (fs fs' : node) (q : path),
  put p new fs = Some fs' -> ~ under p q ->
  same_entry (lookup q fs) (lookup q fs').
Proof.
  induction p as [|c p IH]; intros fs fs' q; simpl.
  - intros _ H. exfalso. apply H. now exists q.
  - destruct fs as [data|ch]; [discriminate|].
    destruct (entry_find c ch) as [m|] eqn:E.
    + destruct (put p new m) as [m'|] eqn:P; [|discriminate].
      intros [= <-] Hq. destruct q as [|d q]; simpl; [trivial|].
      destruct (string_dec d c) as [->|Hd].
      * rewrite E, entry_find_set_same. apply (IH m m' q P).
        intros [rest ->]. apply Hq. now exists rest.
      * rewrite entry_find_set_other by assumption. apply same_entry_refl.
    + destruct p; [|discriminate].
      intros [= <-] Hq. destruct q as [|d q]; simpl; [trivial|].
      destruct (string_dec d c) as [->|Hd].
      * exfalso. apply Hq. now exists q.
      * rewrite entry_find_set_other by assumption. apply same_entry_refl.
Qed.

Lemma write_file_outside (p : path) (data : str) (fs fs' : node) (q : path) :
  write_file p data fs = OK fs' -> ~ under p q ->
  same_entry (lookup q fs) (lookup q fs').
Proof.
  unfold write_file. intros H Hq.
  assert (put p (File data) fs = Some fs') as P.
  { destruct (lookup p fs) as [[x|ch]|]; try discriminate;
      destruct (put p (File data) fs); congruence. }
  exact (put_outside p _ fs fs' q P Hq).
Qed.

Lemma under_child (p : path) (name : string) (q : path) :
  under (p ++ [name]) q -> under p q.
Proof. intros [rest ->]. exists (name :: rest). now rewrite <- app_assoc. Qed.

Lemma copies_outside (dst : path) (files : dir) (q : path) :
  ~ under dst q ->
  forall fs fs' : node,
  for_each (fun fs f => shutil_copy (fst f) (snd f) dst fs) files fs = OK fs' ->
  same_entry (lookup q fs) (lookup q fs').
Proof.
  intros Hq. induction files as [|[name data] files IH]; intros fs fs'.
  - intros [= <-]. apply same_entry_refl.
  - cbn [for_each fst snd].
    destruct (shutil_copy name data dst fs) as [fs1|e] eqn:C; [|discriminate].
    cbn [bind]. intros H. apply (same_entry_trans _ (lookup q fs1)).
    + unfold shutil_copy in C. destruct (is_dir dst fs).
      * apply (write_file_outside _ _ _ _ _ C).
        intros U. apply Hq. now apply under_child in U.
      * now apply (write_file_outside _ _ _ _ _ C).
    + now apply IH.
Qed.

(** X12.  Whatever the outcome of a run, it changes nothing outside the
    output directory: every other path is afterwards what it was, a file
    with the same data, a directory, or nothing. *)
Theorem mapreduce_touches_only_output
  (subprocess_run : path -> str -> str * Z) (tmpdir : path)
  (dir_order : string -> nat)
  (fs : node) (input_dir output_dir map_exe reduce_exe : path)
  (fs' : node) (started : list spawn) (r : result unit) (q : path) :
  mapreduce subprocess_run tmpdir dir_order fs
    input_dir output_dir map_exe reduce_exe
    = (fs', started, r) ->
  ~ under output_dir q ->
  same_entry (lookup q fs) (lookup q fs').
Proof.
  unfold mapreduce. intros H Hq.
  destruct (path_exists output_dir fs);
    [injection H as <- _ _; apply same_entry_refl|].
  destruct (mkdir output_dir fs) as [fs1|e] eqn:M;
    [|injection H as <- _ _; apply same_entry_refl].
  destruct (mkdir_inv _ _ _ M) as (_ & P & _).
  pose proof (put_outside _ _ _ _ q P Hq) as S1.
  destruct (check_shebang map_exe fs1) as [[]|e];
    [|injection H as <- _ _; exact S1].
  destruct (check_shebang reduce_exe fs1) as [[]|e];
    [|injection H as <- _ _; exact S1].
  destruct (prepare_input_files fs1 input_dir []) as [[map_in num_map]|e];
    [|injection H as <- _ _; exact S1].
  destruct (map_stage subprocess_run map_exe _ _ map_in [] num_map [])
    as [[map_out started1] [[]|e]]; [|injection H as <- _ _; exact S1].
  rewrite group_stage_eq in H.
  destruct (reduce_stage subprocess_run reduce_exe _ _ _ [] MAX_NUM_REDUCE
      started1)
    as [[reduce_out started2] [[]|e]]; [|injection H as <- _ _; exact S1].
  destruct (for_each _ reduce_out fs1) as [fs2|e] eqn:C;
    injection H as <- _ _; [|exact S1].
  apply (same_entry_trans _ _ _ S1).
  exact (copies_outside output_dir reduce_out q Hq fs1 fs2 C).
Qed.

Lemma mapreduce_touches_only_output_witness :
  exists fs' started,
    mapreduce cat tmp_madoop by_ordinal fs_job ["input"%string]
        ["output"%string]
      ["map.py"%string] ["reduce.py"%string] = (fs', started, OK tt) /\
    ~ under ["output"%string] ["input"%string; "a.txt"%string] /\
    same_entry (lookup ["input"%string; "a.txt"%string] fs_job)
      (lookup ["input"%string; "a.txt"%string] fs').
Proof.
  do 2 eexists.
  assert (mapreduce cat tmp_madoop by_ordinal fs_job ["input"%string]
      ["output"%string]
            ["map.py"%string] ["reduce.py"%string]
          = (_, _, OK tt)) as H by (vm_compute; reflexivity).
  assert (~ under ["output"%string] ["input"%string; "a.txt"%string]) as Hq
    by (intros [rest E]; discriminate).
  split; [exact H|]. split; [exact Hq|].
  exact (mapreduce_touches_only_output cat tmp_madoop by_ordinal fs_job
      ["input"%string]
           ["output"%string] ["map.py"%string] ["reduce.py"%string]
           _ _ _ ["input"%string; "a.txt"%string] H Hq).
Defined.

Lemma run_tasks_ok_inv (subprocess_run : path -> str -> str * Z)
  (exe input_path output_path : path) (input_dir : dir) (tasks : list nat) :
  forall (output_dir : dir) (started : list spawn)
         (output_dir' : dir) (started' : list spawn),
  run_tasks subprocess_run exe input_path output_path input_dir
    tasks output_dir started
    = (output_dir', started', OK tt) ->
  forallb (task_ok subprocess_run exe input_dir) tasks = true.
Proof.
  induction tasks as [|i tasks IH]; intros out started out' started';
    [reflexivity|].
  cbn [run_tasks forallb]. unfold task_ok at 1.
  destruct (entry_find (part_filename i) input_dir) as [stdin|];
    [|discriminate].
  destruct (subprocess_run exe stdin) as [stdout returncode].
  cbn [snd]. destruct (returncode =? 0)%Z; [|discriminate].
  intros H. now rewrite (IH _ _ _ _ H).
Qed.

(** A stage over the ordinals below [n], into an empty directory. *)
Lemma run_tasks_fresh (subprocess_run : path -> str -> str * Z)
  (exe input_path output_path : path) (input_dir : dir) (n : nat) (started :
      list spawn) :
  forallb (task_ok subprocess_run exe input_dir) (seq 0 n) = true ->
  run_tasks subprocess_run exe input_path output_path input_dir
    (seq 0 n) [] started
  = (task_outputs subprocess_run exe input_dir (seq 0 n),
     started ++ task_spawns exe input_dir (seq 0 n), OK tt).
Proof.
  intros H. rewrite <- (app_nil_r (seq 0 n)) at 1.
  rewrite (run_tasks_prefix subprocess_run exe _ _ input_dir _ [] H).
  cbn [run_tasks]. now rewrite after_tasks_fresh.
Qed.

(** The subprocesses a stage starts are those of its first tasks, in order,
    each on the partition of its ordinal; all of them when it returns. *)
Lemma run_tasks_trace (subprocess_run : path -> str -> str * Z)
  (exe input_path output_path : path) (input_dir : dir) (n : nat) :
  forall (s : nat) (output_dir : dir) (started : list spawn)
         (output_dir' : dir) (started' : list spawn) (r : result unit),
  run_tasks subprocess_run exe input_path output_path input_dir
    (seq s n) output_dir started
    = (output_dir', started', r) ->
  exists k,
    k <= n /\
    started' = started ++ task_spawns exe input_dir (seq s k) /\
    (r = OK tt ->
     k = n /\
     forallb (task_ok subprocess_run exe input_dir) (seq s n) = true).
Proof.
  induction n as [|n IH]; intros s out started out' started' r;
    cbn [seq run_tasks].
  - intros [= _ <- <-]. exists 0. rewrite app_nil_r. auto.
  - cbn [forallb]. unfold task_ok at 1.
    destruct (entry_find (part_filename s) input_dir) as [stdin|] eqn:E.
    + destruct (subprocess_run exe stdin) as [stdout returncode] eqn:R.
      cbn [snd]. destruct (returncode =? 0)%Z eqn:Z0.
      * intros H. destruct (IH _ _ _ _ _ _ H) as (k & Hk & -> & G).
        exists (S k). split; [lia|]. split.
        -- cbn [seq task_spawns map]. unfold stdin_of at 1. rewrite E.
           now rewrite <- app_assoc.
        -- intros Hr. destruct (G Hr) as [-> Ok]. now rewrite Ok.
      * intros [= _ <- <-]. exists 1. split; [lia|]. split; [|discriminate].
        cbn [seq task_spawns map]. unfold stdin_of. now rewrite E.
    + intros [= _ <- <-]. exists 0. rewrite app_nil_r.
      split; [lia|]. split; [reflexivity | discriminate].
Qed.

(** X13.  The subprocesses of a run that starts any are map tasks followed
    by reduce tasks: the map tasks of the first partitions of the input, in
    order, each on its partition, then the first reduce tasks, in order,
    each on the reducer input of its ordinal.  A reduce task is started
    only after the map task of every partition has exited with 0: a
    failing map task aborts the run before any reducer runs.  A run that
    returns has run every map task and the four reduce tasks. *)
Theorem mapreduce_reduces_after_maps
  (subprocess_run : path -> str -> str * Z) (tmpdir : path)
  (dir_order : string -> nat)
  (fs : node) (input_dir output_dir map_exe reduce_exe : path)
  (fs' : node) (started : list spawn) (r : result unit) :
  mapreduce subprocess_run tmpdir dir_order fs input_dir output_dir
    map_exe reduce_exe
    = (fs', started, r) ->
  started <> [] ->
  exists fs1 map_in num_map k m,
    mkdir output_dir fs = OK fs1 /\
    prepare_input_files fs1 input_dir [] = OK (map_in, num_map) /\
    k <= num_map /\ m <= MAX_NUM_REDUCE /\
    started =
      task_spawns map_exe map_in (seq 0 k) ++
      task_spawns reduce_exe
        (reduce_inputs subprocess_run dir_order map_exe map_in num_map)
        (seq 0 m) /\
    (m = 0 \/
     (k = num_map /\
      forallb (task_ok subprocess_run map_exe map_in) (seq 0 num_map)
        = true)) /\
    (r = OK tt -> k = num_map /\ m = MAX_NUM_REDUCE).
Proof.
  unfold mapreduce. intros H Hne.
  destruct (path_exists output_dir fs); [now injection H as _ <- _|].
  destruct (mkdir output_dir fs) as [fs1|e] eqn:M;
    [|now injection H as _ <- _].
  destruct (check_shebang map_exe fs1) as [[]|e];
    [|now injection H as _ <- _].
  destruct (check_shebang reduce_exe fs1) as [[]|e];
    [|now injection H as _ <- _].
  destruct (prepare_input_files fs1 input_dir []) as [[map_in num_map]|e]
    eqn:P; [|now injection H as _ <- _].
  exists fs1, map_in, num_map.
  destruct (map_stage subprocess_run map_exe _ _ map_in [] num_map [])
    as [[map_out started1] rm] eqn:Ms.
  unfold map_stage in Ms.
  destruct (run_tasks_trace _ _ _ _ _ _ _ _ _ _ _ _ Ms) as (k & Hk & E1 & G1).
  cbn [app] in E1. subst started1.
  destruct rm as [[]|e].
  2:{ injection H as _ <- <-. exists k, 0. cbn [seq task_spawns map].
      rewrite app_nil_r.
      split; [reflexivity|]. split; [exact P|]. split; [exact Hk|].
      split; [lia|]. split; [reflexivity|]. split; [now left|discriminate]. }
  destruct (G1 eq_refl) as [-> Ok].
  rewrite (run_tasks_fresh _ _ _ _ _ _ _ Ok) in Ms. injection Ms as <-.
  rewrite group_stage_eq, close_all_fresh in H.
  fold (reduce_inputs subprocess_run dir_order map_exe map_in num_map) in H.
  destruct (reduce_stage subprocess_run reduce_exe _ _ _ [] MAX_NUM_REDUCE _)
    as [[reduce_out started2] rr] eqn:Rs.
  unfold reduce_stage in Rs.
  destruct (run_tasks_trace _ _ _ _ _ _ _ _ _ _ _ _ Rs) as (m & Hm & E2 & G2).
  exists num_map, m.
  assert (started = started2 /\ (r = OK tt -> rr = OK tt)) as [-> Hr].
  { destruct rr as [[]|e]; [|injection H as _ <- <-; split; auto].
    destruct (for_each _ reduce_out fs1); injection H as _ <- <-; auto. }
  split; [reflexivity|]. split; [exact P|]. split; [lia|].
  split; [exact Hm|]. split; [exact E2|]. split; [right; auto|].
  intros Hok. destruct (G2 (Hr Hok)). auto.
Qed.

Lemma mapreduce_reduces_after_maps_witness :
  exists fs' started,
    mapreduce cat tmp_madoop by_ordinal fs_job
      ["input"%string] ["output"%string]
      ["map.py"%string] ["reduce.py"%string] = (fs', started, OK tt) /\
    started <> [] /\
    exists fs1 map_in num_map k m,
      mkdir ["output"%string] fs_job = OK fs1 /\
      prepare_input_files fs1 ["input"%string] [] = OK (map_in, num_map) /\
      k <= num_map /\ m <= MAX_NUM_REDUCE /\
      started =
        task_spawns ["map.py"%string] map_in (seq 0 k) ++
        task_spawns ["reduce.py"%string]
          (reduce_inputs cat by_ordinal ["map.py"%string] map_in num_map)
          (seq 0 m) /\
      (m = 0 \/
       (k = num_map /\
        forallb (task_ok cat ["map.py"%string] map_in) (seq 0 num_map)
          = true)) /\
      (OK tt = OK tt -> k = num_map /\ m = MAX_NUM_REDUCE).
Proof.
  do 2 eexists.
  assert (mapreduce cat tmp_madoop by_ordinal fs_job
            ["input"%string] ["output"%string]
            ["map.py"%string] ["reduce.py"%string]
          = (_, _, OK tt)) as H by (vm_compute; reflexivity).
  split; [exact H|].
  assert (forall l : list spawn,
            (["map.py"%string], record "b" "1" ++ record "a" "1") :: l
            <> []) as Hne by discriminate.
  split; [apply Hne|].
  exact (mapreduce_reduces_after_maps cat tmp_madoop by_ordinal fs_job
           ["input"%string] ["output"%string] ["map.py"%string]
           ["reduce.py"%string] _ _ _ H (Hne _)).
Defined.

(** Copying files with distinct names into an empty directory. *)
Lemma copy_into_empty (output_dir : path) (files : dir) (fs : node) :
  lookup output_dir fs = Some (Dir []) ->
  NoDup (map fst files) ->
  exists fs',
    for_each (fun fs f => shutil_copy (fst f) (snd f) output_dir fs) files fs
      = OK fs' /\
    lookup output_dir fs' = Some (Dir (as_files files)).
Proof.
  intros L Hnd.
  destruct (copy_loop output_dir files fs [] L (Forall_nil _))
    as (fs' & children & C & L' & _ & E).
  exists fs'. split; [exact C|]. rewrite L', E.
  now rewrite (entry_set_all_fresh File files []).
Qed.

Lemma task_outputs_names (subprocess_run : path -> str -> str * Z)
  (exe : path) (input_dir : dir) (tasks : list nat) :
  map fst (task_outputs subprocess_run exe input_dir tasks)
  = map part_filename tasks.
Proof. unfold task_outputs. now rewrite map_map. Qed.

(** X14.  A run that returns has composed the stages: it created the output
    directory, split the input, ran one map task per partition and then the
    four reduce tasks on the files the group stage made of the map outputs,
    and the output directory holds the standard output of each reduce
    task, under the name of its ordinal. *)
Theorem mapreduce_data_flow
  (subprocess_run : path -> str -> str * Z) (tmpdir : path)
  (dir_order : string -> nat)
  (fs : node) (input_dir output_dir map_exe reduce_exe : path)
  (fs' : node) (started : list spawn) :
  mapreduce subprocess_run tmpdir dir_order fs
    input_dir output_dir map_exe reduce_exe
    = (fs', started, OK tt) ->
  exists fs1 map_in num_map,
    mkdir output_dir fs = OK fs1 /\
    prepare_input_files fs1 input_dir [] = OK (map_in, num_map) /\
    started =
      task_spawns map_exe map_in (seq 0 num_map) ++
      task_spawns reduce_exe
        (reduce_inputs subprocess_run dir_order map_exe map_in num_map)
        (seq 0 MAX_NUM_REDUCE) /\
    lookup output_dir fs' =
      Some (Dir (as_files
        (task_outputs subprocess_run reduce_exe
           (reduce_inputs subprocess_run dir_order map_exe map_in num_map)
           (seq 0 MAX_NUM_REDUCE)))).
Proof.
  unfold mapreduce. intros H.
  destruct (path_exists output_dir fs); [discriminate|].
  destruct (mkdir output_dir fs) as [fs1|e] eqn:M; [|discriminate].
  destruct (check_shebang map_exe fs1) as [[]|e]; [|discriminate].
  destruct (check_shebang reduce_exe fs1) as [[]|e]; [|discriminate].
  destruct (prepare_input_files fs1 input_dir []) as [[map_in num_map]|e]
    eqn:P; [|discriminate].
  exists fs1, map_in, num_map. split; [reflexivity|]. split; [exact P|].
  destruct (map_stage subprocess_run map_exe _ _ map_in [] num_map [])
    as [[map_out started1] [[]|e]] eqn:Ms; [|discriminate].
  unfold map_stage in Ms.
  rewrite (run_tasks_fresh _ _ _ _ _ _ _ (run_tasks_ok_inv _ _ _ _ _ _ _ _ _ _
      Ms))
    in Ms.
  injection Ms as <- <-. cbn [app] in H.
  rewrite group_stage_eq, close_all_fresh in H.
  fold (reduce_inputs subprocess_run dir_order map_exe map_in num_map) in H.
  destruct (reduce_stage subprocess_run reduce_exe _ _ _ [] MAX_NUM_REDUCE _)
    as [[reduce_out started2] [[]|e]] eqn:Rs; [|discriminate].
  unfold reduce_stage in Rs.
  rewrite (run_tasks_fresh _ _ _ _ _ _ _ (run_tasks_ok_inv _ _ _ _ _ _ _ _ _ _
      Rs))
    in Rs.
  injection Rs as <- <-.
  destruct (mkdir_inv _ _ _ M) as (_ & _ & L1).
  destruct (copy_into_empty output_dir
              (task_outputs subprocess_run reduce_exe
                 (reduce_inputs subprocess_run dir_order map_exe map_in num_map)
                 (seq 0 MAX_NUM_REDUCE)) fs1 L1)
    as (fs2 & C & L2).
  { rewrite task_outputs_names. apply (part_names_NoDup 0). }
  assert (H' := H). clear H. revert H'.
  unfold task_outputs, MAX_NUM_REDUCE in C. cbn [seq map] in C.
  cbn [seq map]. rewrite C. intros [= <- <-]. split; [reflexivity|exact L2].
Qed.

(** With a mapper output whose last line has no line feed, what a run
    leaves depends on the order in which the operating system enumerates
    the mapper outputs. *)
Example mapreduce_enumeration_order :
  exists fs1 fs2 started1 started2,
    mapreduce cat tmp_madoop by_ordinal fs_open_ended
      ["input"%string] ["output"%string]
      ["map.py"%string] ["reduce.py"%string] = (fs1, started1, OK tt) /\
    mapreduce cat tmp_madoop newest_first fs_open_ended
      ["input"%string] ["output"%string]
      ["map.py"%string] ["reduce.py"%string] = (fs2, started2, OK tt) /\
    lookup ["output"; "part-00003"]%string fs1
    <> lookup ["output"; "part-00003"]%string fs2.
Proof.
  do 4 eexists. split; [vm_compute; reflexivity|].
  split; [vm_compute; reflexivity|]. vm_compute. discriminate.
Qed.

Lemma mapreduce_data_flow_witness :
  exists fs' started,
    mapreduce cat tmp_madoop by_ordinal fs_job ["input"%string]
        ["output"%string]
      ["map.py"%string] ["reduce.py"%string] = (fs', started, OK tt) /\
    exists fs1 map_in num_map,
      mkdir ["output"%string] fs_job = OK fs1 /\
      prepare_input_files fs1 ["input"%string] [] = OK (map_in, num_map) /\
      started =
        task_spawns ["map.py"%string] map_in (seq 0 num_map) ++
        task_spawns ["reduce.py"%string]
          (reduce_inputs cat by_ordinal ["map.py"%string] map_in num_map)
          (seq 0 MAX_NUM_REDUCE) /\
      lookup ["output"%string] fs' =
        Some (Dir (as_files
          (task_outputs cat ["reduce.py"%string]
             (reduce_inputs cat by_ordinal ["map.py"%string] map_in num_map)
             (seq 0 MAX_NUM_REDUCE)))).
Proof.
  do 2 eexists.
  assert (mapreduce cat tmp_madoop by_ordinal fs_job ["input"%string]
      ["output"%string]
            ["map.py"%string] ["reduce.py"%string]
          = (_, _, OK tt)) as H by (vm_compute; reflexivity).
  split; [exact H|].
  exact (mapreduce_data_flow cat tmp_madoop by_ordinal fs_job ["input"%string]
           ["output"%string] ["map.py"%string] ["reduce.py"%string]
           _ _ H).
Defined.

(** A run that nothing stops, with what it leaves. *)
Lemma mapreduce_ok_run
  (subprocess_run : path -> str -> str * Z) (tmpdir : path)
  (dir_order : string -> nat)
  (fs : node) (input_dir output_dir map_exe reduce_exe : path)
  (fs1 : node) (map_in : dir) (num_map : nat) :
  mkdir output_dir fs = OK fs1 ->
  check_shebang map_exe fs = OK tt ->
  check_shebang reduce_exe fs = OK tt ->
  prepare_input_files fs1 input_dir [] = OK (map_in, num_map) ->
  forallb (task_ok subprocess_run map_exe map_in) (seq 0 num_map) = true ->
  forallb (task_ok subprocess_run reduce_exe
             (reduce_inputs subprocess_run dir_order map_exe map_in num_map))
    (seq 0 MAX_NUM_REDUCE) = true ->
  exists fs',
    mapreduce subprocess_run tmpdir dir_order fs
      input_dir output_dir map_exe reduce_exe
      = (fs',
         task_spawns map_exe map_in (seq 0 num_map) ++
         task_spawns reduce_exe
           (reduce_inputs subprocess_run dir_order map_exe map_in num_map)
           (seq 0 MAX_NUM_REDUCE),
         OK tt) /\
    lookup output_dir fs' =
      Some (Dir (as_files
        (task_outputs subprocess_run reduce_exe
           (reduce_inputs subprocess_run dir_order map_exe map_in num_map)
           (seq 0 MAX_NUM_REDUCE)))).
Proof.
  intros M Hm Hr P Hmap Hred.
  destruct (mkdir_inv _ _ _ M) as (_ & _ & L1).
  destruct (copy_into_empty output_dir
              (task_outputs subprocess_run reduce_exe
                 (reduce_inputs subprocess_run dir_order map_exe map_in num_map)
                 (seq 0 MAX_NUM_REDUCE)) fs1 L1)
    as (fs2 & C & L2).
  { rewrite task_outputs_names. apply (part_names_NoDup 0). }
  exists fs2. split; [|exact L2]. unfold mapreduce.
  rewrite (mkdir_fresh _ _ _ M), M.
  rewrite (check_shebang_mkdir _ _ _ _ M Hm).
  rewrite (check_shebang_mkdir _ _ _ _ M Hr).
  rewrite P. unfold map_stage. rewrite (run_tasks_fresh _ _ _ _ _ _ _ Hmap).
  rewrite group_stage_eq, close_all_fresh.
  fold (reduce_inputs subprocess_run dir_order map_exe map_in num_map).
  unfold reduce_stage. rewrite (run_tasks_fresh _ _ _ _ _ _ _ Hred).
  rewrite C. reflexivity.
Qed.



Lemma split_all_empty (files : list str) :
  Forall (fun data => data = []) files ->
  forall (d : dir) (p : nat), split_all files d p = (d, p).
Proof.
  induction 1 as [|data files -> _ IH]; intros d p; [reflexivity|].
  cbn [split_all]. unfold parts, splits. cbn [length Z.of_nat].
  rewrite num_split_of_0. cbn [seq map]. rewrite Nat.add_0_r. apply IH.
Qed.

(** X16.  When the input directory holds no file, or only empty ones, a run
    starts no map task at all: it runs the four reduce tasks on empty input
    and, when the reduce executable exits with 0 on empty input, returns
    with four output files that each hold what the executable wrote. *)
Theorem mapreduce_empty_input
  (subprocess_run : path -> str -> str * Z) (tmpdir : path)
  (dir_order : string -> nat)
  (fs : node) (input_dir output_dir map_exe reduce_exe : path)
  (fs1 : node) (children : entries node) :
  mkdir output_dir fs = OK fs1 ->
  check_shebang map_exe fs = OK tt ->
  check_shebang reduce_exe fs = OK tt ->
  lookup input_dir fs1 = Some (Dir children) ->
  Forall (fun data => data = []) (regular_files children) ->
  snd (subprocess_run reduce_exe []) = 0%Z ->
  exists fs',
    mapreduce subprocess_run tmpdir dir_order fs
      input_dir output_dir map_exe reduce_exe
      = (fs', repeat (reduce_exe, []) MAX_NUM_REDUCE, OK tt) /\
    lookup output_dir fs' =
      Some (Dir (map (fun i =>
        (part_filename i, File (fst (subprocess_run reduce_exe []))))
        (seq 0 MAX_NUM_REDUCE))).
Proof.
  intros M Hm Hr L He Hrc.
  assert (prepare_input_files fs1 input_dir [] = OK ([], 0)) as P.
  { rewrite (prepare_input_files_spec _ _ _ L).
    unfold total_splits.
    rewrite (split_all_empty _ He). f_equal. f_equal.
    induction He as [|data files -> _ IH]; [reflexivity|].
    cbn [map list_sum]. unfold splits at 1. cbn [length Z.of_nat].
    now rewrite num_split_of_0. }
  assert (forallb (task_ok subprocess_run reduce_exe
                     (reduce_inputs subprocess_run dir_order map_exe [] 0))
            (seq 0 MAX_NUM_REDUCE) = true) as Hred.
  { unfold task_ok. cbn. rewrite Hrc. reflexivity. }
  destruct (mapreduce_ok_run subprocess_run tmpdir dir_order fs input_dir
      output_dir map_exe
              reduce_exe fs1 [] 0 M Hm Hr P eq_refl Hred)
    as (fs' & E & Lo).
  exists fs'. split; [exact E | exact Lo].
Qed.

Lemma mapreduce_empty_input_witness :
  mkdir ["output"%string] fs_empty_input = OK fs_empty_input_out /\
  check_shebang ["map.py"%string] fs_empty_input = OK tt /\
  check_shebang ["reduce.py"%string] fs_empty_input = OK tt /\
  lookup ["input"%string] fs_empty_input_out = Some (Dir []) /\
  Forall (fun data : str => data = []) (regular_files []) /\
  snd (cat ["reduce.py"%string] []) = 0%Z /\
  exists fs',
    mapreduce cat tmp_madoop by_ordinal fs_empty_input ["input"%string]
        ["output"%string]
      ["map.py"%string] ["reduce.py"%string]
      = (fs', repeat (["reduce.py"%string], []) MAX_NUM_REDUCE, OK tt) /\
    lookup ["output"%string] fs' =
      Some (Dir (map (fun i =>
        (part_filename i, File (fst (cat ["reduce.py"%string] []))))
        (seq 0 MAX_NUM_REDUCE))).
Proof.
  assert (mkdir ["output"%string] fs_empty_input = OK fs_empty_input_out)
    as M by reflexivity.
  assert (check_shebang ["map.py"%string] fs_empty_input = OK tt) as Hm
    by (vm_compute; reflexivity).
  assert (check_shebang ["reduce.py"%string] fs_empty_input = OK tt) as Hr
    by (vm_compute; reflexivity).
  assert (lookup ["input"%string] fs_empty_input_out = Some (Dir [])) as L
    by reflexivity.
  assert (Forall (fun data : str => data = []) (regular_files [])) as He
    by constructor.
  assert (snd (cat ["reduce.py"%string] []) = 0%Z) as Hrc by reflexivity.
  split; [exact M|]. split; [exact Hm|]. split; [exact Hr|].
  split; [exact L|]. split; [exact He|]. split; [exact Hrc|].
  exact (mapreduce_empty_input cat tmp_madoop by_ordinal fs_empty_input
      ["input"%string]
           ["output"%string] ["map.py"%string] ["reduce.py"%string]
           fs_empty_input_out [] M Hm Hr L He Hrc).
Defined.

(** ** [keyhash] *)

Lemma le_bytes_bytes (n : nat) : forall x, Forall is_byte (MD5.le_bytes n x).
Proof.
  induction n as [|n IH]; intros x; simpl; constructor; [|apply IH].
  unfold is_byte. apply Z.mod_pos_bound. lia.
Qed.

Lemma le_bytes_length (n : nat) : forall x, length (MD5.le_bytes n x) = n.
Proof. induction n as [|n IH]; intros x; simpl; [|rewrite IH]; reflexivity. Qed.

Lemma digest_bytes (msg : list Z) :
  Forall is_byte (MD5.digest msg) /\ length (MD5.digest msg) = 16.
Proof.
  unfold MD5.digest.
  destruct (fold_left MD5.process_block _ MD5.init) as [[[a b] c] d].
  split.
  - repeat (apply Forall_app; split); apply le_bytes_bytes.
  - now rewrite !length_app, !le_bytes_length.
Qed.

Lemma hexval_hexdigit (x : Z) :
  (0 <= x < 16)%Z -> hexval (MD5.hexdigit x) = x.
Proof.
  intros H.
  assert (x = 0 \/ x = 1 \/ x = 2 \/ x = 3 \/ x = 4 \/ x = 5 \/ x = 6
          \/ x = 7 \/ x = 8 \/ x = 9 \/ x = 10 \/ x = 11 \/ x = 12
          \/ x = 13 \/ x = 14 \/ x = 15)%Z as C by lia.
  repeat (destruct C as [->|C]; [reflexivity|]). now subst.
Qed.

Lemma int16_hex (bytes : list Z) :
  Forall is_byte bytes ->
  forall acc,
  fold_left (fun acc c => (16 * acc + hexval c)%Z)
    (flat_map (fun b => [MD5.hexdigit (b / 16); MD5.hexdigit (b mod 16)]) bytes)
    acc
  = fold_left (fun acc b => (256 * acc + b)%Z) bytes acc.
Proof.
  induction 1 as [|b bytes Hb _ IH]; intros acc; [reflexivity|].
  cbn [flat_map app fold_left]. rewrite IH. f_equal.
  unfold is_byte in Hb.
  rewrite !hexval_hexdigit.
  - pose proof (Z.div_mod b 16 ltac:(lia)). lia.
  - apply Z.mod_pos_bound. lia.
  - split; [apply Z.div_pos; lia | apply Z.div_lt_upper_bound; lia].
Qed.

Lemma be_value_bound (bytes : list Z) :
  Forall is_byte bytes ->
  forall acc, (0 <= acc)%Z ->
  (0 <= fold_left (fun acc b => 256 * acc + b) bytes acc
   < (acc + 1) * 256 ^ Z.of_nat (length bytes))%Z.
Proof.
  induction 1 as [|b bytes Hb _ IH]; intros acc Hacc.
  - simpl. lia.
  - cbn [fold_left length]. unfold is_byte in Hb.
    specialize (IH (256 * acc + b)%Z ltac:(lia)).
    rewrite Nat2Z.inj_succ, Z.pow_succ_r by lia.
    assert (0 < 256 ^ Z.of_nat (length bytes))%Z by (apply Z.pow_pos_nonneg;
        lia).
    nia.
Qed.

(** X17.  The hash of a key is the sixteen bytes of its MD5 digest read as
    one big-endian number: the hexadecimal digest parses back to the bytes
    it prints, so the hash is a natural number below 2^128. *)
Theorem keyhash_is_digest_value (key : str) :
  keyhash key = be_value (MD5.digest (encode_utf8 key)) /\
  (0 <= keyhash key < 2 ^ 128)%Z.
Proof.
  destruct (digest_bytes (encode_utf8 key)) as [B L].
  assert (keyhash key = be_value (MD5.digest (encode_utf8 key))) as E.
  { unfold keyhash, int16, MD5.hexdigest, be_value. now apply int16_hex. }
  split; [exact E|]. rewrite E. unfold be_value.
  pose proof (be_value_bound _ B 0%Z ltac:(lia)) as R.
  rewrite L in R. exact R.
Qed.

(** ** [check_shebang] *)

(** The loop of [readline] ends before its turns run out: one turn more
    than there are bytes is as good as any larger number. *)
Lemma readline_chunks_turns (n : nat) :
  forall (m : nat) (pending : str) (pendingcr : bool) (remaining rest : str),
  length rest < n -> length rest < m ->
  readline_chunks n pending pendingcr remaining rest
  = readline_chunks m pending pendingcr remaining rest.
Proof.
  induction n as [|n IH]; intros m pending pendingcr remaining rest Hn Hm;
    [lia|].
  destruct m as [|m]; [lia|]. cbn [readline_chunks].
  destruct (utf8_decode (pending ++ firstn CHUNK_SIZE rest))
    as [[output pending']|]; [|reflexivity].
  destruct (is_empty (firstn CHUNK_SIZE rest)) eqn:F.
  - destruct (true && negb (is_empty pending')); [reflexivity|].
    now destruct (has_line_feed _).
  - cbn [andb]. destruct (has_line_feed _); [reflexivity|].
    assert (0 < CHUNK_SIZE) as Hc
      by (apply Nat.neq_0_lt_0, Nat.pow_nonzero; discriminate).
    assert (0 < length rest) as Hr.
    { destruct rest; [|simpl; lia]. now rewrite firstn_nil in F. }
    apply IH; rewrite length_skipn; lia.
Qed.

Lemma universal_newlines_keeps_lf (s : str) :
  In LF s -> In LF (universal_newlines s).
Proof.
  induction s as [|c s IH]; [tauto|].
  intros H. cbn [universal_newlines].
  destruct (ascii_dec c CR) as [->|Hc].
  - destruct H as [H|H]; [discriminate|].
    destruct s as [|d s']; [destruct H|].
    destruct (ascii_dec d LF); [now apply IH | now left].
  - destruct H as [->|H]; [now left | right; now apply IH].
Qed.

Lemma removelast_keeps_lf (s : str) :
  In LF s -> last s LF = CR -> In LF (removelast s).
Proof.
  induction s as [|c s IH]; [tauto|].
  destruct s as [|d s'].
  - intros [->|[]]. discriminate.
  - intros [->|H] L; [now left|]. right. now apply IH.
Qed.

Lemma has_line_feed_in (s : str) : In LF s -> has_line_feed s = true.
Proof.
  intros H. unfold has_line_feed. apply existsb_exists. exists LF.
  split; [exact H|]. now destruct (ascii_dec LF LF).
Qed.

(** When the first chunk decodes to a text with a line feed, the first
    line is found in it and nothing else is read. *)
Lemma readline_first_chunk (data text pending : str) :
  utf8_decode (firstn CHUNK_SIZE data) = Some (text, pending) ->
  In LF text ->
  readline data =
  OK (hd [] (readlines (universal_newlines
       (if ends_with_cr text then removelast text else text)))).
Proof.
  intros D H. unfold readline. cbn [readline_chunks app].
  rewrite D.
  assert (is_empty (firstn CHUNK_SIZE data) = false) as ->.
  { destruct (firstn CHUNK_SIZE data); [|reflexivity].
    injection D as <- _. destruct H. }
  cbn [andb negb orb]. rewrite andb_true_r.
  rewrite has_line_feed_in; [reflexivity|].
  apply universal_newlines_keeps_lf. unfold ends_with_cr.
  destruct (ascii_dec (last text LF) CR) as [L|_]; [|exact H].
  now apply removelast_keeps_lf.
Qed.

(** X18.  The validation reads no further than the chunk in which the first
    line ends: when the first 8192 bytes of an executable decode to a text
    with a line feed, the verdict depends on those bytes only, whatever
    follows them, be it bytes that are not text. *)
Theorem check_shebang_reads_first_chunk
  (exe : path) (fs fs' : node) (data data' text pending : str) :
  read_file exe fs = OK data ->
  read_file exe fs' = OK data' ->
  firstn CHUNK_SIZE data' = firstn CHUNK_SIZE data ->
  utf8_decode (firstn CHUNK_SIZE data) = Some (text, pending) ->
  In LF text ->
  check_shebang exe fs' = check_shebang exe fs.
Proof.
  intros R R' E D H. unfold check_shebang. rewrite R, R'. cbn [bind].
  rewrite (readline_first_chunk data text pending D H).
  rewrite <- E in D.
  now rewrite (readline_first_chunk data' text pending D H).
Qed.

Lemma check_shebang_reads_first_chunk_witness :
  let text := script ++ repeat "#"%char (CHUNK_SIZE - length script) in
  read_file ["map.py"%string] fs_long_script = OK long_script /\
  read_file ["map.py"%string] fs_binary_tail = OK binary_tail /\
  firstn CHUNK_SIZE binary_tail = firstn CHUNK_SIZE long_script /\
  utf8_decode (firstn CHUNK_SIZE long_script) = Some (text, []) /\
  In LF text /\
  check_shebang ["map.py"%string] fs_binary_tail
  = check_shebang ["map.py"%string] fs_long_script.
Proof.
  intros text.
  assert (read_file ["map.py"%string] fs_long_script = OK long_script) as R
    by reflexivity.
  assert (read_file ["map.py"%string] fs_binary_tail = OK binary_tail) as R'
    by reflexivity.
  assert (firstn CHUNK_SIZE binary_tail = firstn CHUNK_SIZE long_script) as E
    by (vm_compute; reflexivity).
  assert (utf8_decode (firstn CHUNK_SIZE long_script) = Some (text, [])) as D
    by (vm_compute; reflexivity).
  assert (In LF text) as H
    by (apply in_or_app; left; apply in_or_app; right; now left).
  split; [exact R|]. split; [exact R'|]. split; [exact E|].
  split; [exact D|]. split; [exact H|].
  exact (check_shebang_reads_first_chunk ["map.py"%string] fs_long_script
           fs_binary_tail long_script binary_tail text [] R R' E D H).
Defined.

(** ** [check_num_keys] *)

Lemma count_lines (lines : list str) :
  forall n, fold_left (fun k _ => k + 1) lines n = n + length lines.
Proof.
  induction lines as [|l lines IH]; intros n; simpl; [lia|].
  rewrite IH. lia.
Qed.

(** X19.  The check counts lines, not keys: on a file of complete lines it
    raises exactly when there is one line, so a file of several lines that
    all share one key passes, and a file with a single record is refused. *)
Theorem check_num_keys_counts_lines
  (filename : path) (fs : node) (lines : list str) :
  read_file filename fs = OK (writelines lines) ->
  Forall text_line lines ->
  check_num_keys filename fs =
  if length lines =? 1 then Raise (MadoopError (py "Single key detected"))
  else OK tt.
Proof.
  intros R H. unfold check_num_keys. rewrite R. cbn [bind].
  now rewrite (read_text_of_lines _ H), count_lines.
Qed.

Lemma check_num_keys_counts_lines_witness :
  read_file ["part-00000"%string] fs_one_key
    = OK (writelines [record "k" "1"; record "k" "2"]) /\
  Forall text_line [record "k" "1"; record "k" "2"] /\
  check_num_keys ["part-00000"%string] fs_one_key =
  if length [record "k" "1"; record "k" "2"] =? 1
  then Raise (MadoopError (py "Single key detected"))
  else OK tt.
Proof.
  assert (read_file ["part-00000"%string] fs_one_key
          = OK (writelines [record "k" "1"; record "k" "2"])) as R
    by reflexivity.
  assert (Forall text_line [record "k" "1"; record "k" "2"]) as H.
  { repeat constructor.
    - exists (py "k" ++ [TAB] ++ py "1"). split; [reflexivity|].
      vm_compute. intuition discriminate.
    - vm_compute. intuition discriminate.
    - exists (py "k" ++ [TAB] ++ py "2"). split; [reflexivity|].
      vm_compute. intuition discriminate.
    - vm_compute. intuition discriminate. }
  split; [exact R|]. split; [exact H|].
  exact (check_num_keys_counts_lines ["part-00000"%string] fs_one_key
           [record "k" "1"; record "k" "2"] R H).
Defined.

(** ** [main] *)

Lemma mapreduce_no_input_dir
  (subprocess_run : path -> str -> str * Z) (tmpdir : path)
  (dir_order : string -> nat)
  (fs : node) (input_dir output_dir map_exe reduce_exe : path) (fs1 : node) :
  is_dir input_dir fs = false ->
  input_dir <> output_dir ->
  mkdir output_dir fs = OK fs1 ->
  check_shebang map_exe fs = OK tt ->
  check_shebang reduce_exe fs = OK tt ->
  mapreduce subprocess_run tmpdir dir_order fs
    input_dir output_dir map_exe reduce_exe
    = (fs1, [], Raise (input_dir_not_found input_dir)).
Proof.
  intros Hin Hne M Hm Hr.
  unfold mapreduce. rewrite (mkdir_fresh _ _ _ M), M.
  rewrite (check_shebang_mkdir _ _ _ _ M Hm).
  rewrite (check_shebang_mkdir _ _ _ _ M Hr).
  unfold prepare_input_files.
  pose proof (mkdir_is_dir _ input_dir _ _ M Hne) as D.
  rewrite Hin in D. unfold is_dir in D.
  destruct (lookup input_dir fs1) as [[x|ch]|]; try discriminate;
    reflexivity.
Qed.

(** X20.  With a missing input directory, and nothing else wrong, the
    command does not end with an error message of its own: the assertion
    of the input preparer escapes the handler of [main].  The output
    directory it created stays, so the same command run again ends with
    the message that the output directory already exists. *)
Theorem main_missing_input_twice
  (subprocess_run : path -> str -> str * Z) (tmpdir : path)
  (dir_order : string -> nat)
  (fs : node) (input output mapper reducer : path) (fs1 : node) :
  is_dir input fs = false ->
  input <> output ->
  mkdir output fs = OK fs1 ->
  check_shebang mapper fs = OK tt ->
  check_shebang reducer fs = OK tt ->
  main subprocess_run tmpdir dir_order fs input output mapper reducer
    = (fs1, [], Escapes (input_dir_not_found input)) /\
  main subprocess_run tmpdir dir_order fs1 input output mapper reducer
    = (fs1, [],
       SysExit (py "Error: Output directory already exists: "
                  ++ path_str output)).
Proof.
  intros Hin Hne M Hm Hr. split.
  - unfold main.
    now rewrite (mapreduce_no_input_dir _ tmpdir dir_order _ _ _ _ _ _ Hin Hne M
        Hm Hr).
  - destruct (mkdir_inv _ _ _ M) as (_ & _ & L1).
    unfold main, mapreduce, path_exists. rewrite L1. reflexivity.
Qed.

Lemma main_missing_input_twice_witness :
  is_dir ["input"%string] fs_no_input = false /\
  ["input"%string] <> ["output"%string] /\
  mkdir ["output"%string] fs_no_input = OK fs_no_input_out /\
  check_shebang ["map.py"%string] fs_no_input = OK tt /\
  check_shebang ["reduce.py"%string] fs_no_input = OK tt /\
  main cat tmp_madoop by_ordinal fs_no_input ["input"%string] ["output"%string]
    ["map.py"%string] ["reduce.py"%string]
    = (fs_no_input_out, [], Escapes (input_dir_not_found ["input"%string])) /\
  main cat tmp_madoop by_ordinal fs_no_input_out ["input"%string]
      ["output"%string]
    ["map.py"%string] ["reduce.py"%string]
    = (fs_no_input_out, [],
       SysExit (py "Error: Output directory already exists: "
                  ++ path_str ["output"%string])).
Proof.
  assert (is_dir ["input"%string] fs_no_input = false) as Hin by reflexivity.
  assert (["input"%string] <> ["output"%string]) as Hne by discriminate.
  assert (mkdir ["output"%string] fs_no_input = OK fs_no_input_out) as M
    by reflexivity.
  assert (check_shebang ["map.py"%string] fs_no_input = OK tt) as Hm
    by (vm_compute; reflexivity).
  assert (check_shebang ["reduce.py"%string] fs_no_input = OK tt) as Hr
    by (vm_compute; reflexivity).
  split; [exact Hin|]. split; [exact Hne|].
  split; [exact M|]. split; [exact Hm|]. split; [exact Hr|].
  exact (main_missing_input_twice cat tmp_madoop by_ordinal fs_no_input
      ["input"%string]
           ["output"%string] ["map.py"%string] ["reduce.py"%string]
           fs_no_input_out Hin Hne M Hm Hr).
Defined.

(** ** Failed runs *)

(** X21.  A run that raises leaves no result behind: the file system is
    what it was, or what it was with the empty output directory added.
    Results are copied only after every stage has returned, and the copy
    into the directory the run created cannot fail. *)
Theorem mapreduce_failure_leaves_no_results
  (subprocess_run : path -> str -> str * Z) (tmpdir : path)
  (dir_order : string -> nat)
  (fs : node) (input_dir output_dir map_exe reduce_exe : path)
  (fs' : node) (started : list spawn) (e : exn) :
  mapreduce subprocess_run tmpdir dir_order fs
    input_dir output_dir map_exe reduce_exe
    = (fs', started, Raise e) ->
  fs' = fs \/
  (mkdir output_dir fs = OK fs' /\ lookup output_dir fs' = Some (Dir [])).
Proof.
  unfold mapreduce. intros H.
  destruct (path_exists output_dir fs); [injection H as <- _ _; now left|].
  destruct (mkdir output_dir fs) as [fs1|e1] eqn:M;
    [|injection H as <- _ _; now left].
  destruct (mkdir_inv _ _ _ M) as (_ & _ & L1).
  assert (fs1 = fs' -> fs' = fs \/
            (OK fs1 = OK fs' /\ lookup output_dir fs' = Some (Dir [])))
    as Done by (intros <-; right; now split).
  destruct (check_shebang map_exe fs1) as [[]|e1];
    [|injection H as E _ _; now apply Done].
  destruct (check_shebang reduce_exe fs1) as [[]|e1];
    [|injection H as E _ _; now apply Done].
  destruct (prepare_input_files fs1 input_dir []) as [[map_in num_map]|e1];
    [|injection H as E _ _; now apply Done].
  destruct (map_stage subprocess_run map_exe _ _ map_in [] num_map [])
    as [[map_out started1] [[]|e1]]; [|injection H as E _ _; now apply Done].
  rewrite group_stage_eq, close_all_fresh in H.
  destruct (reduce_stage subprocess_run reduce_exe _ _ _ [] MAX_NUM_REDUCE
      started1)
    as [[reduce_out started2] [[]|e1]] eqn:Rs;
    [|injection H as E _ _; now apply Done].
  unfold reduce_stage in Rs.
  pose proof (run_tasks_names _ _ _ _ _ _ _ _ _ _ Rs (part_names_NoDup 0 _))
    as N.
  destruct (copy_into_empty output_dir reduce_out fs1 L1) as (fs2 & C & _).
  { cbn [app] in N. rewrite N. apply (part_names_NoDup 0). }
  rewrite C in H. discriminate.
Qed.

Lemma mapreduce_failure_leaves_no_results_witness :
  mapreduce cat tmp_madoop by_ordinal fs_python2 ["input"%string]
      ["output"%string]
    ["map.py"%string] ["reduce.py"%string]
    = (fs_python2_out, [],
       Raise (invalid_shebang ["reduce.py"%string]
                (py "#!/usr/bin/env python2"))) /\
  (fs_python2_out = fs_python2 \/
   (mkdir ["output"%string] fs_python2 = OK fs_python2_out /\
    lookup ["output"%string] fs_python2_out = Some (Dir []))).
Proof.
  assert (mapreduce cat tmp_madoop by_ordinal fs_python2 ["input"%string]
      ["output"%string]
            ["map.py"%string] ["reduce.py"%string]
          = (fs_python2_out, [],
             Raise (invalid_shebang ["reduce.py"%string]
                      (py "#!/usr/bin/env python2")))) as H
    by (vm_compute; reflexivity).
  split; [exact H|].
  exact (mapreduce_failure_leaves_no_results cat tmp_madoop by_ordinal
      fs_python2
           ["input"%string] ["output"%string] ["map.py"%string]
           ["reduce.py"%string] fs_python2_out [] _ H).
Defined.

Lemma missing_kinds (p : path) :
  forall fs : node,
  missing p fs = FileNotFoundError \/ missing p fs = NotADirectoryError.
Proof.
  induction p as [|c p IH]; intros fs; simpl; [now left|].
  destruct fs as [data|ch]; [now right|].
  destruct (entry_find c ch); [apply IH | now left].
Qed.

(** A path is refused as not a directory when a regular file stands at a
    proper prefix of it. *)
Lemma missing_not_a_directory (p : path) :
  forall fs : node,
  missing p fs = NotADirectoryError <->
  exists q c rest data, p = q ++ c :: rest /\ lookup q fs = Some (File data).
Proof.
  induction p as [|c0 p IH]; intros fs; simpl.
  - split; [discriminate|]. intros (q & c & rest & data & E & _).
    now destruct q.
  - destruct fs as [d|ch].
    + split; [|reflexivity]. intros _. now exists [], c0, p, d.
    + destruct (entry_find c0 ch) as [m|] eqn:Ec.
      * rewrite IH. split.
        -- intros (q & c & rest & data & -> & L).
           exists (c0 :: q), c, rest, data. simpl. now rewrite Ec.
        -- intros (q & c & rest & data & E & L).
           destruct q as [|c1 q]; [discriminate|].
           injection E as <- ->. simpl in L. rewrite Ec in L.
           now exists q, c, rest, data.
      * split; [discriminate|]. intros (q & c & rest & data & E & L).
        destruct q as [|c1 q]; [discriminate|].
        injection E as <- ->. simpl in L. now rewrite Ec in L.
Qed.

(** Creating a directory where there was nothing does not change why
    another path cannot be walked. *)
Lemma missing_put_fresh (p : path) :
  forall (fs fs' : node) (q : path),
  lookup p fs = None -> put p (Dir []) fs = Some fs' ->
  lookup q fs = None -> q <> p ->
  missing q fs' = missing q fs.
Proof.
  induction p as [|c p IH]; intros fs fs' q; simpl; [discriminate|].
  destruct fs as [data|ch]; [discriminate|].
  destruct (entry_find c ch) as [m|] eqn:E.
  - intros Hn. destruct (put p (Dir []) m) as [m'|] eqn:P; [|discriminate].
    intros [= <-] Lq Hq. destruct q as [|d q]; simpl in *; [discriminate|].
    destruct (string_dec d c) as [->|Hd].
    + rewrite E in *. rewrite entry_find_set_same.
      apply (IH m m' q Hn P Lq). congruence.
    + now rewrite entry_find_set_other by assumption.
  - intros _. destruct p; [|discriminate].
    intros [= <-] Lq Hq. destruct q as [|d q]; simpl in *; [discriminate|].
    destruct (string_dec d c) as [->|Hd].
    + rewrite E, entry_find_set_same.
      destruct q as [|e q]; [congruence|]. reflexivity.
    + now rewrite entry_find_set_other by assumption.
Qed.

(** X22.  A map executable that is not there is not reported as the
    program's error: a run that got to create its output directory raises
    the error of the operating system when it opens the file to read its
    first line, [NotADirectoryError] when a regular file stands at a proper
    prefix of the path and [FileNotFoundError] otherwise, and leaves the
    output directory, empty. *)
Theorem mapreduce_missing_executable
  (subprocess_run : path -> str -> str * Z) (tmpdir : path)
  (dir_order : string -> nat)
  (fs : node) (input_dir output_dir map_exe reduce_exe : path) (fs1 : node) :
  mkdir output_dir fs = OK fs1 ->
  map_exe <> output_dir ->
  lookup map_exe fs = None ->
  let through_a_file :=
    exists q c rest data,
      map_exe = q ++ c :: rest /\ lookup q fs = Some (File data) in
  (exists e,
     mapreduce subprocess_run tmpdir dir_order fs input_dir output_dir
       map_exe reduce_exe = (fs1, [], Raise e) /\
     (through_a_file -> e = NotADirectoryError) /\
     (~ through_a_file -> e = FileNotFoundError)) /\
  lookup output_dir fs1 = Some (Dir []).
Proof.
  intros M Hne L through_a_file.
  destruct (mkdir_inv _ _ _ M) as (Lo & P & L1).
  split; [|exact L1]. exists (missing map_exe fs). split; [|split].
  - unfold mapreduce. rewrite (mkdir_fresh _ _ _ M), M.
    pose proof (put_fresh_lookup _ _ _ map_exe Lo P Hne) as S.
    rewrite L in S. unfold check_shebang, read_file.
    destruct (lookup map_exe fs1) as [[x|ch]|]; simpl in S; try contradiction.
    cbn [bind]. now rewrite (missing_put_fresh _ _ _ _ Lo P L Hne).
  - intros T. now apply missing_not_a_directory.
  - intros T. destruct (missing_kinds map_exe fs) as [K|K]; [exact K|].
    exfalso. apply T. now apply missing_not_a_directory.
Qed.

Lemma mapreduce_missing_executable_witness :
  mkdir ["output"%string] fs_no_input = OK fs_no_input_out /\
  ["reduce.py"; "map.py"]%string <> ["output"%string] /\
  lookup ["reduce.py"; "map.py"]%string fs_no_input = None /\
  let through_a_file :=
    exists q c rest data,
      ["reduce.py"; "map.py"]%string = q ++ c :: rest /\
      lookup q fs_no_input = Some (File data) in
  (exists e,
     mapreduce cat tmp_madoop by_ordinal fs_no_input
       ["input"%string] ["output"%string]
       ["reduce.py"; "map.py"]%string ["reduce.py"%string]
       = (fs_no_input_out, [], Raise e) /\
     (through_a_file -> e = NotADirectoryError) /\
     (~ through_a_file -> e = FileNotFoundError)) /\
  lookup ["output"%string] fs_no_input_out = Some (Dir []).
Proof.
  assert (mkdir ["output"%string] fs_no_input = OK fs_no_input_out) as M
    by reflexivity.
  assert (["reduce.py"; "map.py"]%string <> ["output"%string]) as Hne
    by discriminate.
  assert (lookup ["reduce.py"; "map.py"]%string fs_no_input = None) as L
    by reflexivity.
  split; [exact M|]. split; [exact Hne|]. split; [exact L|].
  exact (mapreduce_missing_executable cat tmp_madoop by_ordinal fs_no_input
           ["input"%string] ["output"%string] ["reduce.py"; "map.py"]%string
           ["reduce.py"%string] fs_no_input_out M Hne L).
Defined.

(** A map executable that is a binary, not a script: the run stops at the
    validation with the decoding error, the output directory created. *)
Example mapreduce_binary_executable :
  mapreduce cat tmp_madoop by_ordinal fs_binary
    ["input"%string] ["output"%string]
    ["map"%string] ["reduce.py"%string]
  = (fs_binary_out, [], Raise UnicodeDecodeError).
Proof. vm_compute. reflexivity. Qed.

Example mapreduce_executable_below_a_file :
  mapreduce cat tmp_madoop by_ordinal fs_no_input
    ["input"%string] ["output"%string]
    ["reduce.py"; "map.py"]%string ["reduce.py"%string]
  = (fs_no_input_out, [], Raise NotADirectoryError) /\
  mapreduce cat tmp_madoop by_ordinal fs_no_input
    ["input"%string] ["output"%string]
    ["mapper.py"%string] ["reduce.py"%string]
  = (fs_no_input_out, [], Raise FileNotFoundError).
Proof. split; reflexivity. Qed.

(** ** Partitions between the stages *)

Lemma entry_find_name {A : Type} (name : string) (d : entries A) :
  In name (map fst d) -> exists a, entry_find name d = Some a.
Proof.
  induction d as [|[n b] d IH]; simpl; [intros []|].
  destruct (string_dec n name) as [->|Hn]; [eauto|].
  intros [E|I]; [contradiction | now apply IH].
Qed.

(** X23.  Every ordinal below the number the input preparer returns names
    a partition it wrote, so no map task of a run opens a missing file; and
    every ordinal below the number the group stage returns names a file it
    wrote, so no reduce task does. *)
Theorem stages_find_their_partitions
  (fs : node) (input_dir : path) (map_in : dir) (num_map : nat)
  (map_out group_out : dir) (i j : nat) :
  prepare_input_files fs input_dir [] = OK (map_in, num_map) ->
  i < num_map ->
  j < MAX_NUM_REDUCE ->
  (exists data, entry_find (part_filename i) map_in = Some data) /\
  (exists in' out' data,
     group_stage map_out group_out = OK (in', out', MAX_NUM_REDUCE) /\
     entry_find (part_filename j) out' = Some data).
Proof.
  intros P Hi Hj. split.
  - unfold prepare_input_files in P.
    destruct (lookup input_dir fs) as [[x|ch]|] eqn:L; try discriminate.
    fold (regular_files ch) in P. rewrite for_each_split_file in P.
    injection P as P.
    pose proof (f_equal fst P) as P1. pose proof (f_equal snd P) as P2.
    cbn [fst snd] in P1, P2. subst map_in num_map.
    apply entry_find_name. rewrite split_all_names by reflexivity.
    rewrite split_all_count in Hi. apply in_map, in_seq. lia.
  - rewrite group_stage_eq. do 3 eexists. split; [reflexivity|].
    apply (reducer_input_close _ _ _ Hj).
Qed.

Lemma stages_find_their_partitions_witness :
  prepare_input_files fs_two_files ["input"%string] []
    = OK ([("part-00000"%string, py "x y" ++ [LF] ++ py "z" ++ [LF]);
           ("part-00001"%string, py "u" ++ [LF] ++ py "v")], 2) /\
  1 < 2 /\
  3 < MAX_NUM_REDUCE /\
  (exists data,
     entry_find (part_filename 1)
       [("part-00000"%string, py "x y" ++ [LF] ++ py "z" ++ [LF]);
        ("part-00001"%string, py "u" ++ [LF] ++ py "v")] = Some data) /\
  (exists in' out' data,
     group_stage wc_mapper_output [] = OK (in', out', MAX_NUM_REDUCE) /\
     entry_find (part_filename 3) out' = Some data).
Proof.
  assert (prepare_input_files fs_two_files ["input"%string] []
          = OK ([("part-00000"%string, py "x y" ++ [LF] ++ py "z" ++ [LF]);
                 ("part-00001"%string, py "u" ++ [LF] ++ py "v")], 2)) as P
    by reflexivity.
  assert (1 < 2) as Hi by lia.
  assert (3 < MAX_NUM_REDUCE) as Hj by (unfold MAX_NUM_REDUCE; lia).
  split; [exact P|]. split; [exact Hi|]. split; [exact Hj|].
  exact (stages_find_their_partitions fs_two_files ["input"%string] _ 2
           wc_mapper_output [] 1 3 P Hi Hj).
Defined.


(** ** The round robin is even *)

Lemma residue_step (m N : Z) :
  (0 < N)%Z ->
  (m / N - (m - 1) / N = if m mod N =? 0 then 1 else 0)%Z.
Proof.
  intros HN.
  pose proof (Z.div_mod m N ltac:(lia)) as D1.
  pose proof (Z.mod_pos_bound m N HN) as B1.
  destruct (Z.eqb_spec (m mod N) 0) as [E|E].
  - assert ((m - 1) / N = m / N - 1)%Z as ->; [|lia].
    symmetry. apply (Z.div_unique_pos _ _ _ (N - 1)); lia.
  - assert ((m - 1) / N = m / N)%Z as ->; [|lia].
    symmetry. apply (Z.div_unique_pos _ _ _ (m mod N - 1)); lia.
Qed.

Lemma residue_nat (k j N : nat) :
  j < N ->
  (k mod N =? j) =
  ((Z.of_nat k - Z.of_nat j) mod Z.of_nat N =? 0)%Z.
Proof.
  intros Hj.
  pose proof (Nat2Z.inj_mod k N) as M.
  pose proof (Z.mod_pos_bound (Z.of_nat k) (Z.of_nat N) ltac:(lia)) as B.
  pose proof (Z.div_mod (Z.of_nat k) (Z.of_nat N) ltac:(lia)) as D.
  destruct (Nat.eqb_spec (k mod N) j) as [E|E];
    destruct (Z.eqb_spec ((Z.of_nat k - Z.of_nat j) mod Z.of_nat N) 0)
      as [F|F]; try reflexivity; exfalso.
  - apply F. rewrite <- E, M.
    replace (Z.of_nat k - Z.of_nat k mod Z.of_nat N)%Z
      with (Z.of_nat k / Z.of_nat N * Z.of_nat N)%Z by lia.
    apply Z.mod_mul. lia.
  - apply E. apply Nat2Z.inj. rewrite M.
    apply Z.mod_divide in F; [|lia]. destruct F as [q F].
    symmetry. apply (Z.mod_unique_pos _ _ q); lia.
Qed.

Lemma residue_count (N j : nat) (lines : list str) :
  j < N ->
  forall k,
  Z.of_nat (length (filter (fun il => fst il mod N =? j)
                      (enumerate_from k lines)))
  = ((Z.of_nat k + Z.of_nat (length lines) - 1 - Z.of_nat j) / Z.of_nat N
     - (Z.of_nat k - 1 - Z.of_nat j) / Z.of_nat N)%Z.
Proof.
  intros Hj. induction lines as [|l lines IH]; intros k.
  - cbn [enumerate_from filter length]. rewrite Z.add_0_r. lia.
  - cbn [enumerate_from filter fst length].
    pose proof (residue_step (Z.of_nat k - Z.of_nat j) (Z.of_nat N)
                  ltac:(lia)) as St.
    rewrite <- (residue_nat k j N Hj) in St.
    specialize (IH (S k)).
    replace (Z.of_nat (S k) + Z.of_nat (length lines) - 1 - Z.of_nat j)%Z
      with (Z.of_nat k + Z.of_nat (S (length lines)) - 1 - Z.of_nat j)%Z
      in IH by lia.
    replace (Z.of_nat (S k) - 1 - Z.of_nat j)%Z
      with (Z.of_nat k - Z.of_nat j)%Z in IH by lia.
    replace (Z.of_nat k - Z.of_nat j - 1)%Z
      with (Z.of_nat k - 1 - Z.of_nat j)%Z in St by lia.
    destruct (k mod N =? j); cbn [length]; lia.
Qed.

(** X24.  The round robin is even: of the [L] lines of an input file split
    into [N] partitions, partition [j] receives the lines at the positions
    [j], [j + N], [j + 2N], ..., which are [(L - 1 - j) / N + 1] lines
    (rounded down), so two partitions of a file differ by at most one
    line. *)
Theorem prepare_input_files_splits_evenly
  (fs : node) (input_dir : path) (children : entries node)
  (pre : list str) (data : str) (post : list str) (j : nat) :
  lookup input_dir fs = Some (Dir children) ->
  regular_files children = pre ++ data :: post ->
  j < splits data ->
  exists out n,
    prepare_input_files fs input_dir [] = OK (out, n) /\
    entry_find (part_filename (total_splits pre + j)) out
      = Some (writelines (every_nth (splits data) j (read_text data))) /\
    Z.of_nat (length (every_nth (splits data) j (read_text data))) =
      ((Z.of_nat (length (read_text data)) - 1 - Z.of_nat j)
         / Z.of_nat (splits data) + 1)%Z.
Proof.
  intros Hd Hf Hj. rewrite (prepare_input_files_spec _ _ _ Hd), Hf.
  do 2 eexists. split; [reflexivity|].
  rewrite <- round_robin_every_nth.
  split; [exact (split_all_found pre data post j Hj [] 0)|].
  unfold round_robin, enumerate. rewrite length_map.
  rewrite (residue_count _ _ _ Hj 0). cbn [Z.of_nat]. rewrite Z.add_0_l.
  assert ((0 - 1 - Z.of_nat j) / Z.of_nat (splits data) = -1)%Z as ->; [|lia].
  symmetry.
  apply (Z.div_unique_pos _ _ _ (Z.of_nat (splits data) - 1 - Z.of_nat j));
    lia.
Qed.

Lemma prepare_input_files_splits_evenly_witness :
  let children := [("big.txt"%string, File big_file)] in
  lookup ["input"%string] fs_big_file = Some (Dir children) /\
  regular_files children = [] ++ big_file :: [] /\
  1 < splits big_file /\
  exists out n,
    prepare_input_files fs_big_file ["input"%string] [] = OK (out, n) /\
    entry_find (part_filename (total_splits [] + 1)) out
      = Some (writelines (every_nth (splits big_file) 1 (read_text big_file)))
    /\
    Z.of_nat (length (every_nth (splits big_file) 1 (read_text big_file))) =
      ((Z.of_nat (length (read_text big_file)) - 1 - Z.of_nat 1)
         / Z.of_nat (splits big_file) + 1)%Z.
Proof.
  intros children.
  assert (lookup ["input"%string] fs_big_file = Some (Dir children)) as Hd
    by reflexivity.
  assert (regular_files children = [] ++ big_file :: []) as Hf by reflexivity.
  assert (1 < splits big_file) as Hj by (vm_compute; lia).
  split; [exact Hd|]. split; [exact Hf|]. split; [exact Hj|].
  exact (prepare_input_files_splits_evenly fs_big_file ["input"%string]
           children [] big_file [] 1 Hd Hf Hj).
Defined.

(** The file of 2^17 + 1 lines is split in two. *)
Example big_file_splits : splits big_file = 2.
Proof. vm_compute. reflexivity. Qed.
